(** * napcat-channel: the dual-transport action client, the reconnecting
    socket runtime and the inbound / outbound message pipeline.

    The development embeds three source files:
    - [api/client.ts]  (class [NapCatApiClient]),
    - [runtime.ts]     (class [NapCatRuntime]),
    - [channel.ts]     (the [onMessage] handler and its [deliver] callback).

    JavaScript values are modelled as follows.  Strings are [string];
    [undefined] is [None]; identities and millisecond clocks are integers
    ([Z] or [N]); the reconnect delay, which the source computes with
    [Math.pow(1.5, k)], is an exact rational ([Q]): every value it takes is
    a dyadic rational with a short mantissa, hence exactly representable as
    a binary64 number.  Asynchronous code is cut at its [await]s and at its
    callbacks: what runs between two suspension points is one transition of
    a state machine, and the environment (sockets, timers, HTTP results,
    the clock) chooses the order of the transitions. *)

From Stdlib Require Import ZArith NArith QArith Qminmax Qround String Ascii List Bool Lia.
From Stdlib Require Import DecimalString DecimalN DecimalZ.
From stdpp Require Import gmap strings list.

Close Scope Q_scope.
Local Open Scope string_scope.

(** ** JavaScript string and number primitives used by the sources *)

Module Js.

(** Truthiness of a possibly-undefined string: [undefined] and [''] are
    falsy, every other string is truthy. *)
Definition truthy (o : option string) : bool :=
  match o with
  | Some s => negb (String.eqb s "")
  | None => false
  end.

(** [String(n)] / template interpolation of an integer. *)
Definition string_of_N (n : N) : string :=
  NilZero.string_of_uint (N.to_uint n).

Definition string_of_Z (z : Z) : string :=
  NilZero.string_of_int (Z.to_int z).

(** [s.startsWith(p)] *)
Fixpoint startsWith (s p : string) : bool :=
  match p with
  | EmptyString => true
  | String a p' =>
      match s with
      | EmptyString => false
      | String b s' => Ascii.eqb a b && startsWith s' p'
      end
  end.

(** [s.includes(sub)] *)
Fixpoint includes (s sub : string) : bool :=
  startsWith s sub ||
  match s with
  | EmptyString => false
  | String _ s' => includes s' sub
  end.

(** Strings are kept as their UTF-8 bytes.  The white space removed by
    [String.prototype.trim] and skipped by [parseInt] is the ECMAScript
    [WhiteSpace] and [LineTerminator] code points.  [is_space] is the
    one-byte ones: TAB, LF, VT, FF, CR and SPACE. *)
Definition is_space (c : ascii) : bool :=
  let n := nat_of_ascii c in
  (Nat.eqb n 32) || (Nat.leb 9 n && Nat.leb n 13).

(** U+00A0, encoded as C2 A0. *)
Definition is_space2 (c1 c2 : ascii) : bool :=
  Nat.eqb (nat_of_ascii c1) 194 && Nat.eqb (nat_of_ascii c2) 160.

(** The three-byte ones: U+1680 (E1 9A 80), U+2000 to U+200A (E2 80 80 to
    E2 80 8A), U+2028 and U+2029 (E2 80 A8, E2 80 A9), U+202F (E2 80 AF),
    U+205F (E2 81 9F), U+3000 (E3 80 80) and U+FEFF (EF BB BF). *)
Definition is_space3 (c1 c2 c3 : ascii) : bool :=
  let a := nat_of_ascii c1 in
  let b := nat_of_ascii c2 in
  let c := nat_of_ascii c3 in
  (Nat.eqb a 225 && Nat.eqb b 154 && Nat.eqb c 128) ||
  (Nat.eqb a 226 && Nat.eqb b 128 &&
   ((Nat.leb 128 c && Nat.leb c 138) || Nat.eqb c 168 || Nat.eqb c 169 || Nat.eqb c 175)) ||
  (Nat.eqb a 226 && Nat.eqb b 129 && Nat.eqb c 159) ||
  (Nat.eqb a 227 && Nat.eqb b 128 && Nat.eqb c 128) ||
  (Nat.eqb a 239 && Nat.eqb b 187 && Nat.eqb c 191).

Fixpoint trimStart (s : string) : string :=
  match s with
  | EmptyString => EmptyString
  | String c1 s1 =>
      if is_space c1 then trimStart s1
      else
        match s1 with
        | String c2 s2 =>
            if is_space2 c1 c2 then trimStart s2
            else
              match s2 with
              | String c3 s3 => if is_space3 c1 c2 c3 then trimStart s3 else s
              | EmptyString => s
              end
        | EmptyString => s
        end
  end.

(** Whether [s] is made of white space only. *)
Definition all_space (s : string) : bool := String.eqb (trimStart s) "".

(** The white space at the end is what remains once nothing but white
    space follows. *)
Fixpoint trimEnd (s : string) : string :=
  match s with
  | EmptyString => EmptyString
  | String c s' => if all_space s then EmptyString else String c (trimEnd s')
  end.

Definition trim (s : string) : string := trimEnd (trimStart s).

(** [s.replace(/\/$/, '')]: one trailing slash is removed. *)
Fixpoint strip_trailing_slash (s : string) : string :=
  match s with
  | EmptyString => EmptyString
  | String c EmptyString => if Ascii.eqb c "/" then EmptyString else s
  | String c s' => String c (strip_trailing_slash s')
  end.

(** [s.replace(/^\//, '')]: one leading slash is removed. *)
Definition strip_leading_slash (s : string) : string :=
  match s with
  | String c s' => if Ascii.eqb c "/" then s' else s
  | EmptyString => EmptyString
  end.

(** [s.slice(0, n)] for a non-negative [n]. *)
Definition slice0 (n : nat) (s : string) : string := String.substring 0 n s.

End Js.

(** ** [types.ts] *)

Module Types.

(** [interface NapCatAccount] *)
Record NapCatAccount := {
  wsUrl : option string;
  httpUrl : option string;
  token : option string;
  adminUins : option (list Z)
}.

(** [interface OB11Response]; [data] is kept as the JSON text, as
    [JSON.stringify] renders it, and as the empty text when the response
    has no [data] property. *)
Record OB11Response := {
  status : string;
  retcode : Z;
  data : string;
  message : string;
  wording : option string
}.

End Types.

(** ** [api/client.ts] and [runtime.ts]: one account session

    A session is one [NapCatRuntime] with the [NapCatApiClient] handed to
    it, together with the objects they share with the platform: the
    [WebSocket] objects, the pending [setTimeout] callbacks, the promises
    returned by [request] and the in-flight [fetch] calls. *)

Module Session.
Import Types.

(** [WebSocket.readyState] *)
Inductive ReadyState := CONNECTING | OPEN | CLOSING | CLOSED.

Definition is_open (r : ReadyState) : bool :=
  match r with OPEN => true | _ => false end.

(** A [WebSocket] object: its state and whether the handlers installed by
    [setupWebSocketHandlers] are still attached ([removeAllListeners]
    detaches them). *)
Record Socket := {
  readyState : ReadyState;
  listening : bool
}.

(** The frame [{action, params, echo}] written by [requestWs]. *)
Record Frame := {
  action : string;
  params : string;
  echo : string
}.

(** A parsed inbound frame.  [p_echo] is the property key that
    [payload.echo] denotes ([None] when the field is absent); the other
    fields are those read by [handlePayload] and by the response
    listener. *)
Record Payload := {
  p_echo : option string;
  p_post_type : string;
  p_meta_event_type : string;
  p_sub_type : string;
  p_response : OB11Response
}.

(** How a promise returned by [request] is settled. *)
Inductive Outcome :=
| Resolved (d : string)
| Rejected (err : string).

(** Who awaits a call: an outside caller (the channel), the [await] in
    [start], or the [then]/[catch] pair of the [open] handler. *)
Inductive Caller := External | StartLogin | OpenLogin.

(** The listener registered with [responseEmitter.once(echo, ...)]: the
    closure holds the timeout handle and the promise's resolve / reject
    pair. *)
Record Listener := {
  l_call : nat;
  l_timer : nat
}.

(** The callbacks passed to [setTimeout]. *)
Inductive TimerCb :=
| ApiTimeout (e : string) (call : nat) (act : string)
| ReconnectTimer.

(** What [fetch] and the decoding of its body can produce. *)
Inductive HttpResult :=
| NetworkError (err : string)
| HttpNotOk (code : N) (text : string)
| HttpBadJson (err : string)
| HttpJson (r : OB11Response).

(** Observable actions, in the order they happen. *)
Inductive Obs :=
| HttpPost (call : nat) (url : string) (auth : option string) (body : string)
| WsSend (sock : nat) (f : Frame)
| Settle (call : nat) (o : Outcome)
| SetTimeout (handle : nat) (delay : Q) (cb : TimerCb)
| NewWebSocket (sock : nat) (url : string) (auth : option string)
| WsClose (sock : nat)
| WsTerminate (sock : nat)
| Reconnect
| OnMessage (p : Payload)
| OnReady (d : string)
| OnError (err : string)
| ParseFailure.

(** [class NapCatApiClient] *)
Record NapCatApiClient := {
  c_httpUrl : option string;
  c_token : option string;
  c_ws : option nat;
  responseEmitter : list (string * Listener);
  wsSequence : N
}.

(** [class NapCatRuntime] (its [config] is the section variable below) *)
Record NapCatRuntime := {
  r_ws : option nat;
  reconnectAttempts : N;
  isClosing : bool
}.

Definition maxReconnectAttempts : N := 10.
Definition baseReconnectDelay : Q := 3000.

Record State := {
  client : NapCatApiClient;
  runtime : NapCatRuntime;
  sockets : gmap nat Socket;
  timers : gmap nat (Q * TimerCb);
  awaiting : gmap nat Caller;
  fetching : gmap nat unit;
  nextCall : nat;
  nextHandle : nat;
  trace : list Obs
}.

(** *** Field updates *)

Definition with_client (f : NapCatApiClient -> NapCatApiClient) (s : State) : State :=
  {| client := f (client s); runtime := runtime s; sockets := sockets s;
     timers := timers s; awaiting := awaiting s; fetching := fetching s;
     nextCall := nextCall s; nextHandle := nextHandle s; trace := trace s |}.

Definition with_runtime (f : NapCatRuntime -> NapCatRuntime) (s : State) : State :=
  {| client := client s; runtime := f (runtime s); sockets := sockets s;
     timers := timers s; awaiting := awaiting s; fetching := fetching s;
     nextCall := nextCall s; nextHandle := nextHandle s; trace := trace s |}.

Definition with_sockets (f : gmap nat Socket -> gmap nat Socket) (s : State) : State :=
  {| client := client s; runtime := runtime s; sockets := f (sockets s);
     timers := timers s; awaiting := awaiting s; fetching := fetching s;
     nextCall := nextCall s; nextHandle := nextHandle s; trace := trace s |}.

Definition with_timers (f : gmap nat (Q * TimerCb) -> gmap nat (Q * TimerCb)) (s : State) : State :=
  {| client := client s; runtime := runtime s; sockets := sockets s;
     timers := f (timers s); awaiting := awaiting s; fetching := fetching s;
     nextCall := nextCall s; nextHandle := nextHandle s; trace := trace s |}.

Definition with_awaiting (f : gmap nat Caller -> gmap nat Caller) (s : State) : State :=
  {| client := client s; runtime := runtime s; sockets := sockets s;
     timers := timers s; awaiting := f (awaiting s); fetching := fetching s;
     nextCall := nextCall s; nextHandle := nextHandle s; trace := trace s |}.

Definition with_fetching (f : gmap nat unit -> gmap nat unit) (s : State) : State :=
  {| client := client s; runtime := runtime s; sockets := sockets s;
     timers := timers s; awaiting := awaiting s; fetching := f (fetching s);
     nextCall := nextCall s; nextHandle := nextHandle s; trace := trace s |}.

Definition bump_call (s : State) : State :=
  {| client := client s; runtime := runtime s; sockets := sockets s;
     timers := timers s; awaiting := awaiting s; fetching := fetching s;
     nextCall := S (nextCall s); nextHandle := nextHandle s; trace := trace s |}.

Definition bump_handle (s : State) : State :=
  {| client := client s; runtime := runtime s; sockets := sockets s;
     timers := timers s; awaiting := awaiting s; fetching := fetching s;
     nextCall := nextCall s; nextHandle := S (nextHandle s); trace := trace s |}.

(** Record an observable action. *)
Definition emit_obs (o : Obs) (s : State) : State :=
  {| client := client s; runtime := runtime s; sockets := sockets s;
     timers := timers s; awaiting := awaiting s; fetching := fetching s;
     nextCall := nextCall s; nextHandle := nextHandle s; trace := trace s ++ [o] |}.

Definition set_c_ws (w : option nat) (c : NapCatApiClient) : NapCatApiClient :=
  {| c_httpUrl := c_httpUrl c; c_token := c_token c; c_ws := w;
     responseEmitter := responseEmitter c; wsSequence := wsSequence c |}.

Definition set_emitter (l : list (string * Listener)) (c : NapCatApiClient) : NapCatApiClient :=
  {| c_httpUrl := c_httpUrl c; c_token := c_token c; c_ws := c_ws c;
     responseEmitter := l; wsSequence := wsSequence c |}.

Definition set_wsSequence (n : N) (c : NapCatApiClient) : NapCatApiClient :=
  {| c_httpUrl := c_httpUrl c; c_token := c_token c; c_ws := c_ws c;
     responseEmitter := responseEmitter c; wsSequence := n |}.

Definition set_r_ws (w : option nat) (r : NapCatRuntime) : NapCatRuntime :=
  {| r_ws := w; reconnectAttempts := reconnectAttempts r; isClosing := isClosing r |}.

Definition set_reconnectAttempts (n : N) (r : NapCatRuntime) : NapCatRuntime :=
  {| r_ws := r_ws r; reconnectAttempts := n; isClosing := isClosing r |}.

Definition set_isClosing (b : bool) (r : NapCatRuntime) : NapCatRuntime :=
  {| r_ws := r_ws r; reconnectAttempts := reconnectAttempts r; isClosing := b |}.

Definition set_readyState (r : ReadyState) (k : Socket) : Socket :=
  {| readyState := r; listening := listening k |}.

Definition set_listening (b : bool) (k : Socket) : Socket :=
  {| readyState := readyState k; listening := b |}.

(** *** Numbers *)

(** [x++] on a JavaScript number: exact below 2^53, where the successor
    is no longer representable and [x + 1] rounds back to [x]. *)
Definition js_succ (n : N) : N :=
  if (n <? 2 ^ 53)%N then (n + 1)%N else n.

(** [Math.min(baseReconnectDelay * Math.pow(1.5, attempts - 1), 60000)] *)
Definition reconnectDelay (attempts : N) : Q :=
  Qmin (baseReconnectDelay * (3 # 2) ^ (Z.of_N attempts - 1))%Q 60000%Q.


(** *** Error messages *)

Definition no_transport_error : string :=
  "No available transport for API request (HTTP not configured, WS not connected)".

Definition ws_not_initialized_error : string := "WebSocket not initialized".

Definition timeout_error (act : string) : string :=
  "WebSocket API request timed out: " ++ act.

(** [response.message || response.wording] inside a template literal *)
Definition message_or_wording (r : OB11Response) : string :=
  if negb (String.eqb (message r) "") then message r
  else match wording r with
       | Some w => w
       | None => "undefined"
       end.

Definition api_error (r : OB11Response) : string :=
  "NapCat API error: [" ++ Js.string_of_Z (retcode r) ++ "] " ++ message_or_wording r.

Definition http_failed_error (code : N) (text : string) : string :=
  "API request failed: " ++ Js.string_of_N code ++ " " ++ text.

(** [status === 'failed' && retcode !== 0] *)
Definition is_failure (r : OB11Response) : bool :=
  String.eqb (status r) "failed" && negb (Z.eqb (retcode r) 0).

Definition outcome_of_response (r : OB11Response) : Outcome :=
  if is_failure r then Rejected (api_error r) else Resolved (data r).

(** Whether the data of a response is [null] or [undefined]: the JSON
    text [null], or no [data] property at all. *)
Definition nullish (d : string) : bool :=
  String.eqb d "null" || String.eqb d "".

(** [`api_${Date.now()}_${this.wsSequence++}`] *)
Definition make_echo (now seq : N) : string :=
  "api_" ++ Js.string_of_N now ++ "_" ++ Js.string_of_N seq.

(** *** [EventEmitter] *)

Definition listeners_of (e : string) (l : list (string * Listener)) : list Listener :=
  map snd (List.filter (fun kl => String.eqb (fst kl) e) l).

(** [removeAllListeners(e)]; also what remains after every [once]
    listener of [e] has run. *)
Definition removeAllListeners (e : string) (l : list (string * Listener)) : list (string * Listener) :=
  List.filter (fun kl => negb (String.eqb (fst kl) e)) l.

(** *** Methods of the two classes *)

Section Methods.

(** [config.account], shared by the runtime and its client. *)
Variable account : NapCatAccount.

(** Whether [new WebSocket(url, options)] accepts the URL; it throws
    otherwise, inside the [try] of [start]. *)
Variable url_ok : string -> bool.

(** [NapCatApiClient.constructor] *)
Definition new_client : NapCatApiClient :=
  {| c_httpUrl :=
       if Js.truthy (httpUrl account)
       then option_map Js.strip_trailing_slash (httpUrl account)
       else None;
     c_token := token account;
     c_ws := None;
     responseEmitter := [];
     wsSequence := 0 |}.

Definition new_runtime : NapCatRuntime :=
  {| r_ws := None; reconnectAttempts := 0; isClosing := false |}.

Definition init : State :=
  {| client := new_client; runtime := new_runtime; sockets := ∅;
     timers := ∅; awaiting := ∅; fetching := ∅;
     nextCall := 0; nextHandle := 0; trace := [] |}.

(** [Authorization: `Bearer ${token}`] when a token is configured. *)
Definition bearer (tok : option string) : option string :=
  if Js.truthy tok then option_map (fun t => "Bearer " ++ t) tok else None.

(** [NapCatRuntime.scheduleReconnect] *)
Definition scheduleReconnect (s : State) : State :=
  if isClosing (runtime s) then s
  else if negb (Js.truthy (wsUrl account)) then s
  else if (maxReconnectAttempts <=? reconnectAttempts (runtime s))%N
  then emit_obs (OnError "Max reconnect attempts reached") s
  else
    let n := js_succ (reconnectAttempts (runtime s)) in
    let d := reconnectDelay n in
    let h := nextHandle s in
    emit_obs (SetTimeout h d ReconnectTimer)
      (bump_handle
         (with_timers (insert h (d, ReconnectTimer))
            (with_runtime (set_reconnectAttempts n) s))).

(** The [catch] block of [start]. *)
Definition start_failed (err : string) (s : State) : State :=
  scheduleReconnect (emit_obs (OnError err) s).

(** [start], from the test of [wsUrl] on (what runs after the
    [await] of the login verification). *)
Definition start_connect (s : State) : State :=
  if Js.truthy (wsUrl account) then
    let url := default "" (wsUrl account) in
    if url_ok url then
      let k := nextHandle s in
      emit_obs (NewWebSocket k url (bearer (token account)))
        (bump_handle
           (with_sockets (insert k {| readyState := CONNECTING; listening := true |})
              (with_runtime (set_r_ws (Some k)) s)))
    else start_failed "Invalid URL" s
  else if negb (Js.truthy (httpUrl account))
  then start_failed "Neither wsUrl nor httpUrl is configured" s
  else s.

(** What the two login checks do with the data of a successful
    response: [loginInfo.nickname] is read first, which throws when the
    data is [null] or [undefined]; the error is caught and logged and
    [onReady] is not called. *)
Definition report_ready (d : string) (s : State) : State :=
  if nullish d then s else emit_obs (OnReady d) s.

(** The code that awaits a call, run when its promise settles. *)
Definition run_caller (who : Caller) (o : Outcome) (s : State) : State :=
  match who, o with
  | External, _ => s
  | StartLogin, Resolved d => start_connect (report_ready d s)
  | StartLogin, Rejected _ => start_connect s
  | OpenLogin, Resolved d => report_ready d s
  | OpenLogin, Rejected _ => s
  end.

(** An invocation of a promise's [resolve] or [reject].  It is always
    recorded; only the first one for a call reaches the awaiting
    code. *)
Definition settle (c : nat) (o : Outcome) (s : State) : State :=
  let s1 := emit_obs (Settle c o) s in
  match awaiting s !! c with
  | Some who => run_caller who o (with_awaiting (delete c) s1)
  | None => s1
  end.

(** [NapCatApiClient.requestHttp], up to the [await fetch]. *)
Definition requestHttp (c : nat) (endpoint body : string) (s : State) : State :=
  let url := default "" (c_httpUrl (client s)) ++ endpoint in
  emit_obs (HttpPost c url (bearer (c_token (client s))) body)
    (with_fetching (insert c ()) s).

(** [requestHttp], from the completion of [fetch] on. *)
Definition outcome_of_http (r : HttpResult) : Outcome :=
  match r with
  | NetworkError err => Rejected err
  | HttpNotOk code text => Rejected (http_failed_error code text)
  | HttpBadJson err => Rejected err
  | HttpJson r => outcome_of_response r
  end.

(** [NapCatApiClient.requestWs] *)
Definition requestWs (c : nat) (endpoint body : string) (now : N) (s : State) : State :=
  match c_ws (client s) with
  | None => settle c (Rejected ws_not_initialized_error) s
  | Some k =>
      let seq := wsSequence (client s) in
      let e := make_echo now seq in
      let act := Js.strip_leading_slash endpoint in
      let h := nextHandle s in
      let s1 := with_client (set_wsSequence (js_succ seq)) s in
      let s2 := emit_obs (SetTimeout h 10000%Q (ApiTimeout e c act))
                  (bump_handle (with_timers (insert h (10000%Q, ApiTimeout e c act)) s1)) in
      let s3 := with_client
                  (fun cl => set_emitter
                               (responseEmitter cl ++ [(e, {| l_call := c; l_timer := h |})]) cl)
                  s2 in
      emit_obs (WsSend k {| action := act; params := body; echo := e |}) s3
  end.

(** [this.ws && this.ws.readyState === WebSocket.OPEN] *)
Definition ws_is_open (s : State) : bool :=
  match c_ws (client s) with
  | Some k =>
      match sockets s !! k with
      | Some sk => is_open (readyState sk)
      | None => false
      end
  | None => false
  end.

(** [NapCatApiClient.request], called on behalf of [who]. *)
Definition request (who : Caller) (endpoint body : string) (now : N) (s : State) : State :=
  let c := nextCall s in
  let s0 := bump_call (with_awaiting (insert c who) s) in
  if Js.truthy (c_httpUrl (client s)) then requestHttp c endpoint body s0
  else if ws_is_open s then requestWs c endpoint body now s0
  else settle c (Rejected no_transport_error) s0.

(** [NapCatApiClient.getLoginInfo] *)
Definition getLoginInfo (who : Caller) (now : N) (s : State) : State :=
  request who "/get_login_info" "{}" now s.

(** [NapCatRuntime.start] *)
Definition start (now : N) (s : State) : State :=
  if Js.truthy (httpUrl account) then getLoginInfo StartLogin now s
  else start_connect s.

(** [ws.terminate()] and [ws.close()] on the socket object. *)
Definition terminate_socket (sk : Socket) : Socket :=
  {| readyState := match readyState sk with CLOSED => CLOSED | _ => CLOSING end;
     listening := false |}.

Definition close_socket (sk : Socket) : Socket :=
  set_readyState (match readyState sk with CLOSED => CLOSED | _ => CLOSING end) sk.

(** [NapCatRuntime.reconnect] *)
Definition reconnect (now : N) (s : State) : State :=
  let s0 := emit_obs Reconnect s in
  let s1 :=
    match r_ws (runtime s0) with
    | Some k =>
        with_runtime (set_r_ws None)
          (emit_obs (WsTerminate k) (with_sockets (alter terminate_socket k) s0))
    | None => s0
    end in
  start now s1.

(** [NapCatRuntime.stop] *)
Definition stop (s : State) : State :=
  let s1 := with_runtime (set_isClosing true) s in
  let s2 :=
    match r_ws (runtime s1) with
    | Some k =>
        with_runtime (set_r_ws None)
          (emit_obs (WsClose k) (with_sockets (alter close_socket k) s1))
    | None => s1
    end in
  with_runtime (set_reconnectAttempts 0) s2.

(** [responseEmitter.emit(e, payload)]: every [once] listener of [e]
    is detached and run; it clears its timeout and settles its call.
    With no listener, [emit('error', ...)] throws, which the [message]
    handler of the runtime catches and logs. *)
Definition run_listener (r : OB11Response) (s : State) (l : Listener) : State :=
  settle (l_call l) (outcome_of_response r) (with_timers (delete (l_timer l)) s).

Definition emit (e : string) (p : Payload) (s : State) : State :=
  match listeners_of e (responseEmitter (client s)) with
  | [] => if String.eqb e "error" then emit_obs ParseFailure s else s
  | ls =>
      fold_left (run_listener (p_response p)) ls
        (with_client (fun cl => set_emitter (removeAllListeners e (responseEmitter cl)) cl) s)
  end.

(** [NapCatApiClient.handleWsResponse] *)
Definition handleWsResponse (p : Payload) (s : State) : State :=
  if Js.truthy (p_echo p) then emit (default "" (p_echo p)) p s else s.

(** [NapCatRuntime.handlePayload] *)
Definition handlePayload (p : Payload) (s : State) : State :=
  if Js.truthy (p_echo p) then handleWsResponse p s
  else if String.eqb (p_post_type p) "message" then emit_obs (OnMessage p) s
  else s.

(** The four handlers installed by [setupWebSocketHandlers]. *)
Definition on_open (now : N) (s : State) : State :=
  let s1 := with_runtime (set_reconnectAttempts 0) s in
  let s2 := with_client (set_c_ws (r_ws (runtime s1))) s1 in
  if negb (Js.truthy (httpUrl account)) then getLoginInfo OpenLogin now s2 else s2.

Definition on_message (raw : option Payload) (s : State) : State :=
  match raw with
  | Some p => handlePayload p s
  | None => emit_obs ParseFailure s
  end.

Definition on_close (s : State) : State :=
  let s1 := with_client (set_c_ws None) s in
  if negb (isClosing (runtime s1)) then scheduleReconnect s1 else s1.

Definition on_error (err : string) (s : State) : State :=
  emit_obs (OnError err) s.

(** The timeout callback of [requestWs]. *)
Definition on_api_timeout (e : string) (c : nat) (act : string) (s : State) : State :=
  settle c (Rejected (timeout_error act))
    (with_client (fun cl => set_emitter (removeAllListeners e (responseEmitter cl)) cl) s).

(** The timer callback of [scheduleReconnect]. *)
Definition on_reconnect_timer (now : N) (s : State) : State :=
  if negb (isClosing (runtime s)) then reconnect now s else s.

(** *** The platform: what can happen next *)

Inductive SocketEvent :=
| SockOpen
| SockMessage (raw : option Payload)
| SockClose
| SockError (err : string).

Inductive Event :=
| Call (endpoint body : string)
| HttpDone (c : nat) (r : HttpResult)
| SocketEv (k : nat) (ev : SocketEvent)
| TimerFires (h : nat)
| Start
| Stop.

Definition socket_event (now : N) (k : nat) (ev : SocketEvent) (s : State) : State :=
  match sockets s !! k with
  | None => s
  | Some sk =>
      match ev with
      | SockOpen =>
          match readyState sk with
          | CONNECTING =>
              let s1 := with_sockets (insert k (set_readyState OPEN sk)) s in
              if listening sk then on_open now s1 else s1
          | _ => s
          end
      | SockMessage raw =>
          match readyState sk with
          | OPEN | CLOSING => if listening sk then on_message raw s else s
          | _ => s
          end
      | SockClose =>
          match readyState sk with
          | CLOSED => s
          | _ =>
              let s1 := with_sockets (insert k (set_readyState CLOSED sk)) s in
              if listening sk then on_close s1 else s1
          end
      | SockError err => if listening sk then on_error err s else s
      end
  end.

Definition fire_timer (now : N) (h : nat) (s : State) : State :=
  match timers s !! h with
  | None => s
  | Some (_, cb) =>
      let s1 := with_timers (delete h) s in
      match cb with
      | ApiTimeout e c act => on_api_timeout e c act s1
      | ReconnectTimer => on_reconnect_timer now s1
      end
  end.

Definition http_done (c : nat) (r : HttpResult) (s : State) : State :=
  match fetching s !! c with
  | None => s
  | Some _ => settle c (outcome_of_http r) (with_fetching (delete c) s)
  end.

(** One transition; [now] is what [Date.now()] returns during it. *)
Definition step (s : State) (ne : N * Event) : State :=
  let now := fst ne in
  match snd ne with
  | Call endpoint body => request External endpoint body now s
  | HttpDone c r => http_done c r s
  | SocketEv k ev => socket_event now k ev s
  | TimerFires h => fire_timer now h s
  | Start => start now s
  | Stop => stop s
  end.

Definition run (es : list (N * Event)) (s : State) : State :=
  fold_left step es s.

(** The invocations of the resolve / reject pair of call [c]. *)
Definition settlements (c : nat) (s : State) : list Outcome :=
  omap (fun o => match o with
                 | Settle c' r => if Nat.eqb c' c then Some r else None
                 | _ => None
                 end) (trace s).


(** The correlation tokens of the pending socket requests. *)
Definition pending_tokens (s : State) : list string :=
  map fst (responseEmitter (client s)).

End Methods.

End Session.

(** ** [channel.ts]: the inbound handler and the reply delivery *)

Module Channel.
Import Types.

(** The scalar JSON values found in segment data. *)
Inductive JsVal :=
| JUndefined
| JNull
| JString (s : string)
| JNumber (z : Z).

(** [String(v)] *)
Definition to_string (v : JsVal) : string :=
  match v with
  | JUndefined => "undefined"
  | JNull => "null"
  | JString s => s
  | JNumber z => Js.string_of_Z z
  end.

(** How [Array.prototype.join] renders an element. *)
Definition join_item (v : JsVal) : string :=
  match v with
  | JUndefined | JNull => ""
  | _ => to_string v
  end.

Definition truthy_val (v : JsVal) : bool :=
  match v with
  | JUndefined | JNull => false
  | JString s => negb (String.eqb s "")
  | JNumber z => negb (Z.eqb z 0)
  end.

(** [a || b] *)
Definition js_or (a b : JsVal) : JsVal := if truthy_val a then a else b.

(** [interface OB11MessageSegment] *)
Record OB11MessageSegment := {
  type : string;
  data : gmap string JsVal
}.

(** [seg.data.k] *)
Definition field (seg : OB11MessageSegment) (k : string) : JsVal :=
  default JUndefined (data seg !! k).

Inductive MessageType := private | group.

(** [message: OB11MessageSegment[] | string] *)
Inductive MessageBody :=
| Text (s : string)
| Segments (l : list OB11MessageSegment).

(** [interface OB11MessageEvent], the fields the handler reads. *)
Record OB11MessageEvent := {
  time : Z;
  self_id : Z;
  message_type : MessageType;
  message_id : Z;
  user_id : Z;
  message : MessageBody;
  nickname : string;
  group_id : option Z
}.

(** [String(message.group_id)] *)
Definition group_id_string (m : OB11MessageEvent) : string :=
  match group_id m with
  | Some g => Js.string_of_Z g
  | None => "undefined"
  end.

(** *** [onMessage] *)

(** The admin gate: [adminUins && adminUins.length > 0] guards the
    [includes] test. *)
Definition admin_filter_applies (account : NapCatAccount) : bool :=
  match adminUins account with
  | Some l => Nat.ltb 0 (length l)
  | None => false
  end.

Definition admin_allows (account : NapCatAccount) (m : OB11MessageEvent) : bool :=
  if admin_filter_applies account
  then existsb (Z.eqb (user_id m)) (default [] (adminUins account))
  else true.

(** An account equal to [account] but with no [adminUins] property. *)
Definition without_allowlist (account : NapCatAccount) : NapCatAccount :=
  {| wsUrl := wsUrl account; httpUrl := httpUrl account;
     token := token account; adminUins := None |}.

(** [isMentioned] *)
Definition mention_marker (self : Z) : string :=
  "[CQ:at,qq=" ++ Js.string_of_Z self ++ "]".

Definition isMentioned (m : OB11MessageEvent) : bool :=
  match message m with
  | Segments l =>
      existsb (fun seg => String.eqb (type seg) "at" &&
                          String.eqb (to_string (field seg "qq"))
                                     (Js.string_of_Z (self_id m))) l
  | Text s => Js.includes s (mention_marker (self_id m))
  end.

(** Whether the message passes the mention gate. *)
Definition addressed (m : OB11MessageEvent) : bool :=
  match message_type m with
  | group => isMentioned m
  | private => true
  end.

(** The text of the message before trimming, and the media reference. *)
Definition extract_text (m : OB11MessageEvent) : string :=
  match message m with
  | Text s => s
  | Segments l =>
      String.concat ""
        (map (fun seg => join_item (field seg "text"))
             (List.filter (fun seg => String.eqb (type seg) "text") l))
  end.

Definition extract_media (m : OB11MessageEvent) : JsVal :=
  match message m with
  | Text _ => JUndefined
  | Segments l =>
      match find (fun seg => String.eqb (type seg) "image") l with
      | Some seg => js_or (field seg "url") (field seg "file")
      | None => JUndefined
      end
  end.

Definition normalize_text (m : OB11MessageEvent) : string :=
  let t := Js.trim (extract_text m) in
  let media := extract_media m in
  let t := if (String.eqb t "") && truthy_val media then "[Image]" else t in
  if truthy_val media
  then t ++ String "010" ("[MediaUrl: " ++ to_string media ++ "]")
  else t.

(** The canonical inbound message handed to the host. *)
Record Inbound := {
  RawBody : string;
  MediaUrl : JsVal;
  isDirect : bool;
  peerId : string;
  channelId : string;
  SenderName : string;
  ConversationLabel : string;
  timestamp : Z;
  MessageSid : string
}.

Inductive Handled :=
| IgnoredNonAdmin
| IgnoredNotMentioned
| DroppedEmpty
| Dispatched (ctx : Inbound).

Definition channelId_of (m : OB11MessageEvent) : string :=
  match message_type m with
  | private => "private:" ++ Js.string_of_Z (user_id m)
  | group => "group:" ++ group_id_string m
  end.

Definition inbound_of (m : OB11MessageEvent) (messageText : string) : Inbound :=
  let direct := match message_type m with private => true | group => false end in
  let senderName :=
    if negb (String.eqb (nickname m) "") then nickname m
    else Js.string_of_Z (user_id m) in
  {| RawBody := messageText;
     MediaUrl := extract_media m;
     isDirect := direct;
     peerId := if direct then Js.string_of_Z (user_id m) else group_id_string m;
     channelId := channelId_of m;
     SenderName := senderName;
     ConversationLabel :=
       if direct then senderName
       else senderName ++ " in group " ++ group_id_string m;
     timestamp := time m * 1000;
     MessageSid := Js.string_of_Z (message_id m) |}.

Definition onMessage (account : NapCatAccount) (m : OB11MessageEvent) : Handled :=
  if negb (admin_allows account m) then IgnoredNonAdmin
  else if negb (addressed m) then IgnoredNotMentioned
  else
    let messageText := normalize_text m in
    if String.eqb messageText "" then DroppedEmpty
    else Dispatched (inbound_of m messageText).

(** *** [deliver] *)

Definition REPLY_DEDUP_WINDOW_MS : Z := 5000.

(** An entry of [recentReplies]. *)
Record Reply := {
  r_text : string;
  r_timestamp : Z
}.

(** The payload handed to [deliver] by the host. *)
Record ReplyPayload := {
  text : option string;
  media : option (list string);
  files : option (list string);
  mediaUrls : option (list string);
  mediaUrl : option string
}.

Definition replyMedia_of (p : ReplyPayload) : list string :=
  match media p, files p, mediaUrls p with
  | Some l, _, _ => l
  | None, Some l, _ => l
  | None, None, Some l => l
  | None, None, None => if Js.truthy (mediaUrl p) then [default "" (mediaUrl p)] else []
  end.

(** [fs.existsSync] and [fs.readFileSync]; a read that throws is [None]. *)
Record FileSystem := {
  existsSync : string -> bool;
  readFileSync : string -> option (list N)
}.

(** [Buffer.toString('base64')] *)
Definition base64_alphabet : string :=
  "ABCDEFGHIJKLMNOPQRSTUVWXYZabcdefghijklmnopqrstuvwxyz0123456789+/".

Definition base64_digit (n : N) : ascii :=
  default "="%char (String.get (N.to_nat (n mod 64)) base64_alphabet).

Fixpoint base64 (bs : list N) : string :=
  match bs with
  | [] => ""
  | [a] =>
      let n := (a * 65536)%N in
      String (base64_digit (n / 262144)) (String (base64_digit (n / 4096)) "==")
  | [a; b] =>
      let n := (a * 65536 + b * 256)%N in
      String (base64_digit (n / 262144))
        (String (base64_digit (n / 4096)) (String (base64_digit (n / 64)) "="))
  | a :: b :: c :: rest =>
      let n := (a * 65536 + b * 256 + c)%N in
      String (base64_digit (n / 262144))
        (String (base64_digit (n / 4096))
           (String (base64_digit (n / 64)) (String (base64_digit n) (base64 rest))))
  end.

(** The body of the [for] loop over [replyMedia]: the [file] value of
    the image segment built for one media item. *)
Definition resolve_file (fs : FileSystem) (mediaItem : string) : string :=
  if Js.startsWith mediaItem "/" && existsSync fs mediaItem then
    match readFileSync fs mediaItem with
    | Some bytes => "base64://" ++ base64 bytes
    | None =>
        if negb (Js.startsWith mediaItem "file://") then "file://" ++ mediaItem
        else mediaItem
    end
  else if Js.startsWith mediaItem "/" && negb (Js.startsWith mediaItem "file://")
  then "file://" ++ mediaItem
  else mediaItem.

Definition text_segment (t : string) : OB11MessageSegment :=
  {| type := "text"; data := {[ "text" := JString t ]} |}.

(** The mention segment [{type: 'at', data: {qq}}] of an inbound message. *)
Definition at_segment (qq : JsVal) : OB11MessageSegment :=
  {| type := "at"; data := {[ "qq" := qq ]} |}.

Definition image_segment (file : string) : OB11MessageSegment :=
  {| type := "image"; data := {[ "file" := JString file ]} |}.

(** [messageBody] *)
Inductive SendBody :=
| PlainText (t : option string)
| SegmentArray (l : list OB11MessageSegment).

(** [interface OB11SendMessageParams], as [deliver] fills it. *)
Record OB11SendMessageParams := {
  sp_message_type : MessageType;
  sp_user_id : option Z;
  sp_group_id : option Z;
  sp_message : SendBody
}.

(** [NapCatApiClient.sendMessage]: the endpoint it requests. *)
Definition sendMessage_endpoint (p : OB11SendMessageParams) : string :=
  match sp_message_type p with
  | private => "/send_private_msg"
  | group => "/send_group_msg"
  end.

Definition messageKey (m : OB11MessageEvent) : string :=
  channelId_of m ++ ":" ++ Js.string_of_Z (message_id m).

Definition messageBody_of (fs : FileSystem) (replyText : option string)
    (replyMedia : list string) : SendBody :=
  match replyMedia with
  | [] => PlainText replyText
  | _ =>
      SegmentArray
        ((if Js.truthy replyText then [text_segment (default "" replyText)] else [])
         ++ map (fun item => image_segment (resolve_file fs item)) replyMedia)
  end.

Definition send_params (m : OB11MessageEvent) (body : SendBody) : OB11SendMessageParams :=
  match message_type m with
  | private =>
      {| sp_message_type := private; sp_user_id := Some (user_id m);
         sp_group_id := None; sp_message := body |}
  | group =>
      {| sp_message_type := group; sp_user_id := None;
         sp_group_id := group_id m; sp_message := body |}
  end.

(** The dedup test: [replyMedia.length === 0 && lastReply &&
    lastReply.text === replyText && now - lastReply.timestamp < WINDOW]. *)
Definition is_duplicate (lastReply : option Reply) (replyText : option string)
    (replyMedia : list string) (now : Z) : bool :=
  match replyMedia, lastReply, replyText with
  | [], Some r, Some t =>
      String.eqb (r_text r) t && (now - r_timestamp r <? REPLY_DEDUP_WINDOW_MS)%Z
  | _, _, _ => false
  end.

(** [replyText || ''] *)
Definition record_text (replyText : option string) : string :=
  if Js.truthy replyText then default "" replyText else "".

(** What [deliver] does up to its [await client.sendMessage(...)]. *)
Inductive Decision :=
| NothingToSend
| Suppressed
| SendNow (p : OB11SendMessageParams) (key : string) (record : Reply).

Definition deliver_decide (fs : FileSystem) (recentReplies : gmap string Reply)
    (m : OB11MessageEvent) (now : Z) (payload : ReplyPayload) : Decision :=
  let replyText := text payload in
  let replyMedia := replyMedia_of payload in
  if negb (Js.truthy replyText) && Nat.eqb (length replyMedia) 0 then NothingToSend
  else
    let key := messageKey m in
    if is_duplicate (recentReplies !! key) replyText replyMedia now then Suppressed
    else
      SendNow (send_params m (messageBody_of fs replyText replyMedia)) key
        {| r_text := record_text replyText; r_timestamp := now |}.

(** One whole run of [deliver]: the send actions it issues and the
    table it leaves.  [send_ok] tells whether [sendMessage] resolves;
    when it rejects, [deliver] throws before [recentReplies.set]. *)
Definition deliver (fs : FileSystem) (m : OB11MessageEvent) (send_ok : bool)
    (now : Z) (payload : ReplyPayload) (recentReplies : gmap string Reply)
    : gmap string Reply * list OB11SendMessageParams :=
  match deliver_decide fs recentReplies m now payload with
  | SendNow p key record =>
      (if send_ok then <[key := record]> recentReplies else recentReplies, [p])
  | _ => (recentReplies, [])
  end.

(** Two runs of [deliver] for the same inbound message, the second
    starting after the first has finished. *)
Definition deliver_twice (fs : FileSystem) (m : OB11MessageEvent)
    (ok1 : bool) (now1 : Z) (p1 : ReplyPayload)
    (ok2 : bool) (now2 : Z) (p2 : ReplyPayload)
    (recentReplies : gmap string Reply)
    : gmap string Reply * list OB11SendMessageParams :=
  let r1 := deliver fs m ok1 now1 p1 recentReplies in
  let r2 := deliver fs m ok2 now2 p2 (fst r1) in
  (fst r2, (snd r1 ++ snd r2)%list).

End Channel.

(** ** Concrete inputs used by the examples below *)

Definition sample_group_event : Channel.OB11MessageEvent :=
  {| Channel.time := 1700000000; Channel.self_id := 42;
     Channel.message_type := Channel.group; Channel.message_id := 7;
     Channel.user_id := 1001;
     Channel.message :=
       Channel.Segments [Channel.text_segment "hello ";
                         Channel.at_segment (Channel.JString "42");
                         Channel.text_segment " world"];
     Channel.nickname := "alice"; Channel.group_id := Some 555%Z |}.

Definition sample_private_event : Channel.OB11MessageEvent :=
  {| Channel.time := 1700000000; Channel.self_id := 42;
     Channel.message_type := Channel.private; Channel.message_id := 8;
     Channel.user_id := 1001; Channel.message := Channel.Text "hi";
     Channel.nickname := "alice"; Channel.group_id := None |}.

Definition ws_only_account : Types.NapCatAccount :=
  {| Types.wsUrl := Some "ws://127.0.0.1:3001"; Types.httpUrl := None;
     Types.token := None; Types.adminUins := None |}.

Definition empty_allowlist_account : Types.NapCatAccount :=
  {| Types.wsUrl := Some "ws://127.0.0.1:3001"; Types.httpUrl := None;
     Types.token := None; Types.adminUins := Some [] |}.

(** A host file system on which no path exists. *)
Definition empty_fs : Channel.FileSystem :=
  {| Channel.existsSync := fun _ => false;
     Channel.readFileSync := fun _ => None |}.

(** A reply payload with a text and a [media] array. *)
Definition reply (t : string) (items : list string) : Channel.ReplyPayload :=
  {| Channel.text := Some t; Channel.media := Some items; Channel.files := None;
     Channel.mediaUrls := None; Channel.mediaUrl := None |}.

(** A reply payload with no text and a [media] array. *)
Definition media_reply (items : list string) : Channel.ReplyPayload :=
  {| Channel.text := None; Channel.media := Some items; Channel.files := None;
     Channel.mediaUrls := None; Channel.mediaUrl := None |}.

(** Every URL is accepted by the [WebSocket] constructor. *)
Definition accept_url (url : string) : bool := true.

(** The runtime is started and five connections in a row are closed
    before they open; each reconnect timer fires in turn. *)
Definition five_failed_connections : list (N * Session.Event) :=
  [(0%N, Session.Start);
   (1%N, Session.SocketEv 0 Session.SockClose); (2%N, Session.TimerFires 1);
   (3%N, Session.SocketEv 2 Session.SockClose); (4%N, Session.TimerFires 3);
   (5%N, Session.SocketEv 4 Session.SockClose); (6%N, Session.TimerFires 5);
   (7%N, Session.SocketEv 6 Session.SockClose); (8%N, Session.TimerFires 7);
   (9%N, Session.SocketEv 8 Session.SockClose)].

(** ** Predicates used to state the properties *)

Section Predicates.
Import Types Session.
Local Open Scope list_scope.

(** What one call of [scheduleReconnect] can do. *)
Inductive Scheduled (s s' : State) : Prop :=
| sched_nothing : s' = s -> Scheduled s s'
| sched_exhausted :
    (10 <= reconnectAttempts (runtime s))%N ->
    s' = emit_obs (OnError "Max reconnect attempts reached") s ->
    Scheduled s s'
| sched_timer n :
    isClosing (runtime s) = false ->
    n = (reconnectAttempts (runtime s) + 1)%N ->
    (1 <= n <= 10)%N ->
    s' = emit_obs (SetTimeout (nextHandle s) (reconnectDelay n) ReconnectTimer)
           (bump_handle
              (with_timers (insert (nextHandle s) (reconnectDelay n, ReconnectTimer))
                 (with_runtime (set_reconnectAttempts n) s))) ->
    Scheduled s s'.

(** The settlement of call [c] that an observation records, if any. *)
Definition settle_of (c : nat) (o : Obs) : option Outcome :=
  match o with
  | Settle c' r => if Nat.eqb c' c then Some r else None
  | _ => None
  end.

(** Effects that leave the table of pending requests alone.

    [grow S D s s']: from [s] to [s'] the response emitter, the token
    counter, the endpoint, the in-flight fetches and the call counter are
    unchanged; the request timers already armed are untouched, except
    those whose handle is in [D], which may be cleared; the only new
    timers are reconnect timers with fresh handles, armed while the
    runtime is not closing; the only promises settled are those of the
    calls in [S]; nothing is written to a transport. *)
Definition obs_allowed (closing : bool) (S : nat -> Prop) (o : Obs) : Prop :=
  match o with
  | Settle c _ => S c
  | Reconnect => closing = false
  | SetTimeout _ d ReconnectTimer =>
      closing = false /\ exists n, (1 <= n <= 10)%N /\ d = reconnectDelay n
  | SetTimeout _ _ (ApiTimeout _ _ _) | HttpPost _ _ _ _ | WsSend _ _ => False
  | _ => True
  end.

Record grow (S D : nat -> Prop) (s s' : State) : Prop := {
  g_httpUrl : c_httpUrl (client s') = c_httpUrl (client s);
  g_token : c_token (client s') = c_token (client s);
  g_emitter : responseEmitter (client s') = responseEmitter (client s);
  g_seq : wsSequence (client s') = wsSequence (client s);
  g_fetching : fetching s' = fetching s;
  g_nextCall : nextCall s' = nextCall s;
  g_closing : isClosing (runtime s) = true -> isClosing (runtime s') = true;
  g_handle : nextHandle s <= nextHandle s';
  g_old : forall h d e c act,
      h < nextHandle s -> ~ D h ->
      timers s !! h = Some (d, ApiTimeout e c act) ->
      timers s' !! h = Some (d, ApiTimeout e c act);
  g_new : forall h x, timers s' !! h = Some x ->
            timers s !! h = Some x \/
            (nextHandle s <= h < nextHandle s' /\ isClosing (runtime s) = false /\
             exists d, x = (d, ReconnectTimer));
  g_trace : exists obs, trace s' = trace s ++ obs /\
                        Forall (obs_allowed (isClosing (runtime s)) S) obs;
  g_attempts : (reconnectAttempts (runtime s) <= 10)%N ->
               (reconnectAttempts (runtime s') <= 10)%N
}.

(** No call is settled, no timer is cleared. *)
Definition none : nat -> Prop := fun _ => False.

(** The three ways [request] can go from a state [s]. *)
Inductive Requested (account : NapCatAccount) (url_ok : string -> bool)
    (who : Caller) (endpoint body : string) (now : N) (s s' : State) : Prop :=
| rq_http :
    Js.truthy (c_httpUrl (client s)) = true ->
    s' = emit_obs
           (HttpPost (nextCall s)
              (default "" (c_httpUrl (client s)) ++ endpoint)%string
              (bearer (c_token (client s))) body)
           (with_fetching (insert (nextCall s) ())
              (bump_call (with_awaiting (insert (nextCall s) who) s))) ->
    Requested account url_ok who endpoint body now s s'
| rq_ws k :
    Js.truthy (c_httpUrl (client s)) = false ->
    ws_is_open s = true ->
    c_ws (client s) = Some k ->
    s' = (let c := nextCall s in
          let h := nextHandle s in
          let e := make_echo now (wsSequence (client s)) in
          let act := Js.strip_leading_slash endpoint in
          emit_obs (WsSend k {| action := act; params := body; echo := e |})
            (with_client
               (fun cl => set_emitter
                            (responseEmitter cl ++ [(e, {| l_call := c; l_timer := h |})]) cl)
               (emit_obs (SetTimeout h 10000%Q (ApiTimeout e c act))
                  (bump_handle
                     (with_timers (insert h (10000%Q, ApiTimeout e c act))
                        (with_client (set_wsSequence (js_succ (wsSequence (client s))))
                           (bump_call (with_awaiting (insert c who) s)))))))) ->
    Requested account url_ok who endpoint body now s s'
| rq_none :
    Js.truthy (c_httpUrl (client s)) = false ->
    ws_is_open s = false ->
    s' = settle account url_ok (nextCall s) (Rejected no_transport_error)
           (bump_call (with_awaiting (insert (nextCall s) who) s)) ->
    Requested account url_ok who endpoint body now s s'.

(** What a transition does to the pending requests: nothing; or it
    issues a call; or it delivers a response frame to the listeners of its
    token; or it runs the timeout of a request; or it completes a fetch. *)
Inductive StepKind (account : NapCatAccount) (url_ok : string -> bool)
    (now : N) (ev : Event) (s s' : State) : Prop :=
| sk_quiet :
    grow none none s s' -> StepKind account url_ok now ev s s'
| sk_request s0 who endpoint body :
    grow none none s s0 ->
    s' = request account url_ok who endpoint body now s0 ->
    StepKind account url_ok now ev s s'
| sk_response k p e :
    ev = SocketEv k (SockMessage (Some p)) ->
    p_echo p = Some e ->
    listeners_of e (responseEmitter (client s)) <> [] ->
    s' = fold_left (run_listener account url_ok (p_response p))
           (listeners_of e (responseEmitter (client s)))
           (with_client (fun cl => set_emitter (removeAllListeners e (responseEmitter cl)) cl) s) ->
    StepKind account url_ok now ev s s'
| sk_timeout h d e c act :
    ev = TimerFires h ->
    timers s !! h = Some (d, ApiTimeout e c act) ->
    s' = settle account url_ok c (Rejected (timeout_error act))
           (with_client (fun cl => set_emitter (removeAllListeners e (responseEmitter cl)) cl)
              (with_timers (delete h) s)) ->
    StepKind account url_ok now ev s s'
| sk_http c r :
    ev = HttpDone c r ->
    is_Some (fetching s !! c) ->
    s' = settle account url_ok c (outcome_of_http r) (with_fetching (delete c) s) ->
    StepKind account url_ok now ev s s'.

End Predicates.

(** Whether an observation is a write to a transport. *)
Definition wire (o : Session.Obs) : bool :=
  match o with
  | Session.HttpPost _ _ _ _ | Session.WsSend _ _ => true
  | _ => false
  end.

(** An account with both endpoints and a token. *)
Definition http_account : Types.NapCatAccount :=
  {| Types.wsUrl := Some "ws://127.0.0.1:3001";
     Types.httpUrl := Some "http://127.0.0.1:3000/";
     Types.token := Some "secret"; Types.adminUins := None |}.

(** A client state with the HTTP endpoint configured and the socket
    present and open all the same. *)
Definition sample_http_state : Session.State :=
  Session.with_sockets (insert 0 {| Session.readyState := Session.OPEN; Session.listening := true |})
    (Session.with_client (Session.set_c_ws (Some 0)) (Session.init http_account)).

(** A socket-only client state with the socket open. *)
Definition sample_ws_state : Session.State :=
  Session.with_sockets (insert 0 {| Session.readyState := Session.OPEN; Session.listening := true |})
    (Session.with_client (Session.set_c_ws (Some 0)) (Session.init ws_only_account)).

(** What a transition may record about reconnection: a reconnect is run,
    or a reconnect timer armed, only while the runtime is not closing, and
    the timer's delay is that of an attempt between 1 and 10. *)
Definition reconnect_ok (closing : bool) (o : Session.Obs) : Prop :=
  match o with
  | Session.Reconnect => closing = false
  | Session.SetTimeout _ d Session.ReconnectTimer =>
      closing = false /\ exists n, (1 <= n <= 10)%N /\ d = Session.reconnectDelay n
  | _ => True
  end.


(** A successful response frame for the token [e]. *)
Definition ok_response (e d : string) : Session.Payload :=
  {| Session.p_echo := Some e; Session.p_post_type := "";
     Session.p_meta_event_type := ""; Session.p_sub_type := "";
     Session.p_response :=
       {| Types.status := "ok"; Types.retcode := 0; Types.data := d;
          Types.message := ""; Types.wording := None |} |}.

(** The runtime starts, its socket opens (the login check is call 0, over
    the socket), and the channel issues call 1 with token [api_102_1] and
    timer 2. *)
Definition one_call_pending : list (N * Session.Event) :=
  [(100%N, Session.Start); (101%N, Session.SocketEv 0 Session.SockOpen);
   (102%N, Session.Call "/send_msg" "{}")].

Definition state_one_call_pending : Session.State :=
  Session.run ws_only_account accept_url one_call_pending (Session.init ws_only_account).

(** Decimal digits, and strings made of them. *)
Definition is_digit (c : ascii) : bool :=
  let n := nat_of_ascii c in Nat.leb 48 n && Nat.leb n 57.

Fixpoint all_digits (s : string) : bool :=
  match s with
  | EmptyString => true
  | String c s' => is_digit c && all_digits s'
  end.

(** A token issued from a counter value below [bound]. *)
Definition token_below (bound : N) (e : string) : Prop :=
  exists now seq, e = Session.make_echo now seq /\ (seq < bound)%N.

(** The pending tokens were all issued from earlier values of the counter
    and no two of them are equal. *)
Definition tokens_fresh (bound : N) (l : list (string * Session.Listener)) : Prop :=
  Forall (token_below bound) (map fst l) /\ NoDup (map fst l).

(** The invariant on tokens: while the counter is below 2^53, where
    [wsSequence++] is exact, the pending tokens come from earlier counter
    values and are pairwise distinct. *)
Definition tok_inv (s : Session.State) : Prop :=
  (Session.wsSequence (Session.client s) < 2 ^ 53)%N ->
  tokens_fresh (Session.wsSequence (Session.client s))
    (Session.responseEmitter (Session.client s)).

Section RequestPredicates.
Import Types Session.

(** Bounds kept by every transition: listeners, timers and fetches only
    mention calls and handles already allocated, no call still to be
    allocated has been settled, and (while the counter is exact) the
    tokens held by the request timers come from earlier counter values. *)
Record wf (s : State) : Prop := {
  wf_listener : forall e l, In (e, l) (responseEmitter (client s)) ->
                            l_call l < nextCall s /\ l_timer l < nextHandle s;
  wf_timer : forall h x, timers s !! h = Some x -> h < nextHandle s;
  wf_timer_call : forall h d e c act,
      timers s !! h = Some (d, ApiTimeout e c act) -> c < nextCall s;
  wf_fetch : forall c x, fetching s !! c = Some x -> c < nextCall s;
  wf_settled : forall c, nextCall s <= c -> settlements c s = [];
  wf_timer_token : (wsSequence (client s) < 2 ^ 53)%N ->
      forall h d e c act, timers s !! h = Some (d, ApiTimeout e c act) ->
                          token_below (wsSequence (client s)) e
}.

(** Call [c] is pending on the socket: its listener is the only one under
    the token [e], its timeout is armed under the handle [h] for 10000 ms,
    nothing else refers to the call or to the token, and its promise has
    not been settled. *)
Record live (c h : nat) (e act : string) (s : State) : Prop := {
  lv_timer : timers s !! h = Some (10000%Q, ApiTimeout e c act);
  lv_listener : listeners_of e (responseEmitter (client s)) =
                  [{| l_call := c; l_timer := h |}];
  lv_others : forall e' l', In (e', l') (responseEmitter (client s)) -> e' <> e ->
                            l_call l' <> c /\ l_timer l' <> h;
  lv_timers : forall h' d e' c' act',
      timers s !! h' = Some (d, ApiTimeout e' c' act') -> h' <> h -> c' <> c /\ e' <> e;
  lv_fetch : fetching s !! c = None;
  lv_call : c < nextCall s;
  lv_handle : h < nextHandle s;
  lv_unsettled : settlements c s = [];
  lv_token : exists now seq, e = make_echo now seq /\ (seq < wsSequence (client s))%N
}.

(** Call [c] is over: no listener, timer or fetch refers to it any more,
    and its token [e] is not in the table and cannot be issued again. *)
Record dormant (c : nat) (e : string) (s : State) : Prop := {
  dm_listener : forall e' l', In (e', l') (responseEmitter (client s)) ->
                              l_call l' <> c /\ e' <> e;
  dm_timers : forall h' d e' c' act',
      timers s !! h' = Some (d, ApiTimeout e' c' act') -> c' <> c;
  dm_fetch : fetching s !! c = None;
  dm_call : c < nextCall s;
  dm_token : exists now seq, e = make_echo now seq /\ (seq < wsSequence (client s))%N
}.

(** Whether an event answers the request with token [e] and timer [h]:
    its timeout fires, or a frame carrying the token arrives. *)
Definition answers (e : string) (h : nat) (ev : Event) : bool :=
  match ev with
  | TimerFires h' => Nat.eqb h' h
  | SocketEv _ (SockMessage (Some p)) =>
      match p_echo p with
      | Some e' => String.eqb e' e
      | None => false
      end
  | _ => false
  end.

Definition unanswered (e : string) (h : nat) (es : list (N * Event)) : bool :=
  forallb (fun ne => negb (answers e h (snd ne))) es.

(** Whether the socket [k] still hands frames to the runtime. *)
Definition delivers (s : State) (k : nat) : bool :=
  match sockets s !! k with
  | Some sk =>
      listening sk &&
      match readyState sk with OPEN | CLOSING => true | _ => false end
  | None => false
  end.

End RequestPredicates.

(** The runtime starts and its socket opens: the login check (call 0,
    token [api_101_0], timer 1) is sent over the socket. *)
Definition socket_opened : list (N * Session.Event) :=
  [(100%N, Session.Start); (101%N, Session.SocketEv 0 Session.SockOpen)].

(** The response to the login check arrives. *)
Definition login_answered : list (N * Session.Event) :=
  [(103%N, Session.SocketEv 0
             (Session.SockMessage (Some (ok_response "api_101_0" "{}"))))].

(** Two frames carrying the token [api_102_1]. *)
Definition late_frames : list (N * Session.Event) :=
  [(10200%N, Session.SocketEv 0
               (Session.SockMessage (Some (ok_response "api_102_1" "{}"))));
   (10201%N, Session.SocketEv 0
               (Session.SockMessage (Some (ok_response "api_102_1" "{}"))))].

(** ** [channel.ts]: targets and the outbound adapter *)

Module Outbound.
Import Types Channel.

(** The result of [parseInt]: [NaN] or an integer (taken exactly; the
    identities handled are far below 2^53). *)
Inductive JsInt :=
| NaN
| Int (z : Z).

(** The integers that a JavaScript number holds exactly and that
    [String] and [parseInt] render and read digit by digit. *)
Definition exact (z : Z) : Prop := (- 2 ^ 53 <= z <= 2 ^ 53)%Z.

Definition digit_value (c : ascii) : option N :=
  if is_digit c then Some (N.of_nat (nat_of_ascii c) - 48)%N else None.

(** The value of the decimal digits at the head of [s], continuing [acc]. *)
Fixpoint parse_digits (acc : N) (s : string) : N :=
  match s with
  | EmptyString => acc
  | String c s' =>
      match digit_value c with
      | Some d => parse_digits (10 * acc + d)%N s'
      | None => acc
      end
  end.

Definition has_digit (s : string) : bool :=
  match s with
  | EmptyString => false
  | String c _ => is_digit c
  end.

Definition parse_unsigned (s : string) : option N :=
  if has_digit s then Some (parse_digits 0 s) else None.

(** [parseInt(s, 10)]: leading white space is skipped, one sign is
    accepted, the longest run of digits is read and the rest is ignored;
    with no digit the result is [NaN]. *)
Definition parseInt (s : string) : JsInt :=
  match Js.trimStart s with
  | String c s' =>
      if Ascii.eqb c "-" then
        match parse_unsigned s' with
        | Some n => Int (- Z.of_N n)
        | None => NaN
        end
      else if Ascii.eqb c "+" then
        match parse_unsigned s' with
        | Some n => Int (Z.of_N n)
        | None => NaN
        end
      else
        match parse_unsigned (String c s') with
        | Some n => Int (Z.of_N n)
        | None => NaN
        end
  | EmptyString => NaN
  end.

(** [s.slice(n)] *)
Fixpoint string_drop (n : nat) (s : string) : string :=
  match n, s with
  | O, _ => s
  | S n', String _ s' => string_drop n' s'
  | S _, EmptyString => EmptyString
  end.

(** [s.replace(pat, '')] for a string pattern: the first occurrence of
    [pat] is removed. *)
Fixpoint replace_first (s pat : string) : string :=
  if Js.startsWith s pat then string_drop (String.length pat) s
  else
    match s with
    | EmptyString => EmptyString
    | String c s' => String c (replace_first s' pat)
    end.

Definition plugin_prefix : string := "napcat-channel:".

Definition invalid_target_error (target : string) : string :=
  "Invalid target format: " ++ target ++ " (expected group:ID or private:ID)".

(** [parseTarget]: the error thrown, or the type and the id. *)
Definition parseTarget (target : string) : string + MessageType * JsInt :=
  let target :=
    if Js.startsWith target plugin_prefix
    then string_drop (String.length plugin_prefix) target
    else target in
  if Js.startsWith target "group:"
  then inr (group, parseInt (replace_first target "group:"))
  else if Js.startsWith target "private:"
  then inr (private, parseInt (replace_first target "private:"))
  else inl (invalid_target_error target).

(** The parameters handed to [client.sendMessage] by [sendText] and
    [sendMedia]: the id goes under [group_id] or [user_id] by the type. *)
Record OutboundParams := {
  o_message_type : MessageType;
  o_user_id : option JsInt;
  o_group_id : option JsInt;
  o_message : SendBody
}.

Definition outbound_params (ty : MessageType) (id : JsInt) (body : SendBody) : OutboundParams :=
  match ty with
  | group =>
      {| o_message_type := group; o_user_id := None; o_group_id := Some id;
         o_message := body |}
  | private =>
      {| o_message_type := private; o_user_id := Some id; o_group_id := None;
         o_message := body |}
  end.

(** [outbound.sendText], from [parseTarget] on (the account is resolved
    before). *)
Definition sendText (to text : string) : string + OutboundParams :=
  match parseTarget to with
  | inl err => inl err
  | inr (ty, id) => inr (outbound_params ty id (PlainText (Some text)))
  end.

(** [outbound.sendMedia], from [parseTarget] on.  The file is resolved by
    the same statements as in [deliver]; the text, when there is one, is
    put first followed by a space. *)
Definition sendMedia (fs : FileSystem) (to : string) (text : option string)
    (mediaUrl : string) : string + OutboundParams :=
  match parseTarget to with
  | inl err => inl err
  | inr (ty, id) =>
      let image := image_segment (resolve_file fs mediaUrl) in
      let message :=
        if Js.truthy text
        then [text_segment (default "" text ++ " "); image]
        else [image] in
      inr (outbound_params ty id (SegmentArray message))
  end.

(** The [file] values of the image segments of a message body. *)
Definition image_files (body : SendBody) : list JsVal :=
  match body with
  | PlainText _ => []
  | SegmentArray l =>
      map (fun seg => field seg "file")
        (List.filter (fun seg => String.eqb (type seg) "image") l)
  end.

End Outbound.

(** ** [channel.ts]: accounts in the configuration *)

Module Config.
Import Types.

(** [napConfig.adminUins]: an array, or a single identity. *)
Inductive AdminRaw :=
| AdminList (l : list Z)
| AdminOne (z : Z).

(** [cfg.channels['napcat-channel']].  [n_accounts] lists the entries of
    the [accounts] object in key order (own properties only); the scalar
    fields are strings when present. *)
Record NapConfig := {
  n_accounts : option (list (string * NapCatAccount));
  n_wsUrl : option string;
  n_httpUrl : option string;
  n_token : option string;
  n_adminUins : option AdminRaw
}.

Definition DEFAULT_ACCOUNT_ID : string := "default".

(** [accounts[accountId]] *)
Fixpoint account_entry (l : list (string * NapCatAccount)) (accountId : string)
    : option NapCatAccount :=
  match l with
  | [] => None
  | (k, a) :: l' => if String.eqb k accountId then Some a else account_entry l' accountId
  end.

Definition keep_truthy (o : option string) : option string :=
  if Js.truthy o then o else None.

(** [adminUins ? (Array.isArray(adminUins) ? adminUins : [adminUins]) : undefined] *)
Definition admin_list (o : option AdminRaw) : option (list Z) :=
  match o with
  | Some (AdminList l) => Some l
  | Some (AdminOne z) => if Z.eqb z 0 then None else Some [z]
  | None => None
  end.

Definition has_url (nc : NapConfig) : bool :=
  Js.truthy (n_wsUrl nc) || Js.truthy (n_httpUrl nc).

Definition top_level_account (nc : NapConfig) : NapCatAccount :=
  {| wsUrl := keep_truthy (n_wsUrl nc);
     httpUrl := keep_truthy (n_httpUrl nc);
     token := keep_truthy (n_token nc);
     adminUins := admin_list (n_adminUins nc) |}.

(** [resolveNapCatAccount] *)
Definition resolveNapCatAccount (cfg : option NapConfig) (accountId : string)
    : option NapCatAccount :=
  match cfg with
  | None => None
  | Some nc =>
      match from_option (fun l => account_entry l accountId) None (n_accounts nc) with
      | Some a => Some a
      | None =>
          if String.eqb accountId DEFAULT_ACCOUNT_ID && has_url nc
          then Some (top_level_account nc)
          else None
      end
  end.

(** [listNapCatAccountIds] *)
Definition listNapCatAccountIds (cfg : option NapConfig) : list string :=
  match cfg with
  | None => []
  | Some nc =>
      match n_accounts nc with
      | Some l => map fst l
      | None => if has_url nc then [DEFAULT_ACCOUNT_ID] else []
      end
  end.

(** [config.isConfigured] *)
Definition isConfigured (account : option NapCatAccount) : bool :=
  match account with
  | Some a => Js.truthy (wsUrl a) || Js.truthy (httpUrl a)
  | None => false
  end.

(** [getOrCreateApiClient] on the [apiClients] map. *)
Definition getOrCreateApiClient (accountId : string) (config : NapCatAccount)
    (apiClients : gmap string Session.NapCatApiClient)
    : gmap string Session.NapCatApiClient * Session.NapCatApiClient :=
  match apiClients !! accountId with
  | Some client => (apiClients, client)
  | None =>
      let client := Session.new_client config in
      (<[accountId := client]> apiClients, client)
  end.

(** What the function returned by [startAccount] does to [apiClients]
    when the account is running. *)
Definition release_client (accountId : string)
    (apiClients : gmap string Session.NapCatApiClient)
    : gmap string Session.NapCatApiClient :=
  delete accountId apiClients.

End Config.

(** A group message in string form that mentions the bot. *)
Definition sample_string_event : Channel.OB11MessageEvent :=
  {| Channel.time := 1700000000; Channel.self_id := 42;
     Channel.message_type := Channel.group; Channel.message_id := 9;
     Channel.user_id := 1001; Channel.message := Channel.Text "hey [CQ:at,qq=42] there";
     Channel.nickname := "alice"; Channel.group_id := Some 555%Z |}.

(** A private message made of one image segment. *)
Definition sample_image_event : Channel.OB11MessageEvent :=
  {| Channel.time := 1700000000; Channel.self_id := 42;
     Channel.message_type := Channel.private; Channel.message_id := 10;
     Channel.user_id := 1001;
     Channel.message :=
       Channel.Segments
         [{| Channel.type := "image";
             Channel.data := {[ "url" := Channel.JString "http://h/a.png";
                                "file" := Channel.JString "a.png" ]} |}];
     Channel.nickname := ""; Channel.group_id := None |}.

(** A configuration with an [accounts] object holding one account and
    top-level endpoints besides, the allowlist given as one number. *)
Definition sample_config : Config.NapConfig :=
  {| Config.n_accounts := Some [("work", ws_only_account)];
     Config.n_wsUrl := Some "ws://127.0.0.1:3001";
     Config.n_httpUrl := None;
     Config.n_token := None;
     Config.n_adminUins := Some (Config.AdminOne 1001) |}.

(** A configuration with no [accounts] object. *)
Definition sample_flat_config : Config.NapConfig :=
  {| Config.n_accounts := None;
     Config.n_wsUrl := Some "ws://127.0.0.1:3001";
     Config.n_httpUrl := None;
     Config.n_token := None;
     Config.n_adminUins := Some (Config.AdminOne 1001) |}.

(** The parts of the state that only a socket brings to life are empty. *)
Definition socketless (s : Session.State) : Prop :=
  Session.sockets s = ∅ /\ Session.timers s = ∅ /\
  Session.c_ws (Session.client s) = None /\
  Session.r_ws (Session.runtime s) = None /\
  Session.responseEmitter (Session.client s) = [].

(** An account with an HTTP endpoint only. *)
Definition http_only_account : Types.NapCatAccount :=
  {| Types.wsUrl := None; Types.httpUrl := Some "http://127.0.0.1:3000";
     Types.token := None; Types.adminUins := None |}.

(** An account with no endpoint at all. *)
Definition unconfigured_account : Types.NapCatAccount :=
  {| Types.wsUrl := None; Types.httpUrl := None;
     Types.token := None; Types.adminUins := None |}.

(** The runtime starts, its login check fails, a call is made, and a
    timer and a socket event are delivered all the same. *)
Definition http_only_events : list (N * Session.Event) :=
  [(0%N, Session.Start);
   (1%N, Session.HttpDone 0 (Session.NetworkError "ECONNREFUSED"));
   (2%N, Session.Call "/send_msg" "{}");
   (3%N, Session.TimerFires 0);
   (4%N, Session.SocketEv 0 Session.SockOpen)].

(** The payloads handed to [config.onMessage] along a trace. *)
Definition messages_of (t : list Session.Obs) : list Session.Payload :=
  omap (fun o => match o with Session.OnMessage p => Some p | _ => None end) t.

(** What an event hands to [config.onMessage] in the state [s]: the
    payload of a frame that carries no [echo] and whose [post_type] is
    [message], when the socket still delivers frames. *)
Definition handed (s : Session.State) (ev : Session.Event) : list Session.Payload :=
  match ev with
  | Session.SocketEv k (Session.SockMessage (Some p)) =>
      if delivers s k && negb (Js.truthy (Session.p_echo p)) &&
         String.eqb (Session.p_post_type p) "message"
      then [p] else []
  | _ => []
  end.

(** An event frame announcing a group message. *)
Definition message_frame : Session.Payload :=
  {| Session.p_echo := None; Session.p_post_type := "message";
     Session.p_meta_event_type := ""; Session.p_sub_type := "";
     Session.p_response :=
       {| Types.status := ""; Types.retcode := 0; Types.data := "";
          Types.message := "hello"; Types.wording := None |} |}.

(** The runtime starts, its socket opens, the response to the login check
    arrives and then an event frame. *)
Definition frames_received : list (N * Session.Event) :=
  [(100%N, Session.Start); (101%N, Session.SocketEv 0 Session.SockOpen);
   (103%N, Session.SocketEv 0
             (Session.SockMessage (Some (ok_response "api_101_0" "{}"))));
   (104%N, Session.SocketEv 0 (Session.SockMessage (Some message_frame)))].

Section SettlementPredicates.
Import Types Session.

(** How the three things that can settle a call hang together: every
    pending listener has its own timeout armed, under its handle, with
    its token and its call; no two listeners and no two timeouts are for
    the same call; a call being fetched has no timeout; and a call that
    has been settled has neither fetch nor timeout left, and has been
    settled once. *)
Record tidy (s : State) : Prop := {
  td_armed : forall e l, In (e, l) (responseEmitter (client s)) ->
      exists act, timers s !! l_timer l = Some (10000%Q, ApiTimeout e (l_call l) act);
  td_calls : NoDup (map (fun kl => l_call (snd kl)) (responseEmitter (client s)));
  td_timer : forall h h' d d' e e' c act act',
      timers s !! h = Some (d, ApiTimeout e c act) ->
      timers s !! h' = Some (d', ApiTimeout e' c act') -> h = h';
  td_fetch : forall c h d e act,
      is_Some (fetching s !! c) -> timers s !! h <> Some (d, ApiTimeout e c act);
  td_settled : forall c, settlements c s <> [] ->
      fetching s !! c = None /\
      forall h d e act, timers s !! h <> Some (d, ApiTimeout e c act);
  td_once : forall c, length (settlements c s) <= 1
}.

End SettlementPredicates.


(** The sockets that exist are left as they are; new ones get new
    handles. *)
Definition keeps_sockets (s s' : Session.State) : Prop :=
  Session.nextHandle s <= Session.nextHandle s' /\
  forall k, k < Session.nextHandle s -> Session.sockets s' !! k = Session.sockets s !! k.

(** After the close of socket 0: the reconnect timer (handle 3) fires,
    the runtime connects again (socket 4) and the new socket opens. *)
Definition reconnected : list (N * Session.Event) :=
  [(3105%N, Session.TimerFires 3); (3106%N, Session.SocketEv 4 Session.SockOpen)].

(** A successful HTTP response whose data is [null]. *)
Definition null_response : Types.OB11Response :=
  {| Types.status := "ok"; Types.retcode := 0; Types.data := "null";
     Types.message := ""; Types.wording := None |}.

(** A private message whose text is U+00A0 and U+3000. *)
Definition sample_blank_event : Channel.OB11MessageEvent :=
  {| Channel.time := 1700000000; Channel.self_id := 42;
     Channel.message_type := Channel.private; Channel.message_id := 11;
     Channel.user_id := 1001;
     Channel.message :=
       Channel.Text (String "194" (String "160" (String "227" (String "128" (String "128" "")))));
     Channel.nickname := "alice"; Channel.group_id := None |}.

(** * Properties *)

(** ** The primitives on concrete inputs *)

Example trim_spaces : Js.trim "  hello  world  " = "hello  world".
Proof. reflexivity. Qed.

(** U+3000 and U+00A0 before, U+FEFF and U+2028 after. *)
Example trim_unicode_spaces :
  Js.trim (String "227" (String "128" (String "128" (String "194" (String "160"
             ("hi there" ++
              String "239" (String "187" (String "191"
                (String "226" (String "128" (String "168" "")))))))))))
  = "hi there".
Proof. reflexivity. Qed.

(** Bytes that only look like the end of a white-space character are
    kept: U+4E00 is E4 B8 80. *)
Example trim_keeps_other_characters :
  Js.trim (String "228" (String "184" (String "128" " "))) =
  String "228" (String "184" (String "128" "")).
Proof. reflexivity. Qed.

Example strip_one_slash : Js.strip_trailing_slash "http://127.0.0.1:3000/" = "http://127.0.0.1:3000".
Proof. reflexivity. Qed.

Example strip_only_slash : Js.strip_trailing_slash "/" = "".
Proof. reflexivity. Qed.

Example action_of_endpoint : Js.strip_leading_slash "/send_group_msg" = "send_group_msg".
Proof. reflexivity. Qed.

Example includes_marker :
  Js.includes "hi [CQ:at,qq=42] there" (Channel.mention_marker 42) = true.
Proof. reflexivity. Qed.

Example echo_format : Session.make_echo 1700000000000 17 = "api_1700000000000_17".
Proof. reflexivity. Qed.

Example counter_saturates : Session.js_succ (2 ^ 53) = (2 ^ 53)%N.
Proof. reflexivity. Qed.

Example base64_three_bytes : Channel.base64 [77; 97; 110]%N = "TWFu".
Proof. reflexivity. Qed.

Example base64_padding :
  Channel.base64 [77; 97]%N = "TWE=" /\ Channel.base64 [77]%N = "TQ==".
Proof. split; reflexivity. Qed.

Example api_error_text :
  Session.api_error
    {| Types.status := "failed"; Types.retcode := 1404; Types.data := "";
       Types.message := ""; Types.wording := Some "not found" |} =
    "NapCat API error: [1404] not found".
Proof. reflexivity. Qed.

Example eighth_delay_uncapped_ninth_capped :
  (Session.reconnectDelay 8 == 1640250 # 32)%Q /\ (Session.reconnectDelay 9 == 60000)%Q.
Proof. split; reflexivity. Qed.

(** ** Strings *)

Lemma startsWith_cons a b s p :
  Js.startsWith (String b s) (String a p) = Ascii.eqb a b && Js.startsWith s p.
Proof. reflexivity. Qed.

Lemma all_digits_uint d : all_digits (NilEmpty.string_of_uint d) = true.
Proof. induction d; simpl; auto. Qed.

Lemma all_digits_N n : all_digits (Js.string_of_N n) = true.
Proof.
  unfold Js.string_of_N, NilZero.string_of_uint.
  destruct (N.to_uint n); try reflexivity; apply (all_digits_uint (_ _)).
Qed.

Lemma string_of_N_inj n n' : Js.string_of_N n = Js.string_of_N n' -> n = n'.
Proof.
  unfold Js.string_of_N. intros H.
  apply DecimalN.Unsigned.to_uint_inj.
  assert (Hnn : forall k, N.to_uint k <> Decimal.Nil).
  { intros [|q]; [discriminate | apply DecimalPos.Unsigned.to_uint_nonnil]. }
  apply (f_equal NilZero.uint_of_string) in H.
  rewrite !NilZero.usu in H by apply Hnn. congruence.
Qed.

(** Two digit strings followed by an underscore and a tail: equal wholes
    have equal parts. *)
Lemma digits_underscore_inj a a' b b' :
  all_digits a = true -> all_digits a' = true ->
  (a ++ String "_" b)%string = (a' ++ String "_" b')%string -> a = a' /\ b = b'.
Proof.
  revert a'. induction a as [|c a IH]; intros [|c' a'] Ha Ha' H; simpl in *.
  - injection H as ->. auto.
  - injection H as <- _. discriminate.
  - injection H as -> _. discriminate.
  - injection H as -> H.
    apply andb_true_iff in Ha as [_ Ha]. apply andb_true_iff in Ha' as [_ Ha'].
    destruct (IH a' Ha Ha' H) as [-> ->]. auto.
Qed.

Lemma make_echo_inj now seq now' seq' :
  Session.make_echo now seq = Session.make_echo now' seq' -> now = now' /\ seq = seq'.
Proof.
  unfold Session.make_echo. intros H.
  injection H as H.
  apply digits_underscore_inj in H; try apply all_digits_N.
  destruct H as [H1 H2]. split; by apply string_of_N_inj.
Qed.

(** ** The inbound handler *)

Section Inbound.
Import Types Channel.

Lemma field_at_segment qq : field (at_segment qq) "qq" = qq.
Proof. unfold field, at_segment; simpl. by rewrite lookup_singleton_eq. Qed.

Lemma private_passes_mention_gate account m :
  message_type m = private -> onMessage account m <> IgnoredNotMentioned.
Proof.
  intros Hp. unfold onMessage, addressed. rewrite Hp. simpl.
  destruct (admin_allows account m); simpl; [|discriminate].
  destruct (String.eqb _ _); discriminate.
Qed.

Lemma admin_allows_no_list account m :
  admin_allows (without_allowlist account) m = true.
Proof. reflexivity. Qed.

End Inbound.

(** C6.  A group message whose segments are text "hello ", a mention of
    the bot's own identity, and text " world" passes the mention gate and
    its extracted text is "hello  world": the text segments are joined in
    input order and the mention contributes nothing; when the admin gate
    lets the sender through, the message is dispatched with that text.  A
    private message always passes the mention gate. *)
Theorem C6_mention_then_text :
  (forall (account : Types.NapCatAccount) (m : Channel.OB11MessageEvent) (qq : Channel.JsVal),
      Channel.message_type m = Channel.group ->
      Channel.message m =
        Channel.Segments [Channel.text_segment "hello "; Channel.at_segment qq;
                          Channel.text_segment " world"] ->
      Channel.to_string qq = Js.string_of_Z (Channel.self_id m) ->
      Channel.addressed m = true /\
      Channel.extract_text m = "hello  world" /\
      Channel.normalize_text m = "hello  world" /\
      (Channel.admin_allows account m = true ->
       Channel.onMessage account m =
         Channel.Dispatched (Channel.inbound_of m "hello  world"))) /\
  (forall m : Channel.OB11MessageEvent,
      Channel.message_type m = Channel.private -> Channel.addressed m = true).
Proof.
  split.
  - intros account m qq Hg Hm Hqq.
    assert (Ha : Channel.addressed m = true).
    { unfold Channel.addressed, Channel.isMentioned. rewrite Hg, Hm.
      change (existsb ?f [?a; ?b; ?c]) with (f a || (f b || (f c || false))).
      cbv beta. rewrite field_at_segment, Hqq.
      simpl. by rewrite String.eqb_refl. }
    assert (Ht : Channel.extract_text m = "hello  world").
    { unfold Channel.extract_text. rewrite Hm. vm_compute. reflexivity. }
    assert (Hn : Channel.normalize_text m = "hello  world").
    { unfold Channel.normalize_text. rewrite Ht.
      unfold Channel.extract_media. rewrite Hm. vm_compute. reflexivity. }
    repeat split; try assumption.
    intros Hadm. unfold Channel.onMessage. rewrite Hadm, Ha, Hn. reflexivity.
  - intros m Hp. unfold Channel.addressed. by rewrite Hp.
Qed.

Lemma C6_mention_then_text_witness :
  (Channel.addressed sample_group_event = true /\
   Channel.extract_text sample_group_event = "hello  world" /\
   Channel.normalize_text sample_group_event = "hello  world" /\
   (Channel.admin_allows ws_only_account sample_group_event = true ->
    Channel.onMessage ws_only_account sample_group_event =
      Channel.Dispatched (Channel.inbound_of sample_group_event "hello  world"))) /\
  Channel.addressed sample_private_event = true.
Proof.
  split.
  - apply (proj1 C6_mention_then_text ws_only_account sample_group_event (Channel.JString "42"));
      reflexivity.
  - apply (proj2 C6_mention_then_text sample_private_event). reflexivity.
Defined.

(** C10.  The admin filter is applied exactly when [adminUins] is a
    non-empty list.  With [adminUins] equal to the empty list every sender
    passes the gate and every message is handled exactly as it is for the
    same account with no [adminUins] at all. *)
Theorem C10_empty_allowlist_is_no_allowlist :
  (forall account : Types.NapCatAccount,
      Channel.admin_filter_applies account = true <->
      exists u l, Types.adminUins account = Some (u :: l)) /\
  (forall (account : Types.NapCatAccount) (m : Channel.OB11MessageEvent),
      Types.adminUins account = Some [] ->
      Channel.admin_allows account m = true /\
      Channel.onMessage account m <> Channel.IgnoredNonAdmin /\
      Channel.onMessage account m =
        Channel.onMessage (Channel.without_allowlist account) m).
Proof.
  split.
  - intros account. unfold Channel.admin_filter_applies.
    destruct (Types.adminUins account) as [[|u l]|]; simpl; split;
      try discriminate; eauto; intros (u' & l' & H); discriminate.
  - intros account m Hempty.
    assert (Ha : Channel.admin_allows account m = true).
    { unfold Channel.admin_allows, Channel.admin_filter_applies.
      by rewrite Hempty. }
    unfold Channel.onMessage.
    rewrite Ha, admin_allows_no_list. simpl.
    repeat split; try reflexivity.
    destruct (Channel.addressed m); simpl; [|discriminate].
    destruct (String.eqb _ _); discriminate.
Qed.

Lemma C10_empty_allowlist_is_no_allowlist_witness :
  Channel.admin_allows empty_allowlist_account sample_group_event = true /\
  Channel.onMessage empty_allowlist_account sample_group_event <> Channel.IgnoredNonAdmin /\
  Channel.onMessage empty_allowlist_account sample_group_event =
    Channel.onMessage (Channel.without_allowlist empty_allowlist_account) sample_group_event.
Proof.
  apply (proj2 C10_empty_allowlist_is_no_allowlist empty_allowlist_account sample_group_event).
  reflexivity.
Defined.

(** ** The reply delivery *)

Section Delivery.
Import Types Channel.

Variable fs : FileSystem.
Variable m : OB11MessageEvent.

Lemma resolve_missing_path item :
  Js.startsWith item "/" = true -> existsSync fs item = false ->
  resolve_file fs item = "file://" ++ item.
Proof.
  intros Hs He. unfold resolve_file. rewrite Hs, He. simpl.
  destruct item as [|c item]; [discriminate|].
  rewrite startsWith_cons in Hs. apply andb_true_iff in Hs as [Hc _].
  apply Ascii.eqb_eq in Hc. subst c. reflexivity.
Qed.

Lemma is_duplicate_media lastReply replyText replyMedia now :
  replyMedia <> [] -> is_duplicate lastReply replyText replyMedia now = false.
Proof. destruct replyMedia; [congruence|reflexivity]. Qed.

Lemma deliver_decide_media recent now p :
  replyMedia_of p <> [] ->
  deliver_decide fs recent m now p =
    SendNow (send_params m (messageBody_of fs (text p) (replyMedia_of p)))
      (messageKey m)
      {| r_text := record_text (text p); r_timestamp := now |}.
Proof.
  intros Hm. unfold deliver_decide.
  rewrite is_duplicate_media by assumption.
  destruct (replyMedia_of p); [congruence|].
  simpl. by rewrite andb_false_r.
Qed.

Lemma deliver_decide_text recent now p t :
  replyMedia_of p = [] -> text p = Some t -> t <> "" ->
  deliver_decide fs recent m now p =
    if is_duplicate (recent !! messageKey m) (Some t) [] now then Suppressed
    else SendNow (send_params m (PlainText (Some t))) (messageKey m)
           {| r_text := t; r_timestamp := now |}.
Proof.
  intros Hm Ht Hne. unfold deliver_decide, record_text. rewrite Hm, Ht. simpl.
  apply String.eqb_neq in Hne. rewrite Hne. simpl. reflexivity.
Qed.

Lemma record_text_other p t :
  t <> "" -> text p <> Some t -> record_text (text p) <> t.
Proof.
  intros Hne Hp. unfold record_text.
  destruct (text p) as [t1|]; simpl; [|congruence].
  destruct (String.eqb_spec t1 ""); simpl; congruence.
Qed.

Lemma record_text_same t : t <> "" -> record_text (Some t) = t.
Proof.
  intros Hne. unfold record_text. simpl.
  apply String.eqb_neq in Hne. by rewrite Hne.
Qed.

(** A successful, non-suppressed run writes its record under the key. *)
Lemma deliver_records recent now p sp key rec :
  deliver_decide fs recent m now p = SendNow sp key rec ->
  key = messageKey m /\
  rec = {| r_text := record_text (text p); r_timestamp := now |} /\
  deliver fs m true now p recent = (<[messageKey m := rec]> recent, [sp]).
Proof.
  intros Hd. unfold deliver. rewrite Hd.
  unfold deliver_decide in Hd.
  destruct (_ && _); [discriminate|].
  destruct (is_duplicate _ _ _ _); [discriminate|].
  injection Hd as <- <- <-. auto.
Qed.

(** The second of two runs, the first having sent successfully. *)
Lemma second_after_first recent now1 p1 sp key rec ok2 now2 p2 :
  deliver_decide fs recent m now1 p1 = SendNow sp key rec ->
  snd (deliver_twice fs m true now1 p1 ok2 now2 p2 recent) =
    sp :: snd (deliver fs m ok2 now2 p2
                 (<[messageKey m := {| r_text := record_text (text p1);
                                       r_timestamp := now1 |}]> recent)).
Proof.
  intros Hd. destruct (deliver_records _ _ _ _ _ _ Hd) as (_ & -> & Hdel).
  unfold deliver_twice. rewrite Hdel. reflexivity.
Qed.

End Delivery.

(** C9 as stated fails: for the single media item "/tmp/missing.png", a
    path that does not exist, the send action is issued but the image
    segment carries "file:///tmp/missing.png", not the item unchanged. *)
Lemma C9_counterexample :
  snd (Channel.deliver empty_fs sample_group_event true 1000
         (media_reply ["/tmp/missing.png"]) ∅) =
    [Channel.send_params sample_group_event
       (Channel.SegmentArray [Channel.image_segment "file:///tmp/missing.png"])] /\
  Channel.resolve_file empty_fs "/tmp/missing.png" <> "/tmp/missing.png".
Proof. split; [vm_compute; reflexivity | vm_compute; discriminate]. Qed.

(** C9, amended.  A reply whose single media item is an absolute path
    ([/...]) that does not exist locally is sent all the same: exactly one
    send action is issued, whatever the dedup table holds, and its body is
    the optional text segment followed by one image segment whose file is
    the path prefixed with [file://]. *)
Theorem C9_missing_path_sent_as_file_url
    (fs : Channel.FileSystem) (m : Channel.OB11MessageEvent) (send_ok : bool)
    (now : Z) (p : Channel.ReplyPayload) (recent : gmap string Channel.Reply)
    (item : string) :
  Channel.replyMedia_of p = [item] ->
  Js.startsWith item "/" = true ->
  Channel.existsSync fs item = false ->
  snd (Channel.deliver fs m send_ok now p recent) =
    [Channel.send_params m
       (Channel.SegmentArray
          ((if Js.truthy (Channel.text p)
            then [Channel.text_segment (default "" (Channel.text p))] else [])
           ++ [Channel.image_segment ("file://" ++ item)]))].
Proof.
  intros Hm Hs He. unfold Channel.deliver.
  rewrite deliver_decide_media by (rewrite Hm; discriminate).
  rewrite Hm. unfold Channel.messageBody_of. simpl.
  by rewrite (resolve_missing_path fs item Hs He).
Qed.

Lemma C9_missing_path_sent_as_file_url_witness :
  snd (Channel.deliver empty_fs sample_group_event true 1000
         (media_reply ["/tmp/missing.png"]) ∅) =
    [Channel.send_params sample_group_event
       (Channel.SegmentArray
          ([] ++ [Channel.image_segment ("file://" ++ "/tmp/missing.png")]))].
Proof.
  apply (C9_missing_path_sent_as_file_url empty_fs sample_group_event true 1000
           (media_reply ["/tmp/missing.png"]) ∅ "/tmp/missing.png");
    reflexivity.
Defined.

(** C3 as stated fails: the first reply carries media and the text "hi",
    the second, one second later, is the text "hi" alone; the second is
    suppressed, so one send action fires, not two. *)
Lemma C3_counterexample :
  snd (Channel.deliver_twice empty_fs sample_group_event
         true 1000 (reply "hi" ["https://example.org/a.png"])
         true 2000 (reply "hi" []) ∅) =
    [Channel.send_params sample_group_event
       (Channel.SegmentArray [Channel.text_segment "hi";
                              Channel.image_segment "https://example.org/a.png"])].
Proof. vm_compute. reflexivity. Qed.

(** C3, amended.  Two deliveries for the same inbound message, the second
    starting after the first has finished; the first is not suppressed and
    its send succeeds, so it fires [sp1] and overwrites the record of the
    key with its text (or [''])  and its start time.  Then:
    - a second reply with no media and the same non-empty text, started
      less than 5000 ms after the first, is suppressed: one send fires
      (also when the first reply carried media);
    - a second reply with no media and a non-empty text fires when it is
      started 5000 ms or more after the first, or when its text differs;
    - a second reply that carries media always fires. *)
Theorem C3_dedup_window
    (fs : Channel.FileSystem) (m : Channel.OB11MessageEvent)
    (recent : gmap string Channel.Reply)
    (now1 now2 : Z) (p1 p2 : Channel.ReplyPayload) (ok2 : bool)
    (sp1 : Channel.OB11SendMessageParams) (key : string) (rec1 : Channel.Reply) :
  Channel.deliver_decide fs recent m now1 p1 = Channel.SendNow sp1 key rec1 ->
  fst (Channel.deliver fs m true now1 p1 recent) !! Channel.messageKey m =
    Some {| Channel.r_text := Channel.record_text (Channel.text p1);
            Channel.r_timestamp := now1 |} /\
  (forall t,
      Channel.replyMedia_of p2 = [] -> Channel.text p2 = Some t -> t <> "" ->
      Channel.text p1 = Some t -> (now2 - now1 < 5000)%Z ->
      snd (Channel.deliver_twice fs m true now1 p1 ok2 now2 p2 recent) = [sp1]) /\
  (forall t,
      Channel.replyMedia_of p2 = [] -> Channel.text p2 = Some t -> t <> "" ->
      (5000 <= now2 - now1)%Z \/ Channel.text p1 <> Some t ->
      snd (Channel.deliver_twice fs m true now1 p1 ok2 now2 p2 recent) =
        [sp1; Channel.send_params m (Channel.PlainText (Some t))]) /\
  (Channel.replyMedia_of p2 <> [] ->
   snd (Channel.deliver_twice fs m true now1 p1 ok2 now2 p2 recent) =
     [sp1; Channel.send_params m
             (Channel.messageBody_of fs (Channel.text p2) (Channel.replyMedia_of p2))]).
Proof.
  intros Hd.
  destruct (deliver_records fs m _ _ _ _ _ _ Hd) as (_ & Hrec & Hdel).
  split; [|split; [|split]].
  - rewrite Hdel, Hrec. simpl. apply lookup_insert_eq.
  - intros t Hm2 Ht2 Hne Ht1 Hlt.
    rewrite (second_after_first fs m _ _ _ _ _ _ ok2 now2 p2 Hd).
    unfold Channel.deliver.
    rewrite (deliver_decide_text fs m _ _ _ t Hm2 Ht2 Hne).
    rewrite lookup_insert_eq, Ht1, (record_text_same t Hne).
    unfold Channel.is_duplicate; simpl.
    rewrite String.eqb_refl.
    unfold Channel.REPLY_DEDUP_WINDOW_MS.
    destruct (Z.ltb_spec (now2 - now1) 5000); [reflexivity | lia].
  - intros t Hm2 Ht2 Hne Hor.
    rewrite (second_after_first fs m _ _ _ _ _ _ ok2 now2 p2 Hd).
    unfold Channel.deliver.
    rewrite (deliver_decide_text fs m _ _ _ t Hm2 Ht2 Hne).
    rewrite lookup_insert_eq.
    unfold Channel.is_duplicate; simpl.
    unfold Channel.REPLY_DEDUP_WINDOW_MS.
    destruct Hor as [Hlate | Hdiff].
    + destruct (Z.ltb_spec (now2 - now1) 5000); [lia|].
      by rewrite andb_false_r.
    + apply (record_text_other p1 t Hne) in Hdiff.
      apply String.eqb_neq in Hdiff. by rewrite Hdiff.
  - intros Hm2.
    rewrite (second_after_first fs m _ _ _ _ _ _ ok2 now2 p2 Hd).
    unfold Channel.deliver.
    by rewrite (deliver_decide_media fs m _ _ _ Hm2).
Qed.

Lemma C3_dedup_window_witness :
  let m := sample_group_event in
  let sp := Channel.send_params m (Channel.PlainText (Some "hi")) in
  fst (Channel.deliver empty_fs m true 1000 (reply "hi" []) ∅) !! Channel.messageKey m =
    Some {| Channel.r_text := "hi"; Channel.r_timestamp := 1000 |} /\
  snd (Channel.deliver_twice empty_fs m true 1000 (reply "hi" [])
         true 2000 (reply "hi" []) ∅) = [sp] /\
  snd (Channel.deliver_twice empty_fs m true 1000 (reply "hi" [])
         true 7000 (reply "hi" []) ∅) = [sp; sp] /\
  snd (Channel.deliver_twice empty_fs m true 1000 (reply "hi" [])
         true 2000 (reply "bye" []) ∅) =
    [sp; Channel.send_params m (Channel.PlainText (Some "bye"))] /\
  snd (Channel.deliver_twice empty_fs m true 1000 (reply "hi" [])
         true 2000 (reply "hi" ["https://example.org/a.png"]) ∅) =
    [sp; Channel.send_params m
           (Channel.SegmentArray [Channel.text_segment "hi";
                                  Channel.image_segment "https://example.org/a.png"])].
Proof.
  intros m sp.
  assert (Hd : Channel.deliver_decide empty_fs ∅ m 1000 (reply "hi" []) =
               Channel.SendNow sp (Channel.messageKey m)
                 {| Channel.r_text := "hi"; Channel.r_timestamp := 1000 |})
    by reflexivity.
  split; [|split; [|split; [|split]]].
  - exact (proj1 (C3_dedup_window empty_fs m ∅ 1000 2000 (reply "hi" [])
                    (reply "hi" []) true _ _ _ Hd)).
  - apply (proj1 (proj2 (C3_dedup_window empty_fs m ∅ 1000 2000 (reply "hi" [])
                           (reply "hi" []) true _ _ _ Hd)) "hi");
      [reflexivity | reflexivity | discriminate | reflexivity | lia].
  - apply (proj1 (proj2 (proj2 (C3_dedup_window empty_fs m ∅ 1000 7000 (reply "hi" [])
                                  (reply "hi" []) true _ _ _ Hd))) "hi");
      [reflexivity | reflexivity | discriminate | left; lia].
  - apply (proj1 (proj2 (proj2 (C3_dedup_window empty_fs m ∅ 1000 2000 (reply "hi" [])
                                  (reply "bye" []) true _ _ _ Hd))) "bye");
      [reflexivity | reflexivity | discriminate | right; discriminate].
  - apply (proj2 (proj2 (proj2 (C3_dedup_window empty_fs m ∅ 1000 2000 (reply "hi" [])
                                  (reply "hi" ["https://example.org/a.png"])
                                  true _ _ _ Hd)))).
    discriminate.
Defined.

(** ** Reconnection backoff *)

Section Backoff.
Import Types Session.


Lemma js_succ_small n : (n < 2 ^ 53)%N -> js_succ n = (n + 1)%N.
Proof.
  intros H. unfold js_succ. destruct (N.ltb_spec n (2 ^ 53)); [reflexivity | lia].
Qed.

Variable account : NapCatAccount.


Lemma scheduleReconnect_cases s : Scheduled s (scheduleReconnect account s).
Proof.
  unfold scheduleReconnect.
  destruct (isClosing (runtime s)) eqn:Hc; [by apply sched_nothing|].
  destruct (negb _); [by apply sched_nothing|].
  unfold maxReconnectAttempts.
  destruct (N.leb_spec 10 (reconnectAttempts (runtime s))) as [Hge|Hlt].
  - by apply sched_exhausted.
  - apply (sched_timer s _ (reconnectAttempts (runtime s) + 1)%N); try done; try lia.
    rewrite js_succ_small; [reflexivity|].
    eapply N.lt_trans; [exact Hlt | reflexivity].
Qed.

End Backoff.

(** ** The session state machine *)

Section SessionFacts.
Import Types Session.
Local Open Scope list_scope.

Variable account : NapCatAccount.
Variable url_ok : string -> bool.

(** *** Settlements recorded in the trace *)

Lemma settlements_app c s obs :
  settlements c (emit_obs obs s) = settlements c s ++ from_option (fun r => [r]) [] (settle_of c obs).
Proof.
  unfold settlements, emit_obs. simpl. rewrite omap_app. simpl.
  fold (settle_of c obs). by destruct (settle_of c obs).
Qed.

Lemma settlements_trace c s s' obs :
  trace s' = trace s ++ obs ->
  settlements c s' = settlements c s ++ omap (settle_of c) obs.
Proof. intros H. unfold settlements. rewrite H, omap_app. reflexivity. Qed.


Lemma obs_allowed_weaken closing closing' (S S' : nat -> Prop) o :
  (forall c, S c -> S' c) -> (closing = true -> closing' = true) ->
  obs_allowed closing' S o -> obs_allowed closing S' o.
Proof.
  intros HS Hc. destruct o as [| | | ? ? []| | | | | | | |]; simpl; auto.
  - intros [H ?]. split; [|assumption].
    destruct closing; [rewrite Hc in H by reflexivity; discriminate | reflexivity].
  - intros H.
    destruct closing; [rewrite Hc in H by reflexivity; discriminate | reflexivity].
Qed.

Lemma grow_refl S D s : grow S D s s.
Proof.
  constructor; auto.
  exists []. by rewrite app_nil_r.
Qed.

Lemma grow_trans S D s1 s2 s3 : grow S D s1 s2 -> grow S D s2 s3 -> grow S D s1 s3.
Proof.
  intros [u1 v1 c1 q1 f1 n1 k1 h1 o1 w1 (obs1 & t1 & a1) r1]
         [u2 v2 c2 q2 f2 n2 k2 h2 o2 w2 (obs2 & t2 & a2) r2].
  constructor; try congruence; try lia; auto.
  - intros h d e c act Hh HD Hx. apply o2; [lia | assumption | by apply o1].
  - intros h x Hx. destruct (w2 h x Hx) as [Hold | (Hge & Hcl & d & ->)].
    + destruct (w1 h x Hold) as [? | (Hge & Hcl & d & ->)]; [by left|].
      right. split; [lia|]. eauto.
    + right. split; [lia|]. split; [|eauto].
      destruct (isClosing (runtime s1)); [|reflexivity].
      rewrite k1 in Hcl by reflexivity. discriminate.
  - exists (obs1 ++ obs2). split.
    + rewrite t2, t1. by rewrite app_assoc.
    + apply Forall_app. split; [assumption|].
      eapply Forall_impl; [exact a2|]. intros o.
      apply obs_allowed_weaken; auto.
Qed.

Lemma grow_weaken (S S' D D' : nat -> Prop) s s' :
  (forall c, S c -> S' c) -> (forall h, D h -> D' h) ->
  grow S D s s' -> grow S' D' s s'.
Proof.
  intros HS HD [u1 v1 c1 q1 f1 n1 k1 h1 o1 w1 (obs1 & t1 & a1) r1].
  constructor; auto.
  exists obs1. split; [assumption|].
  eapply Forall_impl; [exact a1|]. intros o. by apply obs_allowed_weaken.
Qed.

Lemma grow_emit_obs S D s o :
  obs_allowed (isClosing (runtime s)) S o -> grow S D s (emit_obs o s).
Proof.
  intros Ho. constructor; simpl; auto.
  exists [o]. split; [reflexivity|]. by constructor.
Qed.

Lemma grow_scheduleReconnect S D s : grow S D s (scheduleReconnect account s).
Proof.
  destruct (scheduleReconnect_cases account s) as [-> | Hge -> | n Hc Hn Hb ->].
  - apply grow_refl.
  - by apply grow_emit_obs.
  - constructor; simpl; auto.
    + intros h d e c act Hh _ Hx. rewrite lookup_insert_ne by lia. exact Hx.
    + intros h x. rewrite lookup_insert. case_decide as Hh.
      * intros [= <-]. right. subst h. split; [lia|]. eauto.
      * auto.
    + exists [SetTimeout (nextHandle s) (reconnectDelay n) ReconnectTimer].
      split; [reflexivity|]. constructor; [|constructor]. simpl. eauto.
    + intros _. lia.
Qed.

Lemma grow_start_failed S D err s : grow S D s (start_failed account err s).
Proof.
  unfold start_failed.
  eapply grow_trans; [|apply grow_scheduleReconnect].
  by apply grow_emit_obs.
Qed.

Lemma grow_start_connect S D s : grow S D s (start_connect account url_ok s).
Proof.
  unfold start_connect.
  destruct (Js.truthy (wsUrl account)).
  - destruct (url_ok _); [|apply grow_start_failed].
    constructor; simpl; auto.
    eexists [_]. split; [reflexivity|]. by repeat constructor.
  - destruct (negb _); [apply grow_start_failed | apply grow_refl].
Qed.

Lemma grow_report_ready S D d s : grow S D s (report_ready d s).
Proof.
  unfold report_ready. destruct (nullish d); [apply grow_refl | by apply grow_emit_obs].
Qed.

Lemma grow_run_caller S D who o s : grow S D s (run_caller account url_ok who o s).
Proof.
  destruct who, o; simpl; try apply grow_refl; try apply grow_start_connect.
  - eapply grow_trans; [|apply grow_start_connect]. apply grow_report_ready.
  - apply grow_report_ready.
Qed.

(** [settle c o] records the settlement of [c] and nothing else that
    touches the pending requests. *)
Lemma grow_settle D c o s : grow (eq c) D s (settle account url_ok c o s).
Proof.
  unfold settle.
  assert (H1 : grow (eq c) D s (emit_obs (Settle c o) s)) by by apply grow_emit_obs.
  destruct (awaiting s !! c); [|assumption].
  eapply grow_trans; [exact H1|].
  eapply grow_trans; [|apply grow_run_caller].
  constructor; simpl; auto.
  exists []. by rewrite app_nil_r.
Qed.

Lemma omap_settle_of_none closing (S : nat -> Prop) c obs :
  Forall (obs_allowed closing S) obs -> ~ S c -> omap (settle_of c) obs = [].
Proof.
  intros Ha Hc. induction Ha as [|x l Hx _ IH]; [reflexivity|].
  cbn [omap list_omap]. rewrite IH.
  destruct x; simpl in *; try done.
  destruct (Nat.eqb_spec call c); [subst; contradiction | reflexivity].
Qed.

(** Nothing is settled for a call outside [S]. *)
Lemma grow_settlements S D s s' c :
  grow S D s s' -> ~ S c -> settlements c s' = settlements c s.
Proof.
  intros [_ _ _ _ _ _ _ _ _ _ (obs & Ht & Ha) _] Hc.
  rewrite (settlements_trace c _ _ _ Ht).
  rewrite (omap_settle_of_none _ _ _ _ Ha Hc). by rewrite app_nil_r.
Qed.

Lemma settle_settlements c o s :
  settlements c (settle account url_ok c o s) = settlements c s ++ [o].
Proof.
  unfold settle.
  assert (H1 : settlements c (emit_obs (Settle c o) s) = settlements c s ++ [o]).
  { rewrite settlements_app. simpl. by rewrite Nat.eqb_refl. }
  destruct (awaiting s !! c); [|assumption].
  rewrite (grow_settlements none none _ _ c (grow_run_caller _ _ _ _ _)) by (unfold none; tauto).
  exact H1.
Qed.

(** *** Plain field updates *)

Ltac grow_fields :=
  constructor; simpl; auto; try lia;
  try (exists []; by rewrite app_nil_r).

Lemma grow_with_sockets S D f s : grow S D s (with_sockets f s).
Proof. grow_fields. Qed.

Lemma grow_with_awaiting S D f s : grow S D s (with_awaiting f s).
Proof. grow_fields. Qed.

Lemma grow_set_c_ws S D w s : grow S D s (with_client (set_c_ws w) s).
Proof. grow_fields. Qed.

Lemma grow_set_r_ws S D w s : grow S D s (with_runtime (set_r_ws w) s).
Proof. grow_fields. Qed.

Lemma grow_reset_attempts S D s : grow S D s (with_runtime (set_reconnectAttempts 0) s).
Proof. grow_fields. Qed.

Lemma grow_set_closing S D s : grow S D s (with_runtime (set_isClosing true) s).
Proof. grow_fields. Qed.

Lemma grow_clear_reconnect_timer S D h d s :
  timers s !! h = Some (d, ReconnectTimer) -> grow S D s (with_timers (delete h) s).
Proof.
  intros Hh. grow_fields.
  - intros h' d' e c act _ _ Hx.
    rewrite lookup_delete_ne; [assumption|]. intros ->. congruence.
  - intros h' x Hx. left. apply lookup_delete_Some in Hx. tauto.
Qed.

Ltac grow_last :=
  first
    [ apply grow_emit_obs; simpl; solve [auto]
    | apply grow_with_sockets | apply grow_with_awaiting
    | apply grow_set_c_ws | apply grow_set_r_ws
    | apply grow_reset_attempts | apply grow_set_closing
    | apply grow_scheduleReconnect | apply grow_start_failed
    | apply grow_start_connect | apply grow_run_caller ].

Ltac grow_chain :=
  first
    [ apply grow_refl
    | eassumption
    | grow_last
    | eapply grow_trans; [|grow_last]; grow_chain ].

(** *** The runtime's own methods *)

Lemma grow_stop S D s : grow S D s (stop s).
Proof.
  unfold stop. cbv zeta.
  change (r_ws (runtime (with_runtime (set_isClosing true) s))) with (r_ws (runtime s)).
  destruct (r_ws (runtime s)); grow_chain.
Qed.

Lemma grow_on_close S D s : grow S D s (on_close account s).
Proof.
  unfold on_close. cbv zeta.
  change (isClosing (runtime (with_client (set_c_ws None) s))) with (isClosing (runtime s)).
  destruct (negb (isClosing (runtime s))); grow_chain.
Qed.

Lemma grow_on_error S D err s : grow S D s (on_error err s).
Proof. unfold on_error. grow_chain. Qed.

(** *** Every transition, classified *)

Lemma request_cases who endpoint body now s :
  Requested account url_ok who endpoint body now s
    (request account url_ok who endpoint body now s).
Proof.
  unfold request.
  destruct (Js.truthy (c_httpUrl (client s))) eqn:Hh.
  - by apply rq_http.
  - destruct (ws_is_open s) eqn:Hw.
    + assert (Hk : exists k, c_ws (client s) = Some k).
      { unfold ws_is_open in Hw. destruct (c_ws (client s)); [eauto | discriminate]. }
      destruct Hk as [k Hk].
      apply (rq_ws _ _ _ _ _ _ _ _ k); try done.
      unfold requestWs. simpl. by rewrite Hk.
    + by apply rq_none.
Qed.

Lemma start_kinds now ev s0 s :
  grow none none s0 s ->
  StepKind account url_ok now ev s0 (start account url_ok now s).
Proof.
  intros Hg. unfold start, getLoginInfo.
  destruct (Js.truthy (httpUrl account)).
  - by eapply sk_request.
  - apply sk_quiet. grow_chain.
Qed.

Lemma step_kinds now ev s :
  StepKind account url_ok now ev s (step account url_ok s (now, ev)).
Proof.
  destruct ev as [endpoint body | c r | k sev | h | | ]; unfold step; cbn [fst snd].
  - eapply sk_request; [apply grow_refl | reflexivity].
  - unfold http_done. destruct (fetching s !! c) eqn:Hf.
    + eapply sk_http; [reflexivity | by rewrite Hf | reflexivity].
    + apply sk_quiet, grow_refl.
  - unfold socket_event.
    destruct (sockets s !! k) as [sk|]; [|apply sk_quiet, grow_refl].
    destruct sev as [| raw | | err].
    + destruct (readyState sk); try apply sk_quiet, grow_refl.
      destruct (listening sk); [|apply sk_quiet; grow_chain].
      unfold on_open, getLoginInfo. simpl.
      destruct (negb (Js.truthy (httpUrl account))).
      * eapply sk_request; [|reflexivity]. grow_chain.
      * apply sk_quiet. grow_chain.
    + assert (Hmsg : StepKind account url_ok now (SocketEv k (SockMessage raw)) s
                       (on_message account url_ok raw s)).
      { destruct raw as [p|]; simpl; [|apply sk_quiet; grow_chain].
        unfold handlePayload, handleWsResponse.
        destruct (Js.truthy (p_echo p)) eqn:Hech.
        - destruct (p_echo p) as [e|] eqn:He; [|discriminate]. simpl.
          unfold emit.
          destruct (listeners_of e (responseEmitter (client s))) as [|l ls] eqn:Hl.
          + destruct (String.eqb e "error"); apply sk_quiet; grow_chain.
          + eapply sk_response; eauto.
            * rewrite Hl. discriminate.
            * by rewrite Hl.
        - destruct (String.eqb _ _); apply sk_quiet; grow_chain. }
      destruct (readyState sk); try apply sk_quiet, grow_refl;
        (destruct (listening sk); [exact Hmsg | apply sk_quiet, grow_refl]).
    + destruct (readyState sk); try apply sk_quiet, grow_refl;
        (destruct (listening sk); apply sk_quiet;
         [eapply grow_trans; [|apply grow_on_close]; grow_chain | grow_chain]).
    + destruct (listening sk); apply sk_quiet; [apply grow_on_error | apply grow_refl].
  - unfold fire_timer.
    destruct (timers s !! h) as [[d cb]|] eqn:Hh; [|apply sk_quiet, grow_refl].
    destruct cb as [e c act|].
    + eapply sk_timeout; eauto.
    + pose proof (grow_clear_reconnect_timer none none h d s Hh) as Hg.
      unfold on_reconnect_timer. simpl.
      destruct (negb (isClosing (runtime s))) eqn:Hcl; [|by apply sk_quiet].
      unfold reconnect. apply start_kinds.
      apply negb_true_iff in Hcl.
      destruct (r_ws (runtime (emit_obs Reconnect (with_timers (delete h) s)))); simpl;
        (eapply grow_trans; [exact Hg|]); grow_chain.
  - apply start_kinds, grow_refl.
  - apply sk_quiet, grow_stop.
Qed.

(** *** The listeners run by one [emit] *)

Lemma grow_clear_timer S (D : nat -> Prop) h s :
  D h -> grow S D s (with_timers (delete h) s).
Proof.
  intros HD. grow_fields.
  - intros h' d e c act _ Hn Hx.
    rewrite lookup_delete_ne; [assumption|]. intros ->. contradiction.
  - intros h' x Hx. left. apply lookup_delete_Some in Hx. tauto.
Qed.

Lemma grow_run_listener r l s :
  grow (eq (l_call l)) (eq (l_timer l)) s (run_listener account url_ok r s l).
Proof.
  unfold run_listener.
  eapply grow_trans; [|apply grow_settle]. by apply grow_clear_timer.
Qed.

Lemma grow_fold_listeners r ls s :
  grow (fun c => c ∈ map l_call ls) (fun h => h ∈ map l_timer ls) s
    (fold_left (run_listener account url_ok r) ls s).
Proof.
  revert s. induction ls as [|l ls IH]; intros s; simpl.
  - apply grow_refl.
  - eapply grow_trans.
    + eapply grow_weaken; [| |apply grow_run_listener].
      * intros c <-. apply list_elem_of_here.
      * intros h <-. apply list_elem_of_here.
    + eapply grow_weaken; [| |apply IH].
      * intros c Hc. by apply list_elem_of_further.
      * intros h Hh. by apply list_elem_of_further.
Qed.

(** *** The configured endpoint never changes *)

Lemma requested_httpUrl who endpoint body now s s' :
  Requested account url_ok who endpoint body now s s' ->
  c_httpUrl (client s') = c_httpUrl (client s).
Proof.
  intros [Hh -> | k Hh Hw Hk -> | Hh Hw ->]; try reflexivity.
  by rewrite (g_httpUrl _ _ _ _ (grow_settle none _ _ _)).
Qed.

Lemma step_httpUrl s ne :
  c_httpUrl (client (step account url_ok s ne)) = c_httpUrl (client s).
Proof.
  destruct ne as [now ev].
  destruct (step_kinds now ev s) as
    [Hg | s0 who ep body Hg -> | k p e _ _ _ -> | h d e c act _ _ -> | c r _ _ ->].
  - apply (g_httpUrl _ _ _ _ Hg).
  - rewrite (requested_httpUrl _ _ _ _ _ _ (request_cases _ _ _ _ _)).
    apply (g_httpUrl _ _ _ _ Hg).
  - by rewrite (g_httpUrl _ _ _ _ (grow_fold_listeners _ _ _)).
  - by rewrite (g_httpUrl _ _ _ _ (grow_settle none _ _ _)).
  - by rewrite (g_httpUrl _ _ _ _ (grow_settle none _ _ _)).
Qed.

Lemma run_httpUrl es s :
  c_httpUrl (client (run account url_ok es s)) = c_httpUrl (client s).
Proof.
  revert s. induction es as [|ne es IH]; intros s; [reflexivity|].
  simpl. rewrite IH. apply step_httpUrl.
Qed.

Lemma strip_trailing_slash_empty u :
  Js.strip_trailing_slash u = "" -> u = "" \/ u = "/".
Proof.
  destruct u as [|a [|b u]]; simpl; auto.
  - destruct (Ascii.eqb_spec a "/"); [subst; auto | discriminate].
  - discriminate.
Qed.

(** Any [httpUrl] other than [''] and ['/'] leaves the client with a
    configured endpoint, in every state the session can reach. *)
Lemma http_endpoint_configured u es :
  httpUrl account = Some u -> u <> "" -> u <> "/" ->
  Js.truthy (c_httpUrl (client (run account url_ok es (init account)))) = true.
Proof.
  intros Hu H1 H2. rewrite run_httpUrl. simpl. rewrite Hu. simpl.
  apply String.eqb_neq in H1 as H1'. rewrite H1'. simpl.
  apply negb_true_iff, String.eqb_neq.
  intros H. apply strip_trailing_slash_empty in H. tauto.
Qed.

(** *** What a transition records about reconnection *)

Lemma obs_allowed_reconnect_ok closing S o :
  obs_allowed closing S o -> reconnect_ok closing o.
Proof. destruct o as [| | | ? ? []| | | | | | | |]; simpl; tauto. Qed.

Lemma grow_reconnect_trace S D s s' :
  grow S D s s' ->
  exists obs, trace s' = trace s ++ obs /\
              Forall (reconnect_ok (isClosing (runtime s))) obs.
Proof.
  intros Hg. destruct (g_trace _ _ _ _ Hg) as (obs & Ht & Ha).
  exists obs. split; [assumption|].
  eapply Forall_impl; [exact Ha|]. intros o. apply obs_allowed_reconnect_ok.
Qed.

Lemma requested_reconnect_trace who endpoint body now s s' :
  Requested account url_ok who endpoint body now s s' ->
  (isClosing (runtime s) = true -> isClosing (runtime s') = true) /\
  exists obs, trace s' = trace s ++ obs /\
              Forall (reconnect_ok (isClosing (runtime s))) obs.
Proof.
  intros [Hh -> | k Hh Hw Hk -> | Hh Hw ->].
  - split; [auto|]. eexists [_]. split; [reflexivity|]. by repeat constructor.
  - split; [auto|]. eexists [_; _]. split.
    + simpl. by rewrite <- app_assoc.
    + by repeat constructor.
  - set (s0 := bump_call _).
    pose proof (grow_settle none (nextCall s) (Rejected no_transport_error) s0) as Hg.
    split; [apply (g_closing _ _ _ _ Hg)|].
    apply (grow_reconnect_trace _ _ _ _ Hg).
Qed.

Lemma reconnect_ok_weaken closing closing' o :
  (closing = true -> closing' = true) ->
  reconnect_ok closing' o -> reconnect_ok closing o.
Proof.
  intros Hc. destruct o as [| | | ? ? []| | | | | | | |]; simpl; auto.
  - intros [H ?]. split; [|assumption].
    destruct closing; [rewrite Hc in H by reflexivity; discriminate | reflexivity].
  - intros H.
    destruct closing; [rewrite Hc in H by reflexivity; discriminate | reflexivity].
Qed.

Lemma step_reconnect_trace s ne :
  (isClosing (runtime s) = true ->
   isClosing (runtime (step account url_ok s ne)) = true) /\
  exists obs, trace (step account url_ok s ne) = trace s ++ obs /\
              Forall (reconnect_ok (isClosing (runtime s))) obs.
Proof.
  destruct ne as [now ev].
  destruct (step_kinds now ev s) as
    [Hg | s0 who ep body Hg -> | k p e _ _ _ -> | h d e c act _ _ -> | c r _ _ ->].
  - split; [apply (g_closing _ _ _ _ Hg) | apply (grow_reconnect_trace _ _ _ _ Hg)].
  - destruct (requested_reconnect_trace _ _ _ _ _ _ (request_cases who ep body now s0))
      as (Hc & obs2 & Ht2 & Ha2).
    destruct (grow_reconnect_trace _ _ _ _ Hg) as (obs1 & Ht1 & Ha1).
    pose proof (g_closing _ _ _ _ Hg) as Hc1.
    split; [auto|].
    exists (obs1 ++ obs2). split.
    + rewrite Ht2, Ht1. by rewrite app_assoc.
    + apply Forall_app. split; [assumption|].
      eapply Forall_impl; [exact Ha2|]. intros o. by apply reconnect_ok_weaken.
  - match goal with |- context [fold_left ?f ?l ?a] =>
      pose proof (grow_fold_listeners (p_response p) l a) as Hg end.
    split; [apply (g_closing _ _ _ _ Hg) | apply (grow_reconnect_trace _ _ _ _ Hg)].
  - match goal with |- context [settle _ _ ?c ?o ?a] =>
      pose proof (grow_settle none c o a) as Hg end.
    split; [apply (g_closing _ _ _ _ Hg) | apply (grow_reconnect_trace _ _ _ _ Hg)].
  - match goal with |- context [settle _ _ ?c ?o ?a] =>
      pose proof (grow_settle none c o a) as Hg end.
    split; [apply (g_closing _ _ _ _ Hg) | apply (grow_reconnect_trace _ _ _ _ Hg)].
Qed.




(** *** The [close] event *)

Lemma close_quiet now k s :
  grow none none s (step account url_ok s (now, SocketEv k SockClose)).
Proof.
  unfold step; cbn [fst snd]. unfold socket_event.
  destruct (sockets s !! k) as [sk|]; [|apply grow_refl].
  destruct (readyState sk); try apply grow_refl;
    (destruct (listening sk);
     [eapply grow_trans; [|apply grow_on_close]; grow_chain | grow_chain]).
Qed.

Lemma scheduleReconnect_client s : client (scheduleReconnect account s) = client s.
Proof.
  by destruct (scheduleReconnect_cases account s) as [-> | Hge -> | n Hc Hn Hb ->].
Qed.

(** *** How a pending token leaves the table *)

Lemma In_removeAllListeners e e' l :
  In e (map fst l) -> e <> e' -> In e (map fst (removeAllListeners e' l)).
Proof.
  intros Hin Hne. unfold removeAllListeners.
  induction l as [|[k x] l IH]; [assumption|].
  simpl in *. destruct (String.eqb_spec k e') as [->|Hk]; simpl.
  - destruct Hin as [->|Hin]; [contradiction | auto].
  - destruct Hin as [->|Hin]; auto.
Qed.

Lemma requested_tokens who endpoint body now s s' e :
  Requested account url_ok who endpoint body now s s' ->
  In e (pending_tokens s) -> In e (pending_tokens s').
Proof.
  intros [Hh -> | k Hh Hw Hk -> | Hh Hw ->] Hin.
  - exact Hin.
  - unfold pending_tokens. simpl. rewrite map_app. apply in_or_app. by left.
  - unfold pending_tokens.
    by rewrite (g_emitter _ _ _ _ (grow_settle none _ _ _)).
Qed.

Lemma step_removes_token now ev s e :
  In e (pending_tokens s) ->
  ~ In e (pending_tokens (step account url_ok s (now, ev))) ->
  (exists k p, ev = SocketEv k (SockMessage (Some p)) /\ p_echo p = Some e) \/
  (exists h d c act, ev = TimerFires h /\ timers s !! h = Some (d, ApiTimeout e c act)).
Proof.
  intros Hin Hout.
  destruct (step_kinds now ev s) as
    [Hg | s0 who ep body Hg Hs | k p e' Hev Hp _ Hs | h d e' c act Hev Hh Hs | c r _ _ Hs];
    rewrite Hs in Hout || idtac.
  - exfalso. apply Hout. unfold pending_tokens. by rewrite (g_emitter _ _ _ _ Hg).
  - exfalso. apply Hout.
    apply (requested_tokens _ _ _ _ _ _ _ (request_cases who ep body now s0)).
    unfold pending_tokens. by rewrite (g_emitter _ _ _ _ Hg).
  - destruct (String.eqb_spec e e') as [->|Hne]; [left; eauto|].
    exfalso. apply Hout. unfold pending_tokens.
    rewrite (g_emitter _ _ _ _ (grow_fold_listeners _ _ _)). simpl.
    by apply In_removeAllListeners.
  - destruct (String.eqb_spec e e') as [->|Hne]; [right; eauto 10|].
    exfalso. apply Hout. unfold pending_tokens.
    rewrite (g_emitter _ _ _ _ (grow_settle none _ _ _)). simpl.
    by apply In_removeAllListeners.
  - exfalso. apply Hout. unfold pending_tokens.
    by rewrite (g_emitter _ _ _ _ (grow_settle none _ _ _)).
Qed.

(** *** Tokens *)

Lemma js_succ_le n : (n <= js_succ n)%N.
Proof. unfold js_succ. destruct (N.ltb_spec n (2 ^ 53)); lia. Qed.

Lemma token_below_mono b b' e : (b <= b')%N -> token_below b e -> token_below b' e.
Proof. intros Hb (now & seq & -> & Hlt). exists now, seq. split; [reflexivity | lia]. Qed.

Lemma tokens_fresh_remove bound e l :
  tokens_fresh bound l -> tokens_fresh bound (removeAllListeners e l).
Proof.
  intros [Hf Hn]. unfold tokens_fresh, removeAllListeners.
  induction l as [|[k x] l IH]; simpl in *; [auto|].
  apply Forall_cons in Hf as [Hk Hf]. apply NoDup_cons in Hn as [Hnk Hn].
  destruct (IH Hf Hn) as [IHf IHn].
  destruct (negb (String.eqb k e)); simpl; [|auto].
  split; [by constructor|]. apply NoDup_cons. split; [|assumption].
  intros Hin. apply Hnk.
  apply list_elem_of_In in Hin. apply list_elem_of_In.
  apply in_map_iff in Hin as ([k' x'] & <- & Hin). apply in_map_iff.
  exists (k', x'). split; [reflexivity|]. apply filter_In in Hin. tauto.
Qed.

Lemma tokens_fresh_add now seq l x :
  (seq < 2 ^ 53)%N ->
  tokens_fresh seq l ->
  tokens_fresh (js_succ seq) (l ++ [(make_echo now seq, x)]).
Proof.
  intros Hs [Hf Hn]. rewrite js_succ_small by assumption.
  unfold tokens_fresh. rewrite map_app. simpl. split.
  - apply Forall_app. split.
    + eapply Forall_impl; [exact Hf|]. intros e. apply token_below_mono. lia.
    + constructor; [|constructor]. exists now, seq. split; [reflexivity | lia].
  - apply NoDup_app. split; [assumption|]. split; [|apply NoDup_singleton].
    intros e He Hin. apply list_elem_of_singleton in Hin. subst e.
    rewrite Forall_forall in Hf.
    destruct (Hf _ He) as (now' & seq' & Heq & Hlt).
    apply make_echo_inj in Heq as [_ ->]. lia.
Qed.

Lemma tok_inv_same s s' :
  responseEmitter (client s') = responseEmitter (client s) ->
  wsSequence (client s') = wsSequence (client s) ->
  tok_inv s -> tok_inv s'.
Proof. unfold tok_inv. intros -> ->. auto. Qed.

Lemma tok_inv_removed e s s' :
  responseEmitter (client s') = removeAllListeners e (responseEmitter (client s)) ->
  wsSequence (client s') = wsSequence (client s) ->
  tok_inv s -> tok_inv s'.
Proof.
  unfold tok_inv. intros -> -> H Hlt. by apply tokens_fresh_remove, H.
Qed.

Lemma tok_inv_requested who endpoint body now s s' :
  Requested account url_ok who endpoint body now s s' -> tok_inv s -> tok_inv s'.
Proof.
  intros [Hh -> | k Hh Hw Hk -> | Hh Hw ->] Hinv.
  - exact Hinv.
  - unfold tok_inv. simpl. intros Hlt.
    assert (Hs : (wsSequence (client s) < 2 ^ 53)%N).
    { eapply N.le_lt_trans; [apply js_succ_le | exact Hlt]. }
    apply tokens_fresh_add; auto.
  - eapply tok_inv_same; [| |exact Hinv].
    + by rewrite (g_emitter _ _ _ _ (grow_settle none _ _ _)).
    + by rewrite (g_seq _ _ _ _ (grow_settle none _ _ _)).
Qed.

Lemma tok_inv_step s ne : tok_inv s -> tok_inv (step account url_ok s ne).
Proof.
  intros Hinv. destruct ne as [now ev].
  destruct (step_kinds now ev s) as
    [Hg | s0 who ep body Hg -> | k p e _ _ _ -> | h d e c act _ _ -> | c r _ _ ->].
  - eapply tok_inv_same; [apply (g_emitter _ _ _ _ Hg) | apply (g_seq _ _ _ _ Hg) | exact Hinv].
  - apply (tok_inv_requested _ _ _ _ _ _ (request_cases who ep body now s0)).
    eapply tok_inv_same; [apply (g_emitter _ _ _ _ Hg) | apply (g_seq _ _ _ _ Hg) | exact Hinv].
  - eapply (tok_inv_removed e); [| |exact Hinv].
    + by rewrite (g_emitter _ _ _ _ (grow_fold_listeners _ _ _)).
    + by rewrite (g_seq _ _ _ _ (grow_fold_listeners _ _ _)).
  - eapply (tok_inv_removed e); [| |exact Hinv].
    + by rewrite (g_emitter _ _ _ _ (grow_settle none _ _ _)).
    + by rewrite (g_seq _ _ _ _ (grow_settle none _ _ _)).
  - eapply tok_inv_same; [| |exact Hinv].
    + by rewrite (g_emitter _ _ _ _ (grow_settle none _ _ _)).
    + by rewrite (g_seq _ _ _ _ (grow_settle none _ _ _)).
Qed.

Lemma tok_inv_run es s : tok_inv s -> tok_inv (run account url_ok es s).
Proof.
  revert s. induction es as [|ne es IH]; intros s Hinv; [assumption|].
  simpl. apply IH, tok_inv_step, Hinv.
Qed.

Lemma tok_inv_init : tok_inv (init account).
Proof. intros _. split; constructor. Qed.

(** *** A frame whose token is not pending *)

Lemma listeners_of_unknown e l : ~ In e (map fst l) -> listeners_of e l = [].
Proof.
  intros Hn. unfold listeners_of.
  induction l as [|[k x] l IH]; [reflexivity|].
  simpl in *. destruct (String.eqb_spec k e) as [->|Hk]; [tauto|].
  apply IH. tauto.
Qed.

Lemma unknown_frame_quiet now k p e s :
  p_echo p = Some e -> ~ In e (pending_tokens s) ->
  let s' := step account url_ok s (now, SocketEv k (SockMessage (Some p))) in
  s' = s \/ s' = emit_obs ParseFailure s \/ s' = emit_obs (OnMessage p) s.
Proof.
  intros Hp Hn. unfold step; cbn [fst snd]. unfold socket_event.
  destruct (sockets s !! k) as [sk|]; [|by left].
  assert (Hm : on_message account url_ok (Some p) s = s \/
               on_message account url_ok (Some p) s = emit_obs ParseFailure s \/
               on_message account url_ok (Some p) s = emit_obs (OnMessage p) s).
  { unfold on_message, handlePayload, handleWsResponse. rewrite Hp.
    destruct (Js.truthy (Some e)).
    - simpl. unfold emit. rewrite (listeners_of_unknown _ _ Hn).
      destruct (String.eqb e "error"); auto.
    - destruct (String.eqb _ _); auto. }
  destruct (readyState sk); try (by left); (destruct (listening sk); [exact Hm | by left]).
Qed.

(** *** The bounds are kept *)

Lemma In_listeners_of e x l : In x (listeners_of e l) <-> In (e, x) l.
Proof.
  unfold listeners_of. rewrite in_map_iff. split.
  - intros ([k y] & <- & Hin). apply filter_In in Hin as [Hin Hk].
    simpl in *. apply String.eqb_eq in Hk. by subst k.
  - intros Hin. exists (e, x). split; [reflexivity|].
    apply filter_In. split; [assumption|]. simpl. apply String.eqb_refl.
Qed.

Lemma In_removeAll e e' x l :
  In (e', x) (removeAllListeners e l) <-> In (e', x) l /\ e' <> e.
Proof.
  unfold removeAllListeners. rewrite filter_In. simpl.
  rewrite negb_true_iff, String.eqb_neq. tauto.
Qed.

Lemma wf_grow (S D : nat -> Prop) s s' :
  wf s -> grow S D s s' -> (forall c, S c -> c < nextCall s) -> wf s'.
Proof.
  intros [Hl Ht Htc Hf Hs Htt] Hg HS.
  pose proof (g_emitter _ _ _ _ Hg) as Ee. pose proof (g_nextCall _ _ _ _ Hg) as En.
  pose proof (g_handle _ _ _ _ Hg) as Eh. pose proof (g_seq _ _ _ _ Hg) as Es.
  constructor.
  - intros e l. rewrite Ee, En. intros Hin. destruct (Hl e l Hin). lia.
  - intros h x Hx. destruct (g_new _ _ _ _ Hg h x Hx) as [Hold | (Hb & _)]; [|lia].
    apply Ht in Hold. lia.
  - intros h d e c act Hx. rewrite En.
    destruct (g_new _ _ _ _ Hg _ _ Hx) as [Hold | (_ & _ & d' & [=])]; eauto.
  - intros c x. rewrite (g_fetching _ _ _ _ Hg), En. apply Hf.
  - intros c Hc. rewrite En in Hc.
    rewrite (grow_settlements S D s s' c Hg); [by apply Hs|].
    intros HSc. apply HS in HSc. lia.
  - rewrite Es. intros Hlt h d e c act Hx.
    destruct (g_new _ _ _ _ Hg _ _ Hx) as [Hold | (_ & _ & d' & [=])]; eauto.
Qed.

(** The states from which the promise of an answered request is settled:
    some listeners removed, some timers cleared, some fetches done. *)
Lemma wf_shrink s s' :
  wf s ->
  (forall e l, In (e, l) (responseEmitter (client s')) -> In (e, l) (responseEmitter (client s))) ->
  (forall h x, timers s' !! h = Some x -> timers s !! h = Some x) ->
  (forall c x, fetching s' !! c = Some x -> fetching s !! c = Some x) ->
  wsSequence (client s') = wsSequence (client s) ->
  nextCall s' = nextCall s -> nextHandle s' = nextHandle s -> trace s' = trace s ->
  wf s'.
Proof.
  intros [Hl Ht Htc Hf Hs Htt] Ie It If Es En Eh Et.
  constructor; rewrite ?Es, ?En, ?Eh; unfold settlements; rewrite ?Et; eauto.
Qed.

Lemma wf_requested who endpoint body now s s' :
  Requested account url_ok who endpoint body now s s' -> wf s -> wf s'.
Proof.
  intros [Hh -> | k Hh Hw Hk -> | Hh Hw ->] Hwf; pose proof Hwf as [Hl Ht Htc Hf Hs Htt].
  - constructor; simpl.
    + intros e l Hin. destruct (Hl e l Hin). lia.
    + exact Ht.
    + intros h d e c act Hx. apply Htc in Hx. lia.
    + intros c x. rewrite lookup_insert. case_decide; [intros _; lia|].
      intros Hx. apply Hf in Hx. lia.
    + intros c Hc. rewrite settlements_app. simpl. rewrite app_nil_r.
      apply Hs. lia.
    + exact Htt.
  - constructor; simpl.
    + intros e l Hin. apply in_app_or in Hin as [Hin | [[= <- <-]|[]]].
      * destruct (Hl e l Hin). lia.
      * simpl. lia.
    + intros h x. rewrite lookup_insert. case_decide; [intros _; lia|].
      intros Hx. apply Ht in Hx. lia.
    + intros h d e c act. rewrite lookup_insert. case_decide.
      * intros [= <- <- <- <-]. lia.
      * intros Hx. apply Htc in Hx. lia.
    + intros c x Hx. apply Hf in Hx. lia.
    + intros c Hc. rewrite settlements_app. simpl. rewrite app_nil_r.
      match goal with |- settlements c ?st = [] =>
        change (settlements c st) with
          (settlements c (emit_obs (SetTimeout (nextHandle s) 10000%Q
                                      (ApiTimeout (make_echo now (wsSequence (client s)))
                                         (nextCall s) (Js.strip_leading_slash endpoint))) s))
      end.
      rewrite settlements_app. simpl. rewrite app_nil_r. apply Hs. lia.
    + intros Hlt h d e c act.
      assert (Hsq : (wsSequence (client s) < 2 ^ 53)%N).
      { eapply N.le_lt_trans; [apply js_succ_le | exact Hlt]. }
      rewrite lookup_insert. case_decide.
      * intros [= <- <- <- <-]. exists now, (wsSequence (client s)).
        split; [reflexivity|]. rewrite js_succ_small by assumption. lia.
      * intros Hx. eapply token_below_mono; [apply js_succ_le|]. eauto.
  - set (s0 := bump_call _).
    apply (wf_grow (eq (nextCall s)) none s0); [|apply grow_settle|].
    + constructor; simpl.
      * intros e l Hin. destruct (Hl e l Hin). lia.
      * exact Ht.
      * intros h d e c act Hx. apply Htc in Hx. lia.
      * intros c x Hx. apply Hf in Hx. lia.
      * intros c Hc. change (settlements c s0) with (settlements c s). apply Hs. lia.
      * exact Htt.
    + intros c <-. simpl. lia.
Qed.

Lemma wf_step s ne : wf s -> wf (step account url_ok s ne).
Proof.
  intros Hwf. destruct ne as [now ev].
  destruct (step_kinds now ev s) as
    [Hg | s0 who ep body Hg -> | k p e _ _ _ -> | h d e c act _ Hh -> | c r _ Hc ->].
  - apply (wf_grow none none s); [assumption | assumption | unfold none; tauto].
  - apply (wf_requested _ _ _ _ _ _ (request_cases who ep body now s0)).
    apply (wf_grow none none s); [assumption | assumption | unfold none; tauto].
  - eapply wf_grow; [|apply grow_fold_listeners|].
    + apply (wf_shrink s); auto. simpl. intros e' l Hin. by apply In_removeAll in Hin as [? _].
    + simpl. intros c Hin. apply list_elem_of_In, in_map_iff in Hin as (l & <- & Hin).
      apply In_listeners_of in Hin. by destruct (wf_listener _ Hwf _ _ Hin).
  - eapply wf_grow; [|apply (grow_settle none)|].
    + apply (wf_shrink s); auto; simpl.
      * intros e' l Hin. by apply In_removeAll in Hin as [? _].
      * intros h' x Hx. apply lookup_delete_Some in Hx. tauto.
    + simpl. intros c' <-. apply (wf_timer_call _ Hwf _ _ _ _ _ Hh).
  - eapply wf_grow; [|apply (grow_settle none)|].
    + apply (wf_shrink s); auto; simpl.
      intros c' x Hx. apply lookup_delete_Some in Hx. tauto.
    + simpl. intros c' <-. destruct Hc as [x Hx]. apply (wf_fetch _ Hwf _ _ Hx).
Qed.

Lemma wf_run es s : wf s -> wf (run account url_ok es s).
Proof.
  revert s. induction es as [|ne es IH]; intros s Hwf; [assumption|].
  simpl. apply IH, wf_step, Hwf.
Qed.

Lemma wf_init : wf (init account).
Proof.
  constructor; simpl; try done; intros *; rewrite ?lookup_empty; done.
Qed.

(** *** A call that is over stays over *)

Lemma token_not_reissued e now seq bound :
  (exists now0 seq0, e = make_echo now0 seq0 /\ (seq0 < bound)%N) ->
  (bound <= seq)%N -> make_echo now seq <> e.
Proof.
  intros (now0 & seq0 & -> & Hlt) Hle Heq.
  apply make_echo_inj in Heq as [_ ->]. lia.
Qed.

Lemma dormant_grow (S D : nat -> Prop) c e s s' :
  dormant c e s -> grow S D s s' -> ~ S c ->
  dormant c e s' /\ settlements c s' = settlements c s.
Proof.
  intros [Hl Ht Hf Hc Hk] Hg HS.
  split; [|by apply (grow_settlements S D)].
  constructor.
  - by rewrite (g_emitter _ _ _ _ Hg).
  - intros h' d e' c' act' Hx.
    destruct (g_new _ _ _ _ Hg _ _ Hx) as [Hold | (_ & _ & d' & [=])]; eauto.
  - by rewrite (g_fetching _ _ _ _ Hg).
  - by rewrite (g_nextCall _ _ _ _ Hg).
  - by rewrite (g_seq _ _ _ _ Hg).
Qed.

Lemma dormant_shrink c e s s' :
  dormant c e s ->
  (forall e' l, In (e', l) (responseEmitter (client s')) -> In (e', l) (responseEmitter (client s))) ->
  (forall h x, timers s' !! h = Some x -> timers s !! h = Some x) ->
  (forall c' x, fetching s' !! c' = Some x -> fetching s !! c' = Some x) ->
  wsSequence (client s') = wsSequence (client s) ->
  nextCall s' = nextCall s ->
  dormant c e s'.
Proof.
  intros [Hl Ht Hf Hc Hk] Ie It If Es En.
  constructor; rewrite ?Es, ?En; eauto.
  destruct (fetching s' !! c) eqn:Hx; [|reflexivity].
  apply If in Hx. congruence.
Qed.

Lemma dormant_requested who endpoint body now c e s s' :
  Requested account url_ok who endpoint body now s s' -> dormant c e s ->
  dormant c e s' /\ settlements c s' = settlements c s.
Proof.
  intros [Hh -> | k Hh Hw Hk -> | Hh Hw ->] Hd; pose proof Hd as [Hl Ht Hf Hc Hk'].
  - split.
    + constructor; simpl; auto; try lia.
      rewrite lookup_insert_ne by lia. exact Hf.
    + rewrite settlements_app. simpl. by rewrite app_nil_r.
  - split.
    + constructor; simpl; auto; try lia.
      * intros e' l' Hin. apply in_app_or in Hin as [Hin | [[= <- <-]|[]]]; [auto|].
        simpl. split; [lia|]. eapply token_not_reissued; [exact Hk' | lia].
      * intros h' d e' c' act'. rewrite lookup_insert. case_decide.
        -- intros [= <- <- <- <-]. lia.
        -- apply Ht.
      * destruct Hk' as (now0 & seq0 & -> & Hlt). exists now0, seq0.
        split; [reflexivity|]. pose proof (js_succ_le (wsSequence (client s))). lia.
    + rewrite settlements_app. simpl. rewrite app_nil_r.
      match goal with |- settlements c ?st = _ =>
        change (settlements c st) with
          (settlements c (emit_obs (SetTimeout (nextHandle s) 10000%Q
                                      (ApiTimeout (make_echo now (wsSequence (client s)))
                                         (nextCall s) (Js.strip_leading_slash endpoint))) s))
      end.
      rewrite settlements_app. simpl. by rewrite app_nil_r.
  - set (s0 := bump_call _).
    assert (Hd0 : dormant c e s0) by (constructor; simpl; auto; lia).
    destruct (dormant_grow (eq (nextCall s)) none c e s0 _ Hd0
                (grow_settle none (nextCall s) (Rejected no_transport_error) s0))
      as [Hd' Hs']; [lia|].
    split; [exact Hd' | exact Hs'].
Qed.

Lemma dormant_step c e s ne :
  dormant c e s ->
  dormant c e (step account url_ok s ne) /\
  settlements c (step account url_ok s ne) = settlements c s.
Proof.
  intros Hd. destruct ne as [now ev].
  destruct (step_kinds now ev s) as
    [Hg | s0 who ep body Hg -> | k p e' _ _ _ -> | h d e' c' act _ Hh -> | c' r _ Hc ->].
  - apply (dormant_grow none none); auto.
  - destruct (dormant_grow none none c e s s0 Hd Hg) as [Hd0 Hs0]; [unfold none; tauto|].
    destruct (dormant_requested _ _ _ _ c e _ _ (request_cases who ep body now s0) Hd0)
      as [Hd1 Hs1].
    split; [exact Hd1 | congruence].
  - set (s0 := with_client _ s).
    assert (Hd0 : dormant c e s0).
    { apply (dormant_shrink c e s); auto. simpl.
      intros e'' l Hin. by apply In_removeAll in Hin as [? _]. }
    destruct (dormant_grow _ _ c e s0 _ Hd0
                (grow_fold_listeners (p_response p)
                   (listeners_of e' (responseEmitter (client s))) s0)) as [Hd1 Hs1].
    + simpl. intros Hin. apply list_elem_of_In, in_map_iff in Hin as (l & Hl & Hin).
      apply In_listeners_of in Hin. destruct (dm_listener _ _ _ Hd _ _ Hin). congruence.
    + split; [exact Hd1 | exact Hs1].
  - set (s0 := with_client _ _).
    assert (Hd0 : dormant c e s0).
    { apply (dormant_shrink c e s); auto; simpl.
      - intros e'' l Hin. by apply In_removeAll in Hin as [? _].
      - intros h' x Hx. apply lookup_delete_Some in Hx. tauto. }
    destruct (dormant_grow _ _ c e s0 _ Hd0
                (grow_settle none c' (Rejected (timeout_error act)) s0)) as [Hd1 Hs1].
    + intros <-. by apply (dm_timers _ _ _ Hd _ _ _ _ _ Hh).
    + split; [exact Hd1 | exact Hs1].
  - set (s0 := with_fetching _ s).
    assert (Hd0 : dormant c e s0).
    { apply (dormant_shrink c e s); auto; simpl.
      intros c'' x Hx. apply lookup_delete_Some in Hx. tauto. }
    destruct (dormant_grow _ _ c e s0 _ Hd0
                (grow_settle none c' (outcome_of_http r) s0)) as [Hd1 Hs1].
    + intros <-. destruct Hc as [x Hx]. rewrite (dm_fetch _ _ _ Hd) in Hx. discriminate.
    + split; [exact Hd1 | exact Hs1].
Qed.

Lemma dormant_run c e es s :
  dormant c e s ->
  dormant c e (run account url_ok es s) /\
  settlements c (run account url_ok es s) = settlements c s.
Proof.
  revert s. induction es as [|ne es IH]; intros s Hd; [auto|].
  destruct (dormant_step c e s ne Hd) as [Hd1 Hs1].
  destruct (IH _ Hd1) as [Hd2 Hs2].
  simpl. split; [exact Hd2 | congruence].
Qed.

Lemma dormant_token_gone c e s : dormant c e s -> ~ In e (pending_tokens s).
Proof.
  intros Hd Hin. apply in_map_iff in Hin as ([e' l] & <- & Hin).
  destruct (dm_listener _ _ _ Hd _ _ Hin). tauto.
Qed.

(** *** A pending call stays pending until it is answered *)

Lemma listeners_of_removeAll e e' l :
  e <> e' -> listeners_of e (removeAllListeners e' l) = listeners_of e l.
Proof.
  intros Hne. unfold listeners_of, removeAllListeners.
  induction l as [|[k x] l IH]; [reflexivity|].
  simpl. destruct (String.eqb_spec k e') as [->|Hk]; simpl.
  - destruct (String.eqb_spec e' e) as [->|_]; [contradiction | exact IH].
  - destruct (String.eqb k e); simpl; by rewrite IH.
Qed.

Lemma listeners_of_app e l l' :
  listeners_of e (l ++ l') = listeners_of e l ++ listeners_of e l'.
Proof. unfold listeners_of. by rewrite List.filter_app, List.map_app. Qed.

Lemma listeners_of_single e e' x :
  listeners_of e [(e', x)] = if String.eqb e' e then [x] else [].
Proof. unfold listeners_of. simpl. by destruct (String.eqb e' e). Qed.

Lemma live_grow (S D : nat -> Prop) c h e act s s' :
  live c h e act s -> grow S D s s' -> ~ S c -> ~ D h -> live c h e act s'.
Proof.
  intros [Ht Hl Ho Hts Hf Hc Hh Hu Hk] Hg HS HD.
  constructor.
  - by apply (g_old _ _ _ _ Hg).
  - by rewrite (g_emitter _ _ _ _ Hg).
  - by rewrite (g_emitter _ _ _ _ Hg).
  - intros h' d e' c' act' Hx.
    destruct (g_new _ _ _ _ Hg _ _ Hx) as [Hold | (_ & _ & d' & [=])]; eauto.
  - by rewrite (g_fetching _ _ _ _ Hg).
  - by rewrite (g_nextCall _ _ _ _ Hg).
  - pose proof (g_handle _ _ _ _ Hg). lia.
  - by rewrite (grow_settlements S D s s' c Hg HS).
  - by rewrite (g_seq _ _ _ _ Hg).
Qed.

Lemma live_shrink c h e act s s' :
  live c h e act s ->
  listeners_of e (responseEmitter (client s')) = listeners_of e (responseEmitter (client s)) ->
  (forall e' l, In (e', l) (responseEmitter (client s')) -> In (e', l) (responseEmitter (client s))) ->
  timers s' !! h = timers s !! h ->
  (forall h' x, timers s' !! h' = Some x -> timers s !! h' = Some x) ->
  (forall c' x, fetching s' !! c' = Some x -> fetching s !! c' = Some x) ->
  wsSequence (client s') = wsSequence (client s) ->
  nextCall s' = nextCall s -> nextHandle s' = nextHandle s -> trace s' = trace s ->
  live c h e act s'.
Proof.
  intros [Ht Hl Ho Hts Hf Hc Hh Hu Hk] El Ie Eth It If Es En Eh Et.
  constructor; rewrite ?El, ?Eth, ?Es, ?En, ?Eh; eauto.
  - destruct (fetching s' !! c) eqn:Hx; [|reflexivity].
    apply If in Hx. congruence.
  - unfold settlements. by rewrite Et.
Qed.

Lemma live_requested who endpoint body now c h e act s s' :
  Requested account url_ok who endpoint body now s s' ->
  live c h e act s -> live c h e act s'.
Proof.
  intros [Hh -> | k Hh Hw Hk -> | Hh Hw ->] Hlv;
    pose proof Hlv as [Ht Hl Ho Hts Hf Hc Hhd Hu Hk'].
  - constructor; simpl; auto; try lia.
    + rewrite lookup_insert_ne by lia. exact Hf.
    + rewrite settlements_app. simpl. by rewrite app_nil_r.
  - assert (Hfresh : make_echo now (wsSequence (client s)) <> e).
    { eapply token_not_reissued; [exact Hk' | lia]. }
    constructor; simpl; auto; try lia.
    + rewrite lookup_insert_ne by lia. exact Ht.
    + rewrite listeners_of_app, Hl, listeners_of_single.
      apply String.eqb_neq in Hfresh. by rewrite Hfresh.
    + intros e' l' Hin Hne. apply in_app_or in Hin as [Hin | [[= <- <-]|[]]];
        [by apply (Ho e')|].
      simpl. split; lia.
    + intros h' d e' c' act'. rewrite lookup_insert. case_decide.
      * intros [= <- <- <- <-] _. split; [lia | exact Hfresh].
      * apply Hts.
    + rewrite settlements_app. simpl. rewrite app_nil_r.
      match goal with |- settlements c ?st = _ =>
        change (settlements c st) with
          (settlements c (emit_obs (SetTimeout (nextHandle s) 10000%Q
                                      (ApiTimeout (make_echo now (wsSequence (client s)))
                                         (nextCall s) (Js.strip_leading_slash endpoint))) s))
      end.
      rewrite settlements_app. simpl. by rewrite app_nil_r.
    + destruct Hk' as (now0 & seq0 & -> & Hlt). exists now0, seq0.
      split; [reflexivity|]. pose proof (js_succ_le (wsSequence (client s))). lia.
  - set (s0 := bump_call _).
    assert (Hlv0 : live c h e act s0) by (constructor; simpl; auto; lia).
    apply (live_grow (eq (nextCall s)) none c h e act s0 _ Hlv0
             (grow_settle none (nextCall s) (Rejected no_transport_error) s0)); [lia|].
    unfold none. tauto.
Qed.

Lemma live_step c h e act now ev s :
  live c h e act s -> answers e h ev = false ->
  live c h e act (step account url_ok s (now, ev)).
Proof.
  intros Hlv Hans.
  destruct (step_kinds now ev s) as
    [Hg | s0 who ep body Hg -> | k p e' -> Hp _ -> | h' d e' c' act' -> Hh -> | c' r _ Hc ->].
  - apply (live_grow none none c h e act s); auto.
  - apply (live_requested _ _ _ _ _ _ _ _ _ _ (request_cases who ep body now s0)).
    apply (live_grow none none c h e act s); auto.
  - simpl in Hans. rewrite Hp in Hans. apply String.eqb_neq in Hans.
    set (s0 := with_client _ s).
    assert (Hlv0 : live c h e act s0).
    { apply (live_shrink c h e act s); auto; simpl.
      - by apply listeners_of_removeAll.
      - intros e'' l Hin. by apply In_removeAll in Hin as [? _]. }
    apply (live_grow _ _ c h e act s0 _ Hlv0
             (grow_fold_listeners (p_response p)
                (listeners_of e' (responseEmitter (client s))) s0)).
    + intros Hin. apply list_elem_of_In, in_map_iff in Hin as (l & Hl & Hin).
      apply In_listeners_of in Hin.
      destruct (lv_others _ _ _ _ _ Hlv _ _ Hin Hans). congruence.
    + intros Hin. apply list_elem_of_In, in_map_iff in Hin as (l & Hl & Hin).
      apply In_listeners_of in Hin.
      destruct (lv_others _ _ _ _ _ Hlv _ _ Hin Hans). congruence.
  - simpl in Hans. apply Nat.eqb_neq in Hans.
    destruct (lv_timers _ _ _ _ _ Hlv _ _ _ _ _ Hh Hans) as [Hcc Hee].
    set (s0 := with_client _ _).
    assert (Hlv0 : live c h e act s0).
    { apply (live_shrink c h e act s); auto; simpl.
      - apply listeners_of_removeAll. congruence.
      - intros e'' l Hin. by apply In_removeAll in Hin as [? _].
      - apply lookup_delete_ne. congruence.
      - intros h'' x Hx. apply lookup_delete_Some in Hx. tauto. }
    apply (live_grow _ _ c h e act s0 _ Hlv0
             (grow_settle none c' (Rejected (timeout_error act')) s0)); [congruence|].
    unfold none. tauto.
  - set (s0 := with_fetching _ s).
    assert (Hlv0 : live c h e act s0).
    { apply (live_shrink c h e act s); auto; simpl.
      intros c'' x Hx. apply lookup_delete_Some in Hx. tauto. }
    apply (live_grow _ _ c h e act s0 _ Hlv0
             (grow_settle none c' (outcome_of_http r) s0)).
    + intros <-. destruct Hc as [x Hx]. rewrite (lv_fetch _ _ _ _ _ Hlv) in Hx. discriminate.
    + unfold none. tauto.
Qed.

Lemma live_run c h e act es s :
  unanswered e h es = true -> live c h e act s ->
  live c h e act (run account url_ok es s).
Proof.
  revert s. induction es as [|[now ev] es IH]; intros s Hun Hlv; [assumption|].
  simpl in Hun. apply andb_true_iff in Hun as [Hev Hun].
  apply negb_true_iff in Hev.
  simpl. apply IH; [assumption|]. by apply live_step.
Qed.

(** *** Issuing, and answering, a socket request *)

Lemma dormant_grow_state (S D : nat -> Prop) c e s s' :
  dormant c e s -> grow S D s s' -> dormant c e s'.
Proof.
  intros [Hl Ht Hf Hc Hk] Hg.
  constructor.
  - by rewrite (g_emitter _ _ _ _ Hg).
  - intros h' d e' c' act' Hx.
    destruct (g_new _ _ _ _ Hg _ _ Hx) as [Hold | (_ & _ & d' & [=])]; eauto.
  - by rewrite (g_fetching _ _ _ _ Hg).
  - by rewrite (g_nextCall _ _ _ _ Hg).
  - by rewrite (g_seq _ _ _ _ Hg).
Qed.

(** Settling a pending call from the state in which its listener and its
    timer have been removed ends it, with that one settlement. *)
Lemma live_answered c h e act o s s0 :
  live c h e act s ->
  responseEmitter (client s0) = removeAllListeners e (responseEmitter (client s)) ->
  timers s0 = delete h (timers s) ->
  fetching s0 = fetching s -> nextCall s0 = nextCall s ->
  wsSequence (client s0) = wsSequence (client s) -> trace s0 = trace s ->
  dormant c e (settle account url_ok c o s0) /\
  settlements c (settle account url_ok c o s0) = [o].
Proof.
  intros [Ht Hl Ho Hts Hf Hc Hh Hu Hk] Ee Et Ef En Es Etr.
  split.
  - apply (dormant_grow_state (eq c) none c e s0); [|apply grow_settle].
    constructor; rewrite ?Ee, ?Et, ?Ef, ?En, ?Es; auto.
    + intros e' l' Hin. apply In_removeAll in Hin as [Hin Hne].
      split; [|assumption]. by destruct (Ho e' l' Hin Hne).
    + intros h' d e' c' act' Hx. apply lookup_delete_Some in Hx as [Hne Hx].
      destruct (Hts _ _ _ _ _ Hx); auto.
  - rewrite settle_settlements. unfold settlements. rewrite Etr.
    fold (settlements c s). by rewrite Hu.
Qed.

Lemma tokens_fresh_unknown now seq l :
  tokens_fresh seq l -> ~ In (make_echo now seq) (map fst l).
Proof.
  intros [Hf _] Hin. rewrite Forall_forall in Hf.
  apply list_elem_of_In in Hin.
  destruct (Hf _ Hin) as (now' & seq' & Heq & Hlt).
  apply make_echo_inj in Heq as [_ ->]. lia.
Qed.

(** A call issued over the socket is pending. *)
Lemma live_issue who endpoint body now s :
  wf s -> tok_inv s ->
  (wsSequence (client s) < 2 ^ 53)%N ->
  Js.truthy (c_httpUrl (client s)) = false -> ws_is_open s = true ->
  live (nextCall s) (nextHandle s) (make_echo now (wsSequence (client s)))
    (Js.strip_leading_slash endpoint)
    (request account url_ok who endpoint body now s).
Proof.
  intros Hwf Htok Hlt Hh Hw.
  destruct (request_cases who endpoint body now s) as [Hh' _ | k _ _ Hk -> | _ Hw' _];
    [congruence | | congruence].
  pose proof (Htok Hlt) as Hfresh.
  pose proof (tokens_fresh_unknown now _ _ Hfresh) as Hnew.
  constructor; simpl; try lia.
  - apply lookup_insert_eq.
  - rewrite listeners_of_app, listeners_of_single, String.eqb_refl.
    by rewrite (listeners_of_unknown _ _ Hnew).
  - intros e' l' Hin Hne. apply in_app_or in Hin as [Hin | [[= <- <-]|[]]]; [|congruence].
    destruct (wf_listener _ Hwf _ _ Hin). split; lia.
  - intros h' d e' c' act'. rewrite lookup_insert. case_decide; [congruence|].
    intros Hx _. split.
    + pose proof (wf_timer_call _ Hwf _ _ _ _ _ Hx). lia.
    + intros ->.
      destruct (wf_timer_token _ Hwf Hlt _ _ _ _ _ Hx) as (now' & seq' & Heq & Hlt').
      apply make_echo_inj in Heq as [_ Heq]. lia.
  - destruct (fetching s !! nextCall s) eqn:Hx; [|reflexivity].
    apply (wf_fetch _ Hwf) in Hx. lia.
  - rewrite settlements_app. simpl. rewrite app_nil_r.
    match goal with |- settlements ?c ?st = _ =>
      change (settlements c st) with
        (settlements c (emit_obs (SetTimeout (nextHandle s) 10000%Q
                                    (ApiTimeout (make_echo now (wsSequence (client s)))
                                       (nextCall s) (Js.strip_leading_slash endpoint))) s))
    end.
    rewrite settlements_app. simpl. rewrite app_nil_r.
    apply (wf_settled _ Hwf). lia.
  - exists now, (wsSequence (client s)). split; [reflexivity|].
    rewrite js_succ_small by assumption. lia.
Qed.

Lemma live_timeout_step c h e act now s :
  live c h e act s ->
  step account url_ok s (now, TimerFires h) =
    settle account url_ok c (Rejected (timeout_error act))
      (with_client (fun cl => set_emitter (removeAllListeners e (responseEmitter cl)) cl)
         (with_timers (delete h) s)).
Proof.
  intros Hlv. unfold step; cbn [fst snd]. unfold fire_timer.
  by rewrite (lv_timer _ _ _ _ _ Hlv).
Qed.

Lemma make_echo_truthy now seq : Js.truthy (Some (make_echo now seq)) = true.
Proof. reflexivity. Qed.

Lemma live_response_step c h e act now k p s :
  live c h e act s -> delivers s k = true -> p_echo p = Some e ->
  step account url_ok s (now, SocketEv k (SockMessage (Some p))) =
    settle account url_ok c (outcome_of_response (p_response p))
      (with_timers (delete h)
         (with_client (fun cl => set_emitter (removeAllListeners e (responseEmitter cl)) cl) s)).
Proof.
  intros Hlv Hdel Hp. unfold step; cbn [fst snd]. unfold socket_event.
  unfold delivers in Hdel.
  destruct (sockets s !! k) as [sk|]; [|discriminate].
  apply andb_true_iff in Hdel as [Hli Hrs]. rewrite Hli.
  assert (Hm : on_message account url_ok (Some p) s =
               settle account url_ok c (outcome_of_response (p_response p))
                 (with_timers (delete h)
                    (with_client
                       (fun cl => set_emitter (removeAllListeners e (responseEmitter cl)) cl) s))).
  { unfold on_message, handlePayload, handleWsResponse. rewrite Hp.
    destruct (lv_token _ _ _ _ _ Hlv) as (now0 & seq0 & He & _).
    assert (Htr : Js.truthy (Some e) = true) by (rewrite He; apply make_echo_truthy).
    rewrite Htr. simpl. unfold emit. by rewrite (lv_listener _ _ _ _ _ Hlv). }
  destruct (readyState sk); try discriminate; exact Hm.
Qed.

End SessionFacts.





(** C1.  Every call made through [request] goes to exactly one place.
    With an HTTP endpoint configured it is posted over HTTP and nothing is
    written to the socket or registered for a socket response, whatever
    the state of the socket.  With no HTTP endpoint and the socket open it
    is written to the socket as a frame carrying a fresh token.  With
    neither, it is rejected at once with the no-transport error and
    nothing is written to either transport. *)
Theorem C1_transport_precedence
    (account : Types.NapCatAccount) (url_ok : string -> bool)
    (who : Session.Caller) (endpoint body : string) (now : N) (s : Session.State) :
  let s' := Session.request account url_ok who endpoint body now s in
  let c := Session.nextCall s in
  let cl := Session.client s in
  (Js.truthy (Session.c_httpUrl cl) = true ->
   Session.trace s' =
     (Session.trace s ++
        [Session.HttpPost c (default "" (Session.c_httpUrl cl) ++ endpoint)
           (Session.bearer (Session.c_token cl)) body])%list /\
   Session.responseEmitter (Session.client s') = Session.responseEmitter cl /\
   Session.timers s' = Session.timers s) /\
  (Js.truthy (Session.c_httpUrl cl) = false -> Session.ws_is_open s = true ->
   exists k,
     Session.c_ws cl = Some k /\
     let e := Session.make_echo now (Session.wsSequence cl) in
     let act := Js.strip_leading_slash endpoint in
     Session.trace s' =
       (Session.trace s ++
          [Session.SetTimeout (Session.nextHandle s) 10000%Q (Session.ApiTimeout e c act);
           Session.WsSend k {| Session.action := act; Session.params := body;
                               Session.echo := e |}])%list /\
     Session.responseEmitter (Session.client s') =
       (Session.responseEmitter cl ++
          [(e, {| Session.l_call := c; Session.l_timer := Session.nextHandle s |})])%list) /\
  (Js.truthy (Session.c_httpUrl cl) = false -> Session.ws_is_open s = false ->
   Session.settlements c s' =
     (Session.settlements c s ++ [Session.Rejected Session.no_transport_error])%list /\
   Session.responseEmitter (Session.client s') = Session.responseEmitter cl /\
   Forall (fun o => wire o = false)
     (drop (length (Session.trace s)) (Session.trace s'))).
Proof.
  intros s' c cl. subst s' c cl.
  destruct (request_cases account url_ok who endpoint body now s)
    as [Hh -> | k Hh Hw Hk -> | Hh Hw ->];
    (split; [|split]); try (intros; congruence).
  - intros _. simpl. auto.
  - intros _ _. exists k. simpl. rewrite <- app_assoc. auto.
  - intros _ _.
    set (s0 := Session.bump_call _).
    pose proof (grow_settle account url_ok none (Session.nextCall s)
                  (Session.Rejected Session.no_transport_error) s0) as Hg.
    split; [|split].
    + exact (settle_settlements account url_ok _ _ s0).
    + apply (g_emitter _ _ _ _ Hg).
    + destruct (g_trace _ _ _ _ Hg) as (obs & -> & Ha).
      change (Session.trace s0) with (Session.trace s).
      rewrite drop_app_length.
      eapply Forall_impl; [exact Ha|].
      intros o. destruct o as [| | | ? ? []| | | | | | | |]; simpl; tauto.
Qed.


Lemma C1_transport_precedence_witness :
  (Js.truthy (Session.c_httpUrl (Session.client sample_http_state)) = true /\
   Session.ws_is_open sample_http_state = true /\
   Session.trace (Session.request http_account accept_url Session.External
                    "/send_msg" "{}" 5 sample_http_state) =
     [Session.HttpPost 0 "http://127.0.0.1:3000/send_msg" (Some "Bearer secret") "{}"]) /\
  (Js.truthy (Session.c_httpUrl (Session.client sample_ws_state)) = false /\
   Session.ws_is_open sample_ws_state = true /\
   Session.trace (Session.request ws_only_account accept_url Session.External
                    "/send_msg" "{}" 5 sample_ws_state) =
     [Session.SetTimeout 0 10000%Q (Session.ApiTimeout "api_5_0" 0 "send_msg");
      Session.WsSend 0 {| Session.action := "send_msg"; Session.params := "{}";
                          Session.echo := "api_5_0" |}]) /\
  (Js.truthy (Session.c_httpUrl (Session.client (Session.init ws_only_account))) = false /\
   Session.ws_is_open (Session.init ws_only_account) = false /\
   Session.settlements 0
     (Session.request ws_only_account accept_url Session.External
        "/send_msg" "{}" 5 (Session.init ws_only_account)) =
     [Session.Rejected Session.no_transport_error]).
Proof.
  split; [|split].
  - split; [reflexivity|]. split; [reflexivity|].
    exact (proj1 (proj1 (C1_transport_precedence http_account accept_url Session.External
                           "/send_msg" "{}" 5 sample_http_state) eq_refl)).
  - split; [reflexivity|]. split; [reflexivity|].
    destruct (proj1 (proj2 (C1_transport_precedence ws_only_account accept_url
                              Session.External "/send_msg" "{}" 5 sample_ws_state))
                eq_refl eq_refl) as (k & Hk & Ht & _).
    injection Hk as <-. exact Ht.
  - split; [reflexivity|]. split; [reflexivity|].
    exact (proj1 (proj2 (proj2 (C1_transport_precedence ws_only_account accept_url
                                  Session.External "/send_msg" "{}" 5
                                  (Session.init ws_only_account)))
                   eq_refl eq_refl)).
Defined.

(** ** What becomes of a pending request *)

Section PendingFate.
Import Types Session.
Local Open Scope list_scope.

Variable account : NapCatAccount.
Variable url_ok : string -> bool.

Lemma run_snoc es1 ne es2 s :
  run account url_ok (es1 ++ ne :: es2) s =
  run account url_ok es2 (step account url_ok (run account url_ok es1 s) ne).
Proof. unfold run. by rewrite fold_left_app. Qed.

Lemma unanswered_snoc e h es1 ne es2 :
  unanswered e h es1 = true -> answers e h (snd ne) = false ->
  unanswered e h es2 = true -> unanswered e h (es1 ++ ne :: es2) = true.
Proof.
  unfold unanswered. intros H1 Hn H2. rewrite forallb_app. cbn [forallb].
  by rewrite H1, Hn, H2.
Qed.

(** A call issued over the socket in a state the session has reached is
    still pending after any events that do not answer it. *)
Lemma issued_stays_live es0 who endpoint body now es :
  let s := run account url_ok es0 (init account) in
  Js.truthy (c_httpUrl (client s)) = false -> ws_is_open s = true ->
  (wsSequence (client s) < 2 ^ 53)%N ->
  unanswered (make_echo now (wsSequence (client s))) (nextHandle s) es = true ->
  live (nextCall s) (nextHandle s) (make_echo now (wsSequence (client s)))
    (Js.strip_leading_slash endpoint)
    (run account url_ok es (request account url_ok who endpoint body now s)).
Proof.
  intros s Hh Hw Hlt Hun.
  assert (Hwf : wf s) by apply wf_run, wf_init.
  assert (Htok : tok_inv s) by apply tok_inv_run, tok_inv_init.
  apply live_run; [exact Hun|]. by apply live_issue.
Qed.

(** What a pending call can expect: it is unsettled, its timeout is
    armed and its token is in the table; the timeout, when it fires,
    rejects it, and a frame carrying its token, when one is delivered,
    settles it with the outcome of the response; either way it is never
    settled again. *)
Lemma live_fate c h e act s :
  live c h e act s ->
  settlements c s = [] /\
  timers s !! h = Some (10000%Q, ApiTimeout e c act) /\
  In e (pending_tokens s) /\
  (forall nowT es,
      settlements c (run account url_ok es (step account url_ok s (nowT, TimerFires h))) =
        [Rejected (timeout_error act)]) /\
  (forall nowR k p es,
      p_echo p = Some e -> delivers s k = true ->
      settlements c
        (run account url_ok es
           (step account url_ok s (nowR, SocketEv k (SockMessage (Some p))))) =
        [outcome_of_response (p_response p)]).
Proof.
  intros Hl. split; [apply (lv_unsettled _ _ _ _ _ Hl)|].
  split; [apply (lv_timer _ _ _ _ _ Hl)|]. split; [|split].
  - unfold pending_tokens. apply in_map_iff.
    exists (e, {| l_call := c; l_timer := h |}). split; [reflexivity|].
    apply In_listeners_of. rewrite (lv_listener _ _ _ _ _ Hl). by left.
  - intros nowT es.
    destruct (live_answered account url_ok c h e act (Rejected (timeout_error act)) s
                (with_client
                   (fun cl => set_emitter (removeAllListeners e (responseEmitter cl)) cl)
                   (with_timers (delete h) s)) Hl)
      as [Hd Hs]; try reflexivity.
    rewrite <- (live_timeout_step account url_ok c h e act nowT s Hl) in Hd, Hs.
    destruct (dormant_run account url_ok c e es _ Hd) as [_ Hs'].
    by rewrite Hs'.
  - intros nowR k p es Hp Hdel.
    destruct (live_answered account url_ok c h e act (outcome_of_response (p_response p)) s
                (with_timers (delete h)
                   (with_client
                      (fun cl => set_emitter (removeAllListeners e (responseEmitter cl)) cl)
                      s)) Hl)
      as [Hd Hs]; try reflexivity.
    rewrite <- (live_response_step account url_ok c h e act nowR k p s Hl Hdel Hp) in Hd, Hs.
    destruct (dormant_run account url_ok c e es _ Hd) as [_ Hs'].
    by rewrite Hs'.
Qed.



End PendingFate.

(** C8 as stated fails: two socket requests are pending (tokens
    [api_101_0] and [api_102_1]) when the socket closes; after the close
    both are still in the table, neither promise has been settled, and
    their timers are still armed. *)
Lemma C8_counterexample :
  let s := Session.step ws_only_account accept_url state_one_call_pending
             (103%N, Session.SocketEv 0 Session.SockClose) in
  Session.pending_tokens state_one_call_pending = ["api_101_0"; "api_102_1"] /\
  Session.pending_tokens s = ["api_101_0"; "api_102_1"] /\
  Session.settlements 0 s = [] /\
  Session.settlements 1 s = [] /\
  Session.timers s !! 2 =
    Some (10000%Q, Session.ApiTimeout "api_102_1" 1 "send_msg").
Proof. vm_compute. repeat split; reflexivity. Qed.

(** C8, amended.  The close of the socket destroys no pending request:
    the transition leaves the table of pending requests, their armed
    timers and every promise as they were, and only detaches the socket
    (a handler that runs clears the client's socket, so that a later call
    without an HTTP endpoint finds no transport).  A pending token leaves
    the table only in a transition that delivers a response frame
    carrying that token, or that runs the timeout of a request with that
    token.  A request issued over the socket (in a state the session has
    reached, counter below 2^53) that is still pending when a socket
    closes stays pending and unsettled, with its 10000 ms timeout armed,
    as long as neither happens.  It is then settled once and for all: by
    its timeout, with the timeout error, or by the first frame carrying
    its token that is delivered on any socket that delivers frames (the
    socket opened by a reconnect for instance: the listeners belong to
    the client, not to the socket), with the outcome of that response. *)
Theorem C8_close_keeps_pending_requests
    (account : Types.NapCatAccount) (url_ok : string -> bool) :
  (forall (now : N) (k : nat) (s : Session.State),
      let s' := Session.step account url_ok s (now, Session.SocketEv k Session.SockClose) in
      Session.responseEmitter (Session.client s') =
        Session.responseEmitter (Session.client s) /\
      (forall c, Session.settlements c s' = Session.settlements c s) /\
      (forall h d e c act,
          h < Session.nextHandle s ->
          Session.timers s !! h = Some (d, Session.ApiTimeout e c act) ->
          Session.timers s' !! h = Some (d, Session.ApiTimeout e c act))) /\
  (forall s : Session.State,
      Session.c_ws (Session.client (Session.on_close account s)) = None /\
      Session.ws_is_open (Session.on_close account s) = false) /\
  (forall (now : N) (ev : Session.Event) (s : Session.State) (e : string),
      In e (Session.pending_tokens s) ->
      ~ In e (Session.pending_tokens (Session.step account url_ok s (now, ev))) ->
      (exists k p, ev = Session.SocketEv k (Session.SockMessage (Some p)) /\
                   Session.p_echo p = Some e) \/
      (exists h d c act, ev = Session.TimerFires h /\
                         Session.timers s !! h = Some (d, Session.ApiTimeout e c act))) /\
  (forall (es0 : list (N * Session.Event)) (who : Session.Caller) (endpoint body : string)
          (now : N) (es1 : list (N * Session.Event)) (nowC : N) (k : nat)
          (es2 : list (N * Session.Event)),
      let s := Session.run account url_ok es0 (Session.init account) in
      let c := Session.nextCall s in
      let h := Session.nextHandle s in
      let e := Session.make_echo now (Session.wsSequence (Session.client s)) in
      let act := Js.strip_leading_slash endpoint in
      let s1 := Session.request account url_ok who endpoint body now s in
      let s2 := Session.run account url_ok es2
                  (Session.step account url_ok (Session.run account url_ok es1 s1)
                     (nowC, Session.SocketEv k Session.SockClose)) in
      Js.truthy (Session.c_httpUrl (Session.client s)) = false ->
      Session.ws_is_open s = true ->
      (Session.wsSequence (Session.client s) < 2 ^ 53)%N ->
      unanswered e h es1 = true -> unanswered e h es2 = true ->
      Session.settlements c s2 = [] /\
      Session.timers s2 !! h = Some (10000%Q, Session.ApiTimeout e c act) /\
      In e (Session.pending_tokens s2) /\
      (forall nowT es,
          Session.settlements c
            (Session.run account url_ok es
               (Session.step account url_ok s2 (nowT, Session.TimerFires h))) =
            [Session.Rejected (Session.timeout_error act)]) /\
      (forall nowR k' p es,
          Session.p_echo p = Some e -> delivers s2 k' = true ->
          Session.settlements c
            (Session.run account url_ok es
               (Session.step account url_ok s2
                  (nowR, Session.SocketEv k' (Session.SockMessage (Some p))))) =
            [Session.outcome_of_response (Session.p_response p)])).
Proof.
  split; [|split; [|split]].
  - intros now k s s'. subst s'.
    pose proof (close_quiet account url_ok now k s) as Hg.
    split; [apply (g_emitter _ _ _ _ Hg)|]. split.
    + intros c. apply (grow_settlements none none _ _ c Hg). unfold none. tauto.
    + intros h d e c act Hh Hx. apply (g_old _ _ _ _ Hg); auto.
  - intros s.
    assert (Hc : Session.c_ws (Session.client (Session.on_close account s)) = None).
    { unfold Session.on_close. cbv zeta.
      destruct (negb _); [|reflexivity].
      by rewrite scheduleReconnect_client. }
    split; [exact Hc|]. unfold Session.ws_is_open. by rewrite Hc.
  - intros now ev s e. apply step_removes_token.
  - intros es0 who endpoint body now es1 nowC k es2 s c h e act s1 s2 Hh Hw Hlt Hu1 Hu2.
    apply (live_fate account url_ok). unfold s2.
    rewrite <- run_snoc.
    apply (issued_stays_live account url_ok es0 who endpoint body now); try assumption.
    by apply unanswered_snoc.
Qed.

Lemma C8_close_keeps_pending_requests_witness :
  (2 < Session.nextHandle state_one_call_pending /\
   Session.timers state_one_call_pending !! 2 =
     Some (10000%Q, Session.ApiTimeout "api_102_1" 1 "send_msg") /\
   Session.timers
     (Session.step ws_only_account accept_url state_one_call_pending
        (103%N, Session.SocketEv 0 Session.SockClose)) !! 2 =
     Some (10000%Q, Session.ApiTimeout "api_102_1" 1 "send_msg")) /\
  (In "api_102_1" (Session.pending_tokens state_one_call_pending) /\
   ~ In "api_102_1"
       (Session.pending_tokens
          (Session.step ws_only_account accept_url state_one_call_pending
             (112102%N, Session.TimerFires 2))) /\
   ((exists k p, Session.TimerFires 2 = Session.SocketEv k (Session.SockMessage (Some p)) /\
                 Session.p_echo p = Some "api_102_1") \/
    (exists h d c act, Session.TimerFires 2 = Session.TimerFires h /\
                       Session.timers state_one_call_pending !! h =
                         Some (d, Session.ApiTimeout "api_102_1" c act)))) /\
  (let s := Session.run ws_only_account accept_url socket_opened
              (Session.init ws_only_account) in
   let c := Session.nextCall s in
   let h := Session.nextHandle s in
   let e := Session.make_echo 102 (Session.wsSequence (Session.client s)) in
   let act := Js.strip_leading_slash "/send_msg" in
   let s1 := Session.request ws_only_account accept_url Session.External
               "/send_msg" "{}" 102 s in
   let s2 := Session.run ws_only_account accept_url reconnected
               (Session.step ws_only_account accept_url
                  (Session.run ws_only_account accept_url login_answered s1)
                  (105%N, Session.SocketEv 0 Session.SockClose)) in
   let frame := ok_response "api_102_1" "{}" in
   (c = 1 /\ h = 2 /\ e = "api_102_1" /\ act = "send_msg" /\
    Js.truthy (Session.c_httpUrl (Session.client s)) = false /\
    Session.ws_is_open s = true /\
    (Session.wsSequence (Session.client s) < 2 ^ 53)%N /\
    unanswered e h login_answered = true /\
    unanswered e h reconnected = true /\
    Session.p_echo frame = Some e /\
    delivers s2 0 = false /\ delivers s2 4 = true) /\
   Session.settlements c s2 = [] /\
   Session.settlements c
     (Session.run ws_only_account accept_url []
        (Session.step ws_only_account accept_url s2 (10102%N, Session.TimerFires h))) =
     [Session.Rejected (Session.timeout_error act)] /\
   Session.settlements c
     (Session.run ws_only_account accept_url []
        (Session.step ws_only_account accept_url s2
           (3107%N, Session.SocketEv 4 (Session.SockMessage (Some frame))))) =
     [Session.outcome_of_response (Session.p_response frame)]).
Proof.
  assert (Hin : In "api_102_1" (Session.pending_tokens state_one_call_pending)).
  { vm_compute. right. left. reflexivity. }
  assert (Hout : ~ In "api_102_1"
                     (Session.pending_tokens
                        (Session.step ws_only_account accept_url state_one_call_pending
                           (112102%N, Session.TimerFires 2)))).
  { vm_compute. intros [H|[]]. discriminate. }
  assert (Hlt : 2 < Session.nextHandle state_one_call_pending) by (vm_compute; lia).
  assert (Ht : Session.timers state_one_call_pending !! 2 =
               Some (10000%Q, Session.ApiTimeout "api_102_1" 1 "send_msg"))
    by (vm_compute; reflexivity).
  split; [|split].
  - split; [exact Hlt|]. split; [exact Ht|].
    exact (proj2 (proj2 (proj1 (C8_close_keeps_pending_requests ws_only_account accept_url)
                           103%N 0 state_one_call_pending))
             2 _ _ _ _ Hlt Ht).
  - split; [exact Hin|]. split; [exact Hout|].
    exact (proj1 (proj2 (proj2 (C8_close_keeps_pending_requests ws_only_account accept_url)))
             112102%N (Session.TimerFires 2) state_one_call_pending "api_102_1" Hin Hout).
  - intros s c h e act s1 s2 frame.
    assert (Hh : Js.truthy (Session.c_httpUrl (Session.client s)) = false)
      by (vm_compute; reflexivity).
    assert (Hw : Session.ws_is_open s = true) by (vm_compute; reflexivity).
    assert (Hc : (Session.wsSequence (Session.client s) < 2 ^ 53)%N)
      by (vm_compute; reflexivity).
    assert (Hu1 : unanswered e h login_answered = true) by (vm_compute; reflexivity).
    assert (Hu2 : unanswered e h reconnected = true) by (vm_compute; reflexivity).
    assert (Hp : Session.p_echo frame = Some e) by (vm_compute; reflexivity).
    assert (Hd0 : delivers s2 0 = false) by (vm_compute; reflexivity).
    assert (Hd4 : delivers s2 4 = true) by (vm_compute; reflexivity).
    split.
    { split; [vm_compute; reflexivity|]. split; [vm_compute; reflexivity|].
      split; [vm_compute; reflexivity|]. split; [vm_compute; reflexivity|].
      repeat split; assumption. }
    destruct (proj2 (proj2 (proj2 (C8_close_keeps_pending_requests ws_only_account
                                     accept_url)))
                socket_opened Session.External "/send_msg" "{}" 102%N login_answered
                105%N 0 reconnected Hh Hw Hc Hu1 Hu2) as (H1 & _ & _ & H4 & H5).
    split; [exact H1|]. split.
    + exact (H4 10102%N []).
    + exact (H5 3107%N 4 frame [] Hp Hd4).
Defined.




(** C5.  In every state the session reaches while its token counter is
    below 2^53 (the range in which [wsSequence++] is exact), the tokens of
    the pending socket requests are pairwise distinct, each being
    [api_<issue time>_<counter>] for an earlier value of the counter.  A
    frame whose token matches no pending request changes neither the
    table of pending requests nor the timers, and settles no call. *)
Theorem C5_tokens_distinct
    (account : Types.NapCatAccount) (url_ok : string -> bool) :
  (forall es : list (N * Session.Event),
      let s := Session.run account url_ok es (Session.init account) in
      (Session.wsSequence (Session.client s) < 2 ^ 53)%N ->
      NoDup (Session.pending_tokens s) /\
      Forall (token_below (Session.wsSequence (Session.client s)))
        (Session.pending_tokens s)) /\
  (forall (now : N) (k : nat) (p : Session.Payload) (e : string) (s : Session.State),
      Session.p_echo p = Some e ->
      ~ In e (Session.pending_tokens s) ->
      let s' := Session.step account url_ok s
                  (now, Session.SocketEv k (Session.SockMessage (Some p))) in
      Session.responseEmitter (Session.client s') =
        Session.responseEmitter (Session.client s) /\
      Session.timers s' = Session.timers s /\
      (forall c, Session.settlements c s' = Session.settlements c s)).
Proof.
  split.
  - intros es s Hlt. subst s.
    destruct (tok_inv_run account url_ok es _ (tok_inv_init account) Hlt) as [Hf Hn].
    auto.
  - intros now k p e s Hp Hn s'. subst s'.
    destruct (unknown_frame_quiet account url_ok now k p e s Hp Hn) as [-> | [-> | ->]];
      repeat split; try reflexivity;
      intros c; rewrite settlements_app; simpl; by rewrite app_nil_r.
Qed.

Lemma C5_tokens_distinct_witness :
  ((Session.wsSequence (Session.client state_one_call_pending) < 2 ^ 53)%N /\
   NoDup (Session.pending_tokens state_one_call_pending) /\
   Forall (token_below (Session.wsSequence (Session.client state_one_call_pending)))
     (Session.pending_tokens state_one_call_pending)) /\
  (Session.p_echo (ok_response "api_99_7" "{}") = Some "api_99_7" /\
   ~ In "api_99_7" (Session.pending_tokens state_one_call_pending) /\
   let s' := Session.step ws_only_account accept_url state_one_call_pending
               (103%N, Session.SocketEv 0
                         (Session.SockMessage (Some (ok_response "api_99_7" "{}")))) in
   Session.responseEmitter (Session.client s') =
     Session.responseEmitter (Session.client state_one_call_pending) /\
   Session.timers s' = Session.timers state_one_call_pending /\
   (forall c, Session.settlements c s' = Session.settlements c state_one_call_pending)).
Proof.
  assert (Hlt : (Session.wsSequence (Session.client state_one_call_pending) < 2 ^ 53)%N)
    by (vm_compute; reflexivity).
  assert (Hn : ~ In "api_99_7" (Session.pending_tokens state_one_call_pending)).
  { vm_compute. intros [H|[H|[]]]; discriminate. }
  split.
  - split; [exact Hlt|].
    exact (proj1 (C5_tokens_distinct ws_only_account accept_url) one_call_pending Hlt).
  - split; [reflexivity|]. split; [exact Hn|].
    exact (proj2 (C5_tokens_distinct ws_only_account accept_url)
             103%N 0 (ok_response "api_99_7" "{}") "api_99_7" state_one_call_pending
             eq_refl Hn).
Defined.

(** C2.  A call is issued over the socket in a state the session has
    reached (counter below 2^53): its timeout is armed for 10000 ms.  As
    long as neither a frame carrying its token arrives nor its timer
    fires, its promise is unsettled.  When the timer fires the promise is
    rejected with the timeout error, which differs from every protocol
    error [NapCat API error: ...]; whatever happens afterwards, late or
    repeated frames with that token included, the promise is never settled
    again, and such a frame leaves the table of pending requests, the
    timers and every promise untouched.  Likewise, if a frame with the
    token is delivered before the timeout, the promise is settled once, by
    that frame, and neither a second frame nor anything else settles it
    again. *)
Theorem C2_timeout_settles_once
    (account : Types.NapCatAccount) (url_ok : string -> bool)
    (es0 : list (N * Session.Event)) (who : Session.Caller)
    (endpoint body : string) (now : N)
    (es1 : list (N * Session.Event)) (nowT : N) (es2 : list (N * Session.Event)) :
  let s := Session.run account url_ok es0 (Session.init account) in
  let c := Session.nextCall s in
  let h := Session.nextHandle s in
  let e := Session.make_echo now (Session.wsSequence (Session.client s)) in
  let act := Js.strip_leading_slash endpoint in
  let s1 := Session.request account url_ok who endpoint body now s in
  let s2 := Session.run account url_ok es1 s1 in
  let s3 := Session.step account url_ok s2 (nowT, Session.TimerFires h) in
  let s4 := Session.run account url_ok es2 s3 in
  Js.truthy (Session.c_httpUrl (Session.client s)) = false ->
  Session.ws_is_open s = true ->
  (Session.wsSequence (Session.client s) < 2 ^ 53)%N ->
  unanswered e h es1 = true ->
  Session.timers s1 !! h = Some (10000%Q, Session.ApiTimeout e c act) /\
  Session.settlements c s2 = [] /\
  Session.settlements c s3 = [Session.Rejected (Session.timeout_error act)] /\
  Session.settlements c s4 = [Session.Rejected (Session.timeout_error act)] /\
  (forall r, Session.timeout_error act <> Session.api_error r) /\
  (forall nowL k p,
      Session.p_echo p = Some e ->
      let s5 := Session.step account url_ok s4
                  (nowL, Session.SocketEv k (Session.SockMessage (Some p))) in
      Session.responseEmitter (Session.client s5) =
        Session.responseEmitter (Session.client s4) /\
      Session.timers s5 = Session.timers s4 /\
      (forall c', Session.settlements c' s5 = Session.settlements c' s4)) /\
  (forall nowR k p es,
      Session.p_echo p = Some e -> delivers s2 k = true ->
      Session.settlements c
        (Session.run account url_ok es
           (Session.step account url_ok s2
              (nowR, Session.SocketEv k (Session.SockMessage (Some p))))) =
        [Session.outcome_of_response (Session.p_response p)]).
Proof.
  intros s c h e act s1 s2 s3 s4 Hh Hw Hlt Hun.
  assert (Hwf : wf s) by apply wf_run, wf_init.
  assert (Htok : tok_inv s) by apply tok_inv_run, tok_inv_init.
  pose proof (live_issue account url_ok who endpoint body now s Hwf Htok Hlt Hh Hw) as Hl1.
  fold c h e act s1 in Hl1.
  pose proof (live_run account url_ok c h e act es1 s1 Hun Hl1) as Hl2.
  fold s2 in Hl2.
  destruct (live_answered account url_ok c h e act
              (Session.Rejected (Session.timeout_error act)) s2
              (Session.with_client
                 (fun cl => Session.set_emitter
                              (Session.removeAllListeners e (Session.responseEmitter cl)) cl)
                 (Session.with_timers (delete h) s2)) Hl2)
    as [Hd3 Hs3]; try reflexivity.
  rewrite <- (live_timeout_step account url_ok c h e act nowT s2 Hl2) in Hd3, Hs3.
  fold s3 in Hd3, Hs3.
  destruct (dormant_run account url_ok c e es2 s3 Hd3) as [Hd4 Hs4].
  fold s4 in Hd4, Hs4.
  split; [apply (lv_timer _ _ _ _ _ Hl1)|].
  split; [apply (lv_unsettled _ _ _ _ _ Hl2)|].
  split; [exact Hs3|].
  split; [by rewrite Hs4|].
  split; [intros r; unfold Session.timeout_error, Session.api_error; discriminate|].
  split.
  - intros nowL k p Hp s5. subst s5.
    assert (Hgone : ~ In e (Session.pending_tokens s4))
      by exact (dormant_token_gone url_ok c e s4 Hd4).
    destruct (unknown_frame_quiet account url_ok nowL k p e s4 Hp Hgone) as [-> | [-> | ->]];
      repeat split; try reflexivity;
      intros c'; rewrite settlements_app; simpl; by rewrite app_nil_r.
  - intros nowR k p es Hp Hdel.
    destruct (live_answered account url_ok c h e act
                (Session.outcome_of_response (Session.p_response p)) s2
                (Session.with_timers (delete h)
                   (Session.with_client
                      (fun cl => Session.set_emitter
                                   (Session.removeAllListeners e (Session.responseEmitter cl)) cl)
                      s2)) Hl2)
      as [Hd Hs]; try reflexivity.
    rewrite <- (live_response_step account url_ok c h e act nowR k p s2 Hl2 Hdel Hp) in Hd, Hs.
    destruct (dormant_run account url_ok c e es _ Hd) as [_ Hs'].
    by rewrite Hs'.
Qed.

Lemma C2_timeout_settles_once_witness :
  let s := Session.run ws_only_account accept_url socket_opened
             (Session.init ws_only_account) in
  let s1 := Session.request ws_only_account accept_url Session.External
              "/send_msg" "{}" 102 s in
  let s2 := Session.run ws_only_account accept_url login_answered s1 in
  let s3 := Session.step ws_only_account accept_url s2 (10102%N, Session.TimerFires 2) in
  let s4 := Session.run ws_only_account accept_url late_frames s3 in
  let frame := Session.SocketEv 0
                 (Session.SockMessage (Some (ok_response "api_102_1" "{}"))) in
  (Js.truthy (Session.c_httpUrl (Session.client s)) = false /\
   Session.ws_is_open s = true /\
   (Session.wsSequence (Session.client s) < 2 ^ 53)%N /\
   unanswered "api_102_1" 2 login_answered = true) /\
  Session.timers s1 !! 2 =
    Some (10000%Q, Session.ApiTimeout "api_102_1" 1 "send_msg") /\
  Session.settlements 1 s2 = [] /\
  Session.settlements 1 s3 =
    [Session.Rejected "WebSocket API request timed out: send_msg"] /\
  Session.settlements 1 s4 =
    [Session.Rejected "WebSocket API request timed out: send_msg"] /\
  (Session.p_echo (ok_response "api_102_1" "{}") = Some "api_102_1" /\
   Session.responseEmitter
     (Session.client (Session.step ws_only_account accept_url s4 (10300%N, frame))) =
     Session.responseEmitter (Session.client s4)) /\
  (delivers s2 0 = true /\
   Session.settlements 1
     (Session.run ws_only_account accept_url late_frames
        (Session.step ws_only_account accept_url s2 (104%N, frame))) =
     [Session.Resolved "{}"]).
Proof.
  intros s s1 s2 s3 s4 frame.
  assert (Hh : Js.truthy (Session.c_httpUrl (Session.client s)) = false) by reflexivity.
  assert (Hw : Session.ws_is_open s = true) by (vm_compute; reflexivity).
  assert (Hlt : (Session.wsSequence (Session.client s) < 2 ^ 53)%N)
    by (vm_compute; reflexivity).
  assert (Hun : unanswered "api_102_1" 2 login_answered = true)
    by (vm_compute; reflexivity).
  assert (Hdel : delivers s2 0 = true) by (vm_compute; reflexivity).
  split; [auto|].
  destruct (C2_timeout_settles_once ws_only_account accept_url socket_opened
              Session.External "/send_msg" "{}" 102 login_answered 10102 late_frames
              Hh Hw Hlt Hun) as (H1 & H2 & H3 & H4 & _ & H5 & H6).
  split; [exact H1|]. split; [exact H2|]. split; [exact H3|]. split; [exact H4|].
  split.
  - split; [reflexivity|].
    exact (proj1 (H5 10300%N 0 (ok_response "api_102_1" "{}") eq_refl)).
  - split; [exact Hdel|].
    exact (H6 104%N 0 (ok_response "api_102_1" "{}") late_frames eq_refl Hdel).
Defined.

(** * Further properties of the code *)

(** ** Targets *)

Section Targets.
Import Types Channel Outbound.

Lemma startsWith_app p r : Js.startsWith (p ++ r) p = true.
Proof.
  induction p as [|c p IH]; [by destruct r|].
  simpl. by rewrite Ascii.eqb_refl.
Qed.

Lemma string_drop_app p r : string_drop (String.length p) (p ++ r) = r.
Proof. induction p as [|c p IH]; [by destruct r | exact IH]. Qed.

Lemma replace_first_unfold s pat :
  replace_first s pat =
  if Js.startsWith s pat then string_drop (String.length pat) s
  else match s with
       | EmptyString => EmptyString
       | String c s' => String c (replace_first s' pat)
       end.
Proof. by destruct s. Qed.

Lemma replace_first_prefix p r : replace_first (p ++ r) p = r.
Proof. by rewrite replace_first_unfold, startsWith_app, string_drop_app. Qed.

Lemma digit_is_plain c :
  is_digit c = true ->
  Js.is_space c = false /\ Ascii.eqb c "-" = false /\ Ascii.eqb c "+" = false.
Proof.
  destruct c as [[] [] [] [] [] [] [] []]; try discriminate; auto.
Qed.

Ltac digit_arith :=
  match goal with
  | |- context [(N.of_nat ?x - 48)%N] =>
      let v := eval vm_compute in (N.of_nat x - 48)%N in
      change (N.of_nat x - 48)%N with v
  end; lia.

Lemma parse_digits_stop acc rest :
  has_digit rest = false -> parse_digits acc rest = acc.
Proof.
  destruct rest as [|c rest]; [reflexivity|].
  simpl. unfold digit_value. by intros ->.
Qed.

Lemma parse_digits_uint d p rest :
  has_digit rest = false ->
  parse_digits (Npos p) (NilEmpty.string_of_uint d ++ rest) = Npos (Pos.of_uint_acc d p).
Proof.
  intros Hr. revert p.
  induction d as [|d IH|d IH|d IH|d IH|d IH|d IH|d IH|d IH|d IH|d IH]; intros p;
    [by apply parse_digits_stop|..];
    simpl; rewrite <- IH; f_equal; digit_arith.
Qed.

Lemma uint_head d :
  d <> Decimal.Nil ->
  exists c s, NilEmpty.string_of_uint d = String c s /\ is_digit c = true.
Proof. destruct d; [congruence|..]; intros _; simpl; eauto. Qed.

Lemma parse_digits_uint0 d rest :
  has_digit rest = false ->
  parse_digits 0 (NilEmpty.string_of_uint d ++ rest) = Pos.of_uint d.
Proof.
  intros Hr.
  induction d as [|d IH|d IH|d IH|d IH|d IH|d IH|d IH|d IH|d IH|d IH];
    [by apply parse_digits_stop | exact IH |..];
    simpl; rewrite <- (parse_digits_uint _ _ _ Hr); f_equal.
Qed.

(** The digits of a positive number, followed by anything that does not
    start with a digit, read back as that number. *)
Lemma parse_unsigned_pos p rest :
  has_digit rest = false ->
  parse_unsigned (NilEmpty.string_of_uint (Pos.to_uint p) ++ rest) = Some (Npos p).
Proof.
  intros Hr. unfold parse_unsigned.
  rewrite parse_digits_uint0 by assumption.
  rewrite DecimalPos.Unsigned.of_to.
  destruct (uint_head _ (DecimalPos.Unsigned.to_uint_nonnil p)) as (c & s & -> & Hc).
  simpl. by rewrite Hc.
Qed.

Lemma string_of_uint_pos p :
  NilZero.string_of_uint (Pos.to_uint p) = NilEmpty.string_of_uint (Pos.to_uint p).
Proof.
  pose proof (DecimalPos.Unsigned.to_uint_nonnil p).
  unfold NilZero.string_of_uint. by destruct (Pos.to_uint p).
Qed.

(** A string that starts with an ASCII character other than white space
    has nothing to trim at its start. *)
Lemma trimStart_ascii c s :
  nat_of_ascii c < 128 -> Js.is_space c = false ->
  Js.trimStart (String c s) = String c s.
Proof.
  intros Hlt Hs. cbn [Js.trimStart]. rewrite Hs.
  assert (H2 : forall c2, Js.is_space2 c c2 = false).
  { intros c2. unfold Js.is_space2.
    destruct (Nat.eqb_spec (nat_of_ascii c) 194); [lia | reflexivity]. }
  assert (H3 : forall c2 c3, Js.is_space3 c c2 c3 = false).
  { intros c2 c3. unfold Js.is_space3. cbv zeta.
    destruct (Nat.eqb_spec (nat_of_ascii c) 225); [lia|].
    destruct (Nat.eqb_spec (nat_of_ascii c) 226); [lia|].
    destruct (Nat.eqb_spec (nat_of_ascii c) 227); [lia|].
    destruct (Nat.eqb_spec (nat_of_ascii c) 239); [lia|].
    reflexivity. }
  destruct s as [|c2 [|c3 s3]]; rewrite ?H2, ?H3; reflexivity.
Qed.

Lemma digit_is_ascii c : is_digit c = true -> nat_of_ascii c < 128.
Proof.
  unfold is_digit. cbv zeta. intros [_ H]%andb_true_iff. apply Nat.leb_le in H. lia.
Qed.

Lemma parseInt_string_of_Z z rest :
  has_digit rest = false -> parseInt (Js.string_of_Z z ++ rest) = Int z.
Proof.
  intros Hr. unfold Js.string_of_Z, parseInt.
  destruct z as [|p|p]; cbn [Z.to_int NilZero.string_of_int].
  - change (NilZero.string_of_uint (Decimal.D0 Decimal.Nil) ++ rest) with (String "0" rest).
    rewrite trimStart_ascii by (vm_compute; (reflexivity || lia)).
    change (Ascii.eqb "0" "-") with false. change (Ascii.eqb "0" "+") with false.
    cbv iota. unfold parse_unsigned. cbn [has_digit].
    change (is_digit "0") with true. cbv iota.
    cbn [parse_digits]. change (digit_value "0") with (Some 0%N).
    cbv iota. by rewrite (parse_digits_stop _ _ Hr).
  - rewrite string_of_uint_pos.
    pose proof (parse_unsigned_pos p rest Hr) as Hp.
    destruct (uint_head _ (DecimalPos.Unsigned.to_uint_nonnil p)) as (c & s & E & Hc).
    rewrite E in *. change (String c s ++ rest) with (String c (s ++ rest)) in *.
    destruct (digit_is_plain c Hc) as (H1 & H2 & H3).
    rewrite (trimStart_ascii c _ (digit_is_ascii c Hc) H1).
    rewrite H2, H3, Hp. reflexivity.
  - rewrite string_of_uint_pos.
    change (String "-" ?a ++ rest) with (String "-" (a ++ rest)).
    rewrite trimStart_ascii by (vm_compute; (reflexivity || lia)).
    rewrite Ascii.eqb_refl, (parse_unsigned_pos p rest Hr). reflexivity.
Qed.

Lemma append_empty_r s : s ++ "" = s.
Proof.
  induction s as [|c s IH]; [reflexivity|].
  change (String c (s ++ "") = String c s). by rewrite IH.
Qed.

Lemma parseTarget_group rest :
  parseTarget ("group:" ++ rest) = inr (group, parseInt rest).
Proof.
  unfold parseTarget.
  change (Js.startsWith ("group:" ++ rest) plugin_prefix) with false. cbv iota zeta.
  by rewrite startsWith_app, replace_first_prefix.
Qed.

Lemma parseTarget_private rest :
  parseTarget ("private:" ++ rest) = inr (private, parseInt rest).
Proof.
  unfold parseTarget.
  change (Js.startsWith ("private:" ++ rest) plugin_prefix) with false.
  change (Js.startsWith ("private:" ++ rest) "group:") with false. cbv iota zeta.
  by rewrite startsWith_app, replace_first_prefix.
Qed.

Lemma parseTarget_prefixed t :
  Js.startsWith t plugin_prefix = false ->
  parseTarget (plugin_prefix ++ t) = parseTarget t.
Proof.
  intros Ht. unfold parseTarget at 1.
  rewrite startsWith_app, string_drop_app. cbv zeta.
  unfold parseTarget. by rewrite Ht.
Qed.

(** The decimal identity (an integer that a JavaScript number holds
    exactly) is read back from a target, with or without the plugin
    prefix, whatever follows the digits as long as it does not start with
    a digit: [parseInt] ignores the rest. *)
Theorem parseTarget_reads_id (prefixed : bool) (ty : MessageType) (z : Z) (rest : string) :
  exact z -> has_digit rest = false ->
  parseTarget ((if prefixed then plugin_prefix else "") ++
               (match ty with group => "group:" | private => "private:" end) ++
               Js.string_of_Z z ++ rest)
  = inr (ty, Int z).
Proof.
  intros _ Hr.
  assert (H : parseTarget ((match ty with group => "group:" | private => "private:" end) ++
                           Js.string_of_Z z ++ rest) = inr (ty, Int z)).
  { destruct ty; [rewrite parseTarget_private | rewrite parseTarget_group];
      by rewrite parseInt_string_of_Z. }
  destruct prefixed; [|exact H].
  rewrite parseTarget_prefixed; [exact H|].
  by destruct ty.
Qed.

Lemma parseTarget_reads_id_witness :
  parseTarget ("napcat-channel:group:" ++ Js.string_of_Z 555 ++ "abc") = inr (group, Int 555).
Proof.
  apply (parseTarget_reads_id true group 555 "abc"); [unfold exact; lia | reflexivity].
Defined.

(** A target with a valid prefix is never refused, whatever follows: with
    no digit after the prefix (nothing at all, or an ASCII character that
    is neither a digit, a sign nor white space) the id is [NaN] and the
    message is still sent. *)
Theorem parseTarget_without_digits (ty : MessageType) (c : ascii) (rest : string) :
  nat_of_ascii c < 128 ->
  is_digit c = false -> Js.is_space c = false ->
  Ascii.eqb c "-" = false -> Ascii.eqb c "+" = false ->
  parseTarget ((match ty with group => "group:" | private => "private:" end) ++ String c rest)
  = inr (ty, NaN) /\
  parseTarget (match ty with group => "group:" | private => "private:" end) = inr (ty, NaN).
Proof.
  intros Hlt Hd Hs Hm Hp. split; [|by destruct ty].
  assert (parseInt (String c rest) = NaN) as Hn.
  { unfold parseInt. rewrite (trimStart_ascii c rest Hlt Hs). rewrite Hm, Hp.
    unfold parse_unsigned. cbn [has_digit]. by rewrite Hd. }
  destruct ty; [rewrite parseTarget_private | rewrite parseTarget_group]; by rewrite Hn.
Qed.

Lemma parseTarget_without_digits_witness :
  parseTarget ("group:" ++ "undefined") = inr (group, NaN) /\
  parseTarget "group:" = inr (group, NaN).
Proof.
  apply (parseTarget_without_digits group "u" "ndefined"); try reflexivity.
  vm_compute. lia.
Defined.

(** The channel id that [onMessage] gives to an inbound message, handed
    back to [sendText] as the target (with or without the plugin prefix),
    addresses the conversation that [deliver] replies to (the identities
    being integers that a JavaScript number holds exactly). *)
Theorem sendText_channelId_round_trip (prefixed : bool) (m : OB11MessageEvent) (t : string) :
  exact (user_id m) ->
  (message_type m = group -> exists g, group_id m = Some g /\ exact g) ->
  exists p,
    sendText ((if prefixed then plugin_prefix else "") ++ channelId_of m) t = inr p /\
    o_message_type p = sp_message_type (send_params m (PlainText (Some t))) /\
    o_user_id p = Int <$> sp_user_id (send_params m (PlainText (Some t))) /\
    o_group_id p = Int <$> sp_group_id (send_params m (PlainText (Some t))) /\
    o_message p = sp_message (send_params m (PlainText (Some t))).
Proof.
  intros Hu Hg.
  assert (Hint : forall z, parseInt (Js.string_of_Z z) = Int z).
  { intros z. rewrite <- (append_empty_r (Js.string_of_Z z)).
    by apply parseInt_string_of_Z. }
  unfold sendText, channelId_of, send_params, group_id_string.
  destruct (message_type m) eqn:Hty.
  - assert (H : parseTarget ((if prefixed then plugin_prefix else "") ++
                             "private:" ++ Js.string_of_Z (user_id m))
                = inr (private, Int (user_id m))).
    { destruct prefixed;
        [rewrite parseTarget_prefixed by reflexivity | change ("" ++ ?x) with x];
        by rewrite parseTarget_private, Hint. }
    rewrite H. eexists; repeat split.
  - destruct (Hg eq_refl) as (g & Hgid & _). rewrite Hgid.
    assert (H : parseTarget ((if prefixed then plugin_prefix else "") ++
                             "group:" ++ Js.string_of_Z g) = inr (group, Int g)).
    { destruct prefixed;
        [rewrite parseTarget_prefixed by reflexivity | change ("" ++ ?x) with x];
        by rewrite parseTarget_group, Hint. }
    rewrite H. eexists; repeat split.
Qed.

Lemma sendText_channelId_round_trip_witness :
  exists p,
    sendText ("napcat-channel:" ++ channelId_of sample_group_event) "hi" = inr p /\
    o_message_type p = group /\
    o_user_id p = None /\
    o_group_id p = Some (Int 555) /\
    o_message p = PlainText (Some "hi").
Proof.
  apply (sendText_channelId_round_trip true sample_group_event "hi").
  - unfold exact. simpl. lia.
  - intros _. exists 555%Z. split; [reflexivity | unfold exact; lia].
Defined.

End Targets.

(** ** Files and replies *)

Section Replies.
Import Types Channel Outbound.

Variable fs : FileSystem.

Lemma slash_not_file_url x :
  Js.startsWith x "/" = true -> Js.startsWith x "file://" = false.
Proof.
  destruct x as [|b x]; [discriminate|].
  rewrite startsWith_cons. intros [Hb _]%andb_true_iff.
  apply Ascii.eqb_eq in Hb. by subst b.
Qed.

(** What becomes of an absolute path: the content of the file in base64
    when it exists and can be read, and the path behind [file://]
    otherwise.  The inner test of [file://] in the [catch] branch never
    fails. *)
Lemma resolve_file_absolute x :
  Js.startsWith x "/" = true ->
  resolve_file fs x =
    if existsSync fs x then
      match readFileSync fs x with
      | Some bytes => "base64://" ++ base64 bytes
      | None => "file://" ++ x
      end
    else "file://" ++ x.
Proof.
  intros Hs. unfold resolve_file.
  rewrite Hs, (slash_not_file_url _ Hs). simpl.
  by destruct (existsSync fs x), (readFileSync fs x).
Qed.

Lemma resolve_file_relative x :
  Js.startsWith x "/" = false -> resolve_file fs x = x.
Proof. intros Hs. unfold resolve_file. by rewrite Hs. Qed.

Lemma resolve_file_not_bare x : Js.startsWith (resolve_file fs x) "/" = false.
Proof.
  destruct (Js.startsWith x "/") eqn:Hs.
  - rewrite resolve_file_absolute by assumption.
    by destruct (existsSync fs x), (readFileSync fs x).
  - by rewrite resolve_file_relative.
Qed.

(** The [file] value built for a media item never starts with a slash,
    whatever the file system answers, and building it again from the
    result changes nothing. *)
Theorem resolve_file_settles (x : string) :
  Js.startsWith (resolve_file fs x) "/" = false /\
  resolve_file fs (resolve_file fs x) = resolve_file fs x.
Proof.
  split; [apply resolve_file_not_bare|].
  apply resolve_file_relative, resolve_file_not_bare.
Qed.

Lemma field_image_segment f : field (image_segment f) "file" = JString f.
Proof. unfold field, image_segment; simpl. by rewrite lookup_singleton_eq. Qed.

Lemma image_files_images (l : list string) :
  image_files (SegmentArray (map (fun x => image_segment (resolve_file fs x)) l)) =
  map (fun x => JString (resolve_file fs x)) l.
Proof.
  unfold image_files. induction l as [|x l IH]; [reflexivity|].
  cbn [map List.filter]. change (type (image_segment _)) with "image".
  change ("image" =? "image")%string with true. cbv iota.
  cbn [map]. by rewrite field_image_segment, IH.
Qed.

Lemma image_files_body (replyText : option string) (l : list string) :
  image_files (messageBody_of fs replyText l) =
  map (fun x => JString (resolve_file fs x)) l.
Proof.
  destruct l as [|x l]; [reflexivity|].
  unfold messageBody_of.
  destruct (Js.truthy replyText); [|apply image_files_images].
  rewrite <- image_files_images. reflexivity.
Qed.

(** Every image segment that [deliver] sends carries the resolved form
    of one media item of the payload, in order, and none of them is a
    bare absolute path. *)
Theorem deliver_images_resolved (m : OB11MessageEvent) (ok : bool) (now : Z)
    (payload : ReplyPayload) (recent : gmap string Reply) (p : OB11SendMessageParams) :
  In p (snd (deliver fs m ok now payload recent)) ->
  image_files (sp_message p) =
    map (fun x => JString (resolve_file fs x)) (replyMedia_of payload) /\
  Forall (fun v => exists f, v = JString f /\ Js.startsWith f "/" = false)
    (image_files (sp_message p)).
Proof.
  unfold deliver, deliver_decide.
  destruct (_ && _); [intros []|].
  destruct (is_duplicate _ _ _ _); [intros []|].
  intros [<-|[]].
  assert (E : sp_message (send_params m (messageBody_of fs (text payload) (replyMedia_of payload)))
              = messageBody_of fs (text payload) (replyMedia_of payload)).
  { unfold send_params. by destruct (message_type m). }
  rewrite E, image_files_body. split; [reflexivity|].
  apply List.Forall_forall. intros v [x [<- _]]%in_map_iff.
  eexists; split; [reflexivity | apply resolve_file_not_bare].
Qed.


(** [sendMedia] builds the same image segment as [deliver] does for the
    same item; its text segment, when there is a text, is the text
    followed by one space, where [deliver] sends the text as it is. *)
Theorem sendMedia_body (to : string) (t : option string) (mediaUrl : string)
    (p : OutboundParams) :
  sendMedia fs to t mediaUrl = inr p ->
  image_files (o_message p) = image_files (messageBody_of fs t [mediaUrl]) /\
  o_message p =
    SegmentArray
      ((if Js.truthy t then [text_segment (default "" t ++ " ")] else []) ++
       [image_segment (resolve_file fs mediaUrl)])%list /\
  messageBody_of fs t [mediaUrl] =
    SegmentArray
      ((if Js.truthy t then [text_segment (default "" t)] else []) ++
       [image_segment (resolve_file fs mediaUrl)])%list.
Proof.
  unfold sendMedia. destruct (parseTarget to) as [err|[ty id]]; [discriminate|].
  intros [= <-].
  assert (E : forall b, o_message (outbound_params ty id b) = b) by by destruct ty.
  rewrite E, image_files_body. split; [|split; [|reflexivity]].
  - destruct (Js.truthy t); cbn [image_files List.filter map];
      by rewrite ?field_image_segment.
  - by destruct (Js.truthy t).
Qed.

End Replies.

Section RepliesWitnesses.
Import Types Channel Outbound.

Lemma deliver_images_resolved_witness :
  image_files (sp_message (send_params sample_group_event
      (messageBody_of empty_fs (Some "see") ["/tmp/a.png"; "http://h/b.png"]))) =
    [JString "file:///tmp/a.png"; JString "http://h/b.png"] /\
  Forall (fun v => exists f, v = JString f /\ Js.startsWith f "/" = false)
    (image_files (sp_message (send_params sample_group_event
      (messageBody_of empty_fs (Some "see") ["/tmp/a.png"; "http://h/b.png"])))).
Proof.
  apply (deliver_images_resolved empty_fs sample_group_event true 0
           (reply "see" ["/tmp/a.png"; "http://h/b.png"]) ∅).
  left. reflexivity.
Defined.

Lemma sendMedia_body_witness :
  exists p,
    sendMedia empty_fs "group:555" (Some "see") "/tmp/a.png" = inr p /\
    o_message p = SegmentArray [text_segment "see "; image_segment "file:///tmp/a.png"] /\
    messageBody_of empty_fs (Some "see") ["/tmp/a.png"] =
      SegmentArray [text_segment "see"; image_segment "file:///tmp/a.png"].
Proof.
  eexists. split; [reflexivity|].
  apply (sendMedia_body empty_fs "group:555" (Some "see") "/tmp/a.png"). reflexivity.
Defined.

End RepliesWitnesses.

(** ** The table of recent replies *)

Section RecentReplies.
Import Types Channel Outbound.

Lemma digit_not_colon c : is_digit c = true -> Ascii.eqb ":" c = false.
Proof. destruct c as [[] [] [] [] [] [] [] []]; try discriminate; auto. Qed.

Lemma includes_unfold s sub :
  Js.includes s sub =
  Js.startsWith s sub ||
  match s with EmptyString => false | String _ s' => Js.includes s' sub end.
Proof. by destruct s. Qed.

Lemma digits_no_colon s : all_digits s = true -> Js.includes s ":" = false.
Proof.
  induction s as [|c s IH]; [reflexivity|].
  cbn [all_digits]. intros [Hc Hs]%andb_true_iff.
  rewrite includes_unfold, startsWith_cons, (digit_not_colon _ Hc), (IH Hs).
  reflexivity.
Qed.

Lemma string_of_Z_no_colon z : Js.includes (Js.string_of_Z z) ":" = false.
Proof.
  unfold Js.string_of_Z.
  destruct z as [|p|p]; cbn [Z.to_int NilZero.string_of_int]; [reflexivity|..].
  - rewrite string_of_uint_pos. apply digits_no_colon, all_digits_uint.
  - rewrite string_of_uint_pos, includes_unfold, startsWith_cons.
    change (Ascii.eqb ":" "-") with false.
    rewrite (digits_no_colon _ (all_digits_uint _)). reflexivity.
Qed.

Lemma includes_colon_app a b : Js.includes (a ++ String ":" b) ":" = true.
Proof.
  induction a as [|c a IH].
  - change ("" ++ String ":" b) with (String ":" b).
    rewrite includes_unfold, startsWith_cons. by destruct b.
  - change (String c a ++ String ":" b) with (String c (a ++ String ":" b)).
    rewrite includes_unfold, IH. apply orb_true_r.
Qed.

(** Two strings each followed by a colon and a colon-free tail: equal
    wholes have equal parts. *)
Lemma last_colon_inj a a' b b' :
  Js.includes b ":" = false -> Js.includes b' ":" = false ->
  a ++ String ":" b = a' ++ String ":" b' -> a = a' /\ b = b'.
Proof.
  intros Hb Hb'. revert a'.
  induction a as [|c a IH]; intros [|c' a'].
  - intros [= ->]. auto.
  - change ("" ++ String ":" b) with (String ":" b).
    change (String c' a' ++ String ":" b') with (String c' (a' ++ String ":" b')).
    intros [= <- ->]. by rewrite includes_colon_app in Hb.
  - change ("" ++ String ":" b') with (String ":" b').
    change (String c a ++ String ":" b) with (String c (a ++ String ":" b)).
    intros [= -> <-]. by rewrite includes_colon_app in Hb'.
  - change (String c a ++ String ":" b) with (String c (a ++ String ":" b)).
    change (String c' a' ++ String ":" b') with (String c' (a' ++ String ":" b')).
    intros [= -> H]. destruct (IH _ H) as [-> ->]. auto.
Qed.

Lemma string_of_Z_inj z z' : Js.string_of_Z z = Js.string_of_Z z' -> z = z'.
Proof.
  intros H.
  pose proof (parseInt_string_of_Z z "" eq_refl) as H1.
  pose proof (parseInt_string_of_Z z' "" eq_refl) as H2.
  rewrite H, H2 in H1. congruence.
Qed.

Lemma messageKey_inj m m' :
  messageKey m = messageKey m' ->
  channelId_of m = channelId_of m' /\ message_id m = message_id m'.
Proof.
  unfold messageKey. intros H.
  apply last_colon_inj in H; try apply string_of_Z_no_colon.
  destruct H as [H1 H2]. split; [assumption | by apply string_of_Z_inj].
Qed.

Variable fs : FileSystem.

Lemma deliver_decide_lookup m now p recent recent' :
  recent' !! messageKey m = recent !! messageKey m ->
  deliver_decide fs recent' m now p = deliver_decide fs recent m now p.
Proof. intros H. unfold deliver_decide. by rewrite H. Qed.

Lemma deliver_table m ok now p recent :
  fst (deliver fs m ok now p recent) = recent \/
  exists r, fst (deliver fs m ok now p recent) = <[messageKey m := r]> recent.
Proof.
  unfold deliver, deliver_decide.
  destruct (_ && _); [by left|].
  destruct (is_duplicate _ _ _ _); [by left|].
  destruct ok; [right; by eexists | by left].
Qed.

Lemma deliver_failed m now p recent :
  fst (deliver fs m false now p recent) = recent.
Proof. unfold deliver. by destruct (deliver_decide _ _ _ _ _). Qed.

Lemma is_duplicate_later lastReply replyText replyMedia now1 now2 :
  is_duplicate lastReply replyText replyMedia now1 = false ->
  (now1 <= now2)%Z ->
  is_duplicate lastReply replyText replyMedia now2 = false.
Proof.
  unfold is_duplicate, REPLY_DEDUP_WINDOW_MS.
  destruct replyMedia, lastReply as [r|], replyText as [t|]; try done.
  destruct (String.eqb (r_text r) t); [|done].
  cbn [andb]. intros H1%Z.ltb_ge Hle. apply Z.ltb_ge. lia.
Qed.

(** One run of [deliver] reads and writes the table only under the key
    of its own inbound message. *)
Theorem deliver_touches_own_key (m : OB11MessageEvent) (ok : bool) (now : Z)
    (p : ReplyPayload) (recent : gmap string Reply) (k : string) :
  k <> messageKey m ->
  fst (deliver fs m ok now p recent) !! k = recent !! k.
Proof.
  intros Hk. destruct (deliver_table m ok now p recent) as [->|[r ->]]; [reflexivity|].
  by rewrite lookup_insert_ne.
Qed.

(** Replies to two inbound messages that differ in conversation or in
    message id never suppress one another: what is sent for the second
    does not depend on whether the first was delivered before it. *)
Theorem replies_independent (m1 m2 : OB11MessageEvent) (ok1 ok2 : bool) (now1 now2 : Z)
    (p1 p2 : ReplyPayload) (recent : gmap string Reply) :
  channelId_of m1 <> channelId_of m2 \/ message_id m1 <> message_id m2 ->
  snd (deliver fs m2 ok2 now2 p2 (fst (deliver fs m1 ok1 now1 p1 recent))) =
  snd (deliver fs m2 ok2 now2 p2 recent).
Proof.
  intros Hd.
  assert (Hk : messageKey m1 <> messageKey m2).
  { intros [H1 H2]%messageKey_inj. tauto. }
  unfold deliver at 1 3.
  rewrite (deliver_decide_lookup m2 now2 p2 recent);
    [by destruct (deliver_decide _ _ _ _ _)|].
  destruct (deliver_table m1 ok1 now1 p1 recent) as [->|[r ->]]; [reflexivity|].
  by rewrite lookup_insert_ne.
Qed.

(** When the send of a reply fails, nothing is recorded: the same text
    delivered again for the same message, however soon, is sent again. *)
Theorem failed_send_is_retried (m : OB11MessageEvent) (ok2 : bool) (now1 now2 : Z)
    (p : ReplyPayload) (recent : gmap string Reply) (sp : OB11SendMessageParams) :
  snd (deliver fs m false now1 p recent) = [sp] ->
  (now1 <= now2)%Z ->
  snd (deliver_twice fs m false now1 p ok2 now2 p recent) = [sp; sp].
Proof.
  intros H1 Hr. unfold deliver_twice. rewrite deliver_failed, H1.
  cbn [app]. f_equal.
  revert H1. unfold deliver, deliver_decide.
  destruct (_ && _); [discriminate|].
  destruct (is_duplicate _ _ _ now1) eqn:E1; [discriminate|].
  rewrite (is_duplicate_later _ _ _ _ _ E1 Hr).
  cbn [snd]. by intros [= <-].
Qed.

End RecentReplies.

Lemma deliver_touches_own_key_witness :
  fst (Channel.deliver empty_fs sample_group_event true 0 (reply "hi" []) ∅)
    !! Channel.messageKey sample_private_event =
  (∅ : gmap string Channel.Reply) !! Channel.messageKey sample_private_event.
Proof.
  apply (deliver_touches_own_key empty_fs sample_group_event true 0 (reply "hi" []) ∅
           (Channel.messageKey sample_private_event)).
  vm_compute. discriminate.
Defined.

Lemma replies_independent_witness :
  snd (Channel.deliver empty_fs sample_private_event true 1 (reply "hi" [])
         (fst (Channel.deliver empty_fs sample_group_event true 0 (reply "hi" []) ∅))) =
  snd (Channel.deliver empty_fs sample_private_event true 1 (reply "hi" []) ∅).
Proof.
  apply (replies_independent empty_fs sample_group_event sample_private_event).
  left. vm_compute. discriminate.
Defined.

Lemma failed_send_is_retried_witness :
  snd (Channel.deliver_twice empty_fs sample_group_event false 0 (reply "hi" [])
         true 1 (reply "hi" []) ∅) =
  [Channel.send_params sample_group_event (Channel.PlainText (Some "hi"));
   Channel.send_params sample_group_event (Channel.PlainText (Some "hi"))].
Proof.
  apply (failed_send_is_retried empty_fs sample_group_event true 0 1 (reply "hi" []) ∅).
  - reflexivity.
  - lia.
Defined.

(** ** The inbound gates *)

Section Gates.
Import Types Channel.

Lemma startsWith_spec s p : Js.startsWith s p = true <-> exists r, s = p ++ r.
Proof.
  revert s. induction p as [|a p IH]; intros s.
  - split; [intros _; by exists s | by destruct s].
  - destruct s as [|b s].
    + split; [discriminate | intros [r Hr]; discriminate].
    + rewrite startsWith_cons, andb_true_iff, IH. split.
      * intros [->%Ascii.eqb_eq [r ->]]. by exists r.
      * intros [r Hr]. change (String a p ++ r) with (String a (p ++ r)) in Hr.
        injection Hr as -> ->. split; [apply Ascii.eqb_refl | by exists r].
Qed.

Lemma includes_spec s sub :
  Js.includes s sub = true <-> exists pre post, s = pre ++ sub ++ post.
Proof.
  induction s as [|c s IH].
  - rewrite includes_unfold, orb_false_r, startsWith_spec. split.
    + intros [r Hr]. by exists "", r.
    + intros (pre & post & H). destruct pre; [by exists post | discriminate].
  - rewrite includes_unfold, orb_true_iff, startsWith_spec, IH. split.
    + intros [[r Hr]|(pre & post & ->)]; [by exists "", r|].
      by exists (String c pre), post.
    + intros ([|c' pre] & post & H); [left; by exists post|].
      change (String c' pre ++ sub ++ post) with (String c' (pre ++ sub ++ post)) in H.
      injection H as -> ->. right. by exists pre, post.
Qed.

Lemma existsb_eqb_In (z : Z) (l : list Z) : existsb (Z.eqb z) l = true <-> In z l.
Proof.
  rewrite existsb_exists. split.
  - intros (x & Hx & ->%Z.eqb_eq). assumption.
  - intros H. exists z. split; [assumption | apply Z.eqb_refl].
Qed.

Lemma admin_allows_spec account m :
  admin_allows account m = false <->
  exists l, adminUins account = Some l /\ l <> [] /\ ~ In (user_id m) l.
Proof.
  unfold admin_allows, admin_filter_applies.
  destruct (adminUins account) as [[|z l]|]; cbn [length Nat.ltb Nat.leb default].
  - split; [discriminate | intros (l & [= <-] & Hl & _); congruence].
  - rewrite <- not_true_iff_false, existsb_eqb_In. split.
    + intros H. exists (z :: l). by repeat split.
    + by intros (l' & [= <-] & _ & H).
  - split; [discriminate | intros (l & [=] & _)].
Qed.

Lemma app_cons_nonempty a c b : String.eqb (a ++ String c b) "" = false.
Proof. by destruct a. Qed.

Lemma normalize_text_media m :
  truthy_val (extract_media m) = true ->
  normalize_text m =
    (if String.eqb (Js.trim (extract_text m)) "" then "[Image]" else Js.trim (extract_text m))
    ++ String "010" ("[MediaUrl: " ++ to_string (extract_media m) ++ "]").
Proof. intros H. unfold normalize_text. rewrite H, andb_true_r. reflexivity. Qed.


Lemma ignored_non_admin_iff account m :
  onMessage account m = IgnoredNonAdmin <-> admin_allows account m = false.
Proof.
  unfold onMessage.
  destruct (admin_allows account m); cbn [negb]; [|done].
  split; [|discriminate].
  destruct (addressed m); cbn [negb]; [|discriminate].
  destruct (String.eqb _ _); discriminate.
Qed.

(** The admin gate comes first and does not look at the kind of message:
    with a non-empty allowlist, a sender outside it is ignored in private
    as in a group, mentioned or not, and this is the only way a message
    is ignored as non-admin. *)
Theorem non_admin_ignored (account : NapCatAccount) (m : OB11MessageEvent) :
  onMessage account m = IgnoredNonAdmin <->
  exists l, adminUins account = Some l /\ l <> [] /\ ~ In (user_id m) l.
Proof. by rewrite ignored_non_admin_iff, admin_allows_spec. Qed.

(** A group message in string form passes the mention gate exactly when
    the marker [[CQ:at,qq=<self_id>]] occurs somewhere in it. *)
Theorem string_message_mention (m : OB11MessageEvent) (s : string) :
  message_type m = group -> message m = Text s ->
  (addressed m = true <->
   exists pre post, s = pre ++ mention_marker (self_id m) ++ post).
Proof.
  intros Hg Hs. unfold addressed, isMentioned. by rewrite Hg, Hs, includes_spec.
Qed.

(** What is handed to the host has passed both gates, has a non-empty
    body and is labelled with the conversation of the message. *)
Theorem dispatched_passed_gates (account : NapCatAccount) (m : OB11MessageEvent)
    (ctx : Inbound) :
  onMessage account m = Dispatched ctx ->
  (forall l, adminUins account = Some l -> l <> [] -> In (user_id m) l) /\
  (message_type m = group -> isMentioned m = true) /\
  RawBody ctx <> "" /\ channelId ctx = channelId_of m.
Proof.
  unfold onMessage.
  destruct (admin_allows account m) eqn:Ha; cbn [negb]; [|discriminate].
  destruct (addressed m) eqn:Hm; cbn [negb]; [|discriminate].
  destruct (String.eqb_spec (normalize_text m) ""); [discriminate|].
  intros [= <-]. repeat split; try done.
  - intros l Hl Hne. destruct (In_dec Z.eq_dec (user_id m) l) as [|Hn]; [assumption|].
    assert (admin_allows account m = false) by (apply admin_allows_spec; eauto).
    congruence.
  - intros Hg. unfold addressed in Hm. by rewrite Hg in Hm.
Qed.


(** A message whose text is made of U+00A0 and U+3000 is trimmed to
    nothing and dropped. *)
Example blank_message_dropped :
  Js.trim (extract_text sample_blank_event) = "" /\
  onMessage ws_only_account sample_blank_event = DroppedEmpty.
Proof. split; reflexivity. Qed.

(** A message that passes the gates with a usable image reference is
    handed to the host with the reference appended on a line of its own,
    after the trimmed text or, when there is none, after [[Image]]. *)
Theorem image_message_body (account : NapCatAccount) (m : OB11MessageEvent) :
  admin_allows account m = true -> addressed m = true ->
  truthy_val (extract_media m) = true ->
  exists ctx,
    onMessage account m = Dispatched ctx /\
    MediaUrl ctx = extract_media m /\
    RawBody ctx =
      (if String.eqb (Js.trim (extract_text m)) "" then "[Image]"
       else Js.trim (extract_text m))
      ++ String "010" ("[MediaUrl: " ++ to_string (extract_media m) ++ "]").
Proof.
  intros Ha Hm Hmedia. unfold onMessage. rewrite Ha, Hm. cbn [negb].
  rewrite normalize_text_media by assumption. rewrite app_cons_nonempty.
  eexists. repeat split.
Qed.

End Gates.

Lemma string_message_mention_witness :
  Channel.addressed sample_string_event = true <->
  exists pre post,
    "hey [CQ:at,qq=42] there" = pre ++ Channel.mention_marker 42 ++ post.
Proof.
  apply (string_message_mention sample_string_event "hey [CQ:at,qq=42] there");
    reflexivity.
Defined.

Lemma dispatched_passed_gates_witness :
  (forall l, Types.adminUins ws_only_account = Some l -> l <> [] ->
             In (Channel.user_id sample_group_event) l) /\
  (Channel.message_type sample_group_event = Channel.group ->
   Channel.isMentioned sample_group_event = true) /\
  Channel.RawBody (Channel.inbound_of sample_group_event "hello  world") <> "" /\
  Channel.channelId (Channel.inbound_of sample_group_event "hello  world") =
    Channel.channelId_of sample_group_event.
Proof.
  apply (dispatched_passed_gates ws_only_account sample_group_event).
  vm_compute. reflexivity.
Defined.

Lemma image_message_body_witness :
  exists ctx,
    Channel.onMessage ws_only_account sample_image_event = Channel.Dispatched ctx /\
    Channel.MediaUrl ctx = Channel.extract_media sample_image_event /\
    Channel.RawBody ctx =
      (if String.eqb (Js.trim (Channel.extract_text sample_image_event)) "" then "[Image]"
       else Js.trim (Channel.extract_text sample_image_event))
      ++ String "010"
           ("[MediaUrl: " ++ Channel.to_string (Channel.extract_media sample_image_event) ++ "]").
Proof.
  apply (image_message_body ws_only_account sample_image_event); reflexivity.
Defined.

(** ** Accounts and cached clients *)

Section Accounts.
Import Types Config.

Lemma account_entry_In l id :
  In id (map fst l) -> is_Some (account_entry l id).
Proof.
  induction l as [|[k a] l IH]; [intros []|].
  cbn [map fst account_entry]. intros Hin.
  destruct (String.eqb_spec k id) as [->|Hne]; [by eexists|].
  destruct Hin as [->|Hin]; [congruence | by apply IH].
Qed.

Lemma account_entry_not_In l id :
  ~ In id (map fst l) -> account_entry l id = None.
Proof.
  induction l as [|[k a] l IH]; [reflexivity|].
  cbn [map fst account_entry In]. intros Hn.
  destruct (String.eqb_spec k id) as [->|Hne]; [tauto|].
  apply IH. tauto.
Qed.

Lemma keep_truthy_truthy o : Js.truthy (keep_truthy o) = Js.truthy o.
Proof. unfold keep_truthy. by destruct (Js.truthy o) eqn:E. Qed.

Lemma top_level_configured nc :
  has_url nc = true -> isConfigured (Some (top_level_account nc)) = true.
Proof.
  unfold has_url, isConfigured, top_level_account. cbn [wsUrl httpUrl].
  by rewrite !keep_truthy_truthy.
Qed.

(** Every account id that [listNapCatAccountIds] lists is resolved by
    [resolveNapCatAccount]. *)
Theorem listed_accounts_resolve (cfg : option NapConfig) (id : string) :
  In id (listNapCatAccountIds cfg) -> is_Some (resolveNapCatAccount cfg id).
Proof.
  destruct cfg as [nc|]; [|intros []].
  unfold listNapCatAccountIds, resolveNapCatAccount.
  destruct (n_accounts nc) as [l|]; cbn [from_option].
  - intros Hin. destruct (account_entry_In l id Hin) as [a ->]. by eexists.
  - destruct (has_url nc) eqn:Hu; [|intros []].
    intros [<-|[]]. cbn [String.eqb]. by eexists.
Qed.

(** The converse fails: when the configuration has an [accounts] object
    without a [default] entry and top-level endpoints besides, the id
    [default] is resolved to the top-level account, which counts as
    configured, although it is not listed. *)
Theorem default_resolved_unlisted (nc : NapConfig) (l : list (string * NapCatAccount)) :
  n_accounts nc = Some l -> ~ In DEFAULT_ACCOUNT_ID (map fst l) -> has_url nc = true ->
  resolveNapCatAccount (Some nc) DEFAULT_ACCOUNT_ID = Some (top_level_account nc) /\
  isConfigured (resolveNapCatAccount (Some nc) DEFAULT_ACCOUNT_ID) = true /\
  ~ In DEFAULT_ACCOUNT_ID (listNapCatAccountIds (Some nc)).
Proof.
  intros Hl Hn Hu.
  assert (E : resolveNapCatAccount (Some nc) DEFAULT_ACCOUNT_ID = Some (top_level_account nc)).
  { unfold resolveNapCatAccount. rewrite Hl. cbn [from_option].
    rewrite (account_entry_not_In _ _ Hn), Hu. reflexivity. }
  rewrite E. repeat split.
  - by apply top_level_configured.
  - unfold listNapCatAccountIds. by rewrite Hl.
Qed.

(** A top-level [adminUins] given as one number acts as an allowlist of
    that one sender: under the account resolved from such a
    configuration, a message of any other sender is ignored, whatever its
    kind and content, and no message of that sender is. *)
Theorem single_admin_allowlist (nc : NapConfig) (z : Z) (account : NapCatAccount)
    (m : Channel.OB11MessageEvent) :
  n_accounts nc = None ->
  n_adminUins nc = Some (AdminOne z) -> z <> 0%Z ->
  resolveNapCatAccount (Some nc) DEFAULT_ACCOUNT_ID = Some account ->
  (Channel.onMessage account m = Channel.IgnoredNonAdmin <-> Channel.user_id m <> z).
Proof.
  intros Hn Ha Hz. unfold resolveNapCatAccount. rewrite Hn. cbn [from_option].
  destruct (_ && _); [|discriminate]. intros [= <-].
  rewrite ignored_non_admin_iff, admin_allows_spec.
  unfold top_level_account. cbn [adminUins]. rewrite Ha. cbn [admin_list].
  apply Z.eqb_neq in Hz. rewrite Hz. split.
  - intros (l & [= <-] & _ & Hni) Heq. apply Hni. by left.
  - intros Hne. exists [z]. repeat split; [done|].
    intros [->|[]]. congruence.
Qed.

Variable accountId : string.

(** While a client is cached for an account id, a later account
    configuration for the same id is ignored: the cached client, built
    from the earlier configuration, is returned and the table stays as it
    is.  Once the account has been stopped, the next call builds the
    client from the configuration it is given. *)
Theorem cached_client_outlives_config (config1 config2 : NapCatAccount)
    (apiClients : gmap string Session.NapCatApiClient) :
  let r1 := getOrCreateApiClient accountId config1 apiClients in
  getOrCreateApiClient accountId config2 (fst r1) = r1 /\
  snd (getOrCreateApiClient accountId config2 (release_client accountId (fst r1))) =
    Session.new_client config2.
Proof.
  cbv zeta. unfold getOrCreateApiClient, release_client.
  destruct (apiClients !! accountId) as [c|] eqn:E; cbn [fst snd].
  - by rewrite E, lookup_delete_eq.
  - by rewrite lookup_insert_eq, lookup_delete_eq.
Qed.

End Accounts.

Lemma listed_accounts_resolve_witness :
  is_Some (Config.resolveNapCatAccount (Some sample_config) "work").
Proof.
  apply (listed_accounts_resolve (Some sample_config) "work"). left. reflexivity.
Defined.

Lemma default_resolved_unlisted_witness :
  Config.resolveNapCatAccount (Some sample_config) Config.DEFAULT_ACCOUNT_ID =
    Some (Config.top_level_account sample_config) /\
  Config.isConfigured (Config.resolveNapCatAccount (Some sample_config) Config.DEFAULT_ACCOUNT_ID)
    = true /\
  ~ In Config.DEFAULT_ACCOUNT_ID (Config.listNapCatAccountIds (Some sample_config)).
Proof.
  apply (default_resolved_unlisted sample_config [("work", ws_only_account)]).
  - reflexivity.
  - intros [H|[]]. discriminate.
  - reflexivity.
Defined.

Lemma single_admin_allowlist_witness :
  Channel.onMessage (Config.top_level_account sample_flat_config) sample_private_event =
    Channel.IgnoredNonAdmin <->
  Channel.user_id sample_private_event <> 1001%Z.
Proof.
  apply (single_admin_allowlist sample_flat_config 1001
           (Config.top_level_account sample_flat_config) sample_private_event).
  - reflexivity.
  - reflexivity.
  - lia.
  - reflexivity.
Defined.

(** ** More on the session *)

Section Endpoint.
Import Types Session.
Local Open Scope list_scope.

Variable account : NapCatAccount.
Variable url_ok : string -> bool.

Lemma strip_trailing_slash_app u : Js.strip_trailing_slash (u ++ "/")%string = u.
Proof.
  induction u as [|c u IH]; [reflexivity|].
  change (String c u ++ "/")%string with (String c (u ++ "/")%string).
  destruct u as [|c' u]; [reflexivity|].
  change (String c' u ++ "/")%string with (String c' (u ++ "/")%string) in *.
  cbn [Js.strip_trailing_slash] in *. by rewrite IH.
Qed.

Lemma requested_token who endpoint body now s s' :
  Requested account url_ok who endpoint body now s s' ->
  c_token (client s') = c_token (client s).
Proof.
  intros [Hh -> | k Hh Hw Hk -> | Hh Hw ->]; try reflexivity.
  by rewrite (g_token _ _ _ _ (grow_settle account url_ok none _ _ _)).
Qed.

Lemma step_token s ne :
  c_token (client (step account url_ok s ne)) = c_token (client s).
Proof.
  destruct ne as [now ev].
  destruct (step_kinds account url_ok now ev s) as
    [Hg | s0 who ep body Hg -> | k p e _ _ _ -> | h d e c act _ _ -> | c r _ _ ->].
  - apply (g_token _ _ _ _ Hg).
  - rewrite (requested_token _ _ _ _ _ _ (request_cases account url_ok _ _ _ _ _)).
    apply (g_token _ _ _ _ Hg).
  - by rewrite (g_token _ _ _ _ (grow_fold_listeners account url_ok _ _ _)).
  - by rewrite (g_token _ _ _ _ (grow_settle account url_ok none _ _ _)).
  - by rewrite (g_token _ _ _ _ (grow_settle account url_ok none _ _ _)).
Qed.

Lemma run_token es s :
  c_token (client (run account url_ok es s)) = c_token (client s).
Proof.
  revert s. induction es as [|ne es IH]; intros s; [reflexivity|].
  simpl. rewrite IH. apply step_token.
Qed.

(** With an [httpUrl] other than [''] and ['/'], every call made in any
    state the session can reach is posted to the URL made of [httpUrl]
    less one trailing slash followed by the endpoint, with the bearer
    header of the account's token; an [httpUrl] written with or without
    the final slash gives the same URL. *)
Theorem posted_url (u : string) (es : list (N * Event)) (now : N) (endpoint body : string) :
  httpUrl account = Some u -> Js.strip_trailing_slash u <> "" ->
  let s := run account url_ok es (init account) in
  trace (step account url_ok s (now, Call endpoint body)) =
    trace s ++ [HttpPost (nextCall s) (Js.strip_trailing_slash u ++ endpoint)%string
                  (bearer (token account)) body] /\
  Js.strip_trailing_slash (u ++ "/")%string = u.
Proof.
  intros Hu Hne s. split; [|apply strip_trailing_slash_app].
  assert (Hc : c_httpUrl (client s) = Some (Js.strip_trailing_slash u)).
  { unfold s. rewrite run_httpUrl. cbn [init client new_client c_httpUrl].
    rewrite Hu. cbn [Js.truthy option_map].
    destruct (String.eqb_spec u ""); [subst u; by destruct Hne | reflexivity]. }
  assert (Ht : c_token (client s) = token account).
  { unfold s. by rewrite run_token. }
  unfold step; cbn [fst snd]. unfold request.
  rewrite Hc. cbn [Js.truthy].
  apply String.eqb_neq in Hne. rewrite Hne. cbn [negb].
  unfold requestHttp. cbn [trace emit_obs client with_fetching bump_call with_awaiting].
  by rewrite Hc, Ht.
Qed.

End Endpoint.

Lemma posted_url_witness :
  Session.trace (Session.step http_account accept_url (Session.init http_account)
                   (5%N, Session.Call "/send_msg" "{}")) =
    [Session.HttpPost 0 "http://127.0.0.1:3000/send_msg" (Some "Bearer secret") "{}"] /\
  Js.strip_trailing_slash ("http://127.0.0.1:3000/" ++ "/") = "http://127.0.0.1:3000/".
Proof.
  apply (posted_url http_account accept_url "http://127.0.0.1:3000/" [] 5 "/send_msg" "{}").
  - reflexivity.
  - discriminate.
Defined.

Section Reconnection.
Import Types Session.
Local Open Scope list_scope.

Variable account : NapCatAccount.
Variable url_ok : string -> bool.

(** The login check made by the [open] handler leaves the runtime and the
    sockets as they are, whichever way it goes. *)
Lemma open_login_runtime now s :
  runtime (getLoginInfo account url_ok OpenLogin now s) = runtime s /\
  sockets (getLoginInfo account url_ok OpenLogin now s) = sockets s.
Proof.
  unfold getLoginInfo, request.
  destruct (Js.truthy (c_httpUrl (client s))); [by split|].
  destruct (ws_is_open s).
  - unfold requestWs. cbn [client bump_call with_awaiting].
    destruct (c_ws (client s)); [by split|].
    unfold settle. cbn [awaiting bump_call with_awaiting].
    rewrite lookup_insert_eq. by split.
  - unfold settle. cbn [awaiting bump_call with_awaiting].
    rewrite lookup_insert_eq. by split.
Qed.

Lemma first_attempt_trace s :
  Js.truthy (wsUrl account) = true ->
  isClosing (runtime s) = false -> reconnectAttempts (runtime s) = 0%N ->
  trace (scheduleReconnect account s) =
    trace s ++ [SetTimeout (nextHandle s) (reconnectDelay 1) ReconnectTimer].
Proof.
  intros Hw Hc Ha. unfold scheduleReconnect. by rewrite Hc, Hw, Ha.
Qed.

(** A connection that opens resets the backoff: whatever the number of
    attempts made before, when that connection closes again the reconnect
    timer is armed with the delay of a first attempt, 3000 ms. *)
Theorem backoff_restarts (s : State) (k : nat) (sk : Socket) (now now' : N) :
  Js.truthy (wsUrl account) = true ->
  sockets s !! k = Some sk -> readyState sk = CONNECTING -> listening sk = true ->
  isClosing (runtime s) = false ->
  let s1 := step account url_ok s (now, SocketEv k SockOpen) in
  let s2 := step account url_ok s1 (now', SocketEv k SockClose) in
  reconnectAttempts (runtime s1) = 0%N /\
  trace s2 = trace s1 ++ [SetTimeout (nextHandle s1) (reconnectDelay 1) ReconnectTimer] /\
  (reconnectDelay 1 == 3000)%Q.
Proof.
  intros Hw Hk Hr Hl Hc s1 s2.
  set (s0 := with_client (set_c_ws (r_ws (runtime s)))
               (with_runtime (set_reconnectAttempts 0)
                  (with_sockets (insert k (set_readyState OPEN sk)) s))).
  assert (H1 : runtime s1 = runtime s0 /\ sockets s1 = sockets s0).
  { unfold s1, step; cbn [fst snd]. unfold socket_event. rewrite Hk, Hr, Hl.
    unfold on_open. fold s0.
    destruct (negb (Js.truthy (httpUrl account))); [apply open_login_runtime | by split]. }
  destruct H1 as [Hrun Hsock].
  assert (Ha : reconnectAttempts (runtime s1) = 0%N) by by rewrite Hrun.
  assert (Hc1 : isClosing (runtime s1) = false) by by rewrite Hrun.
  split; [exact Ha|]. split; [|reflexivity].
  unfold s2, step; cbn [fst snd]. unfold socket_event.
  rewrite Hsock. cbn [s0 sockets with_client with_runtime with_sockets].
  rewrite lookup_insert_eq. cbn [readyState set_readyState listening]. rewrite Hl.
  unfold on_close. cbn [runtime with_client with_sockets]. rewrite Hc1. cbn [negb].
  by rewrite first_attempt_trace.
Qed.

End Reconnection.

Lemma backoff_restarts_witness :
  let s := Session.run ws_only_account accept_url five_failed_connections
             (Session.init ws_only_account) in
  let s' := Session.step ws_only_account accept_url s (10%N, Session.TimerFires 9) in
  let s1 := Session.step ws_only_account accept_url s' (11%N, Session.SocketEv 10 Session.SockOpen) in
  let s2 := Session.step ws_only_account accept_url s1 (12%N, Session.SocketEv 10 Session.SockClose) in
  Session.reconnectAttempts (Session.runtime s1) = 0%N /\
  Session.trace s2 =
    (Session.trace s1 ++
       [Session.SetTimeout (Session.nextHandle s1) (Session.reconnectDelay 1)
          Session.ReconnectTimer])%list /\
  (Session.reconnectDelay 1 == 3000)%Q.
Proof.
  intros s s'.
  apply (backoff_restarts ws_only_account accept_url s' 10
           {| Session.readyState := Session.CONNECTING; Session.listening := true |} 11 12);
    vm_compute; reflexivity.
Defined.

Section NoSocketUrl.
Import Types Session.
Local Open Scope list_scope.

Variable account : NapCatAccount.
Variable url_ok : string -> bool.
Hypothesis no_wsUrl : Js.truthy (wsUrl account) = false.

Lemma socketless_scheduleReconnect s : scheduleReconnect account s = s.
Proof.
  unfold scheduleReconnect. rewrite no_wsUrl.
  by destruct (isClosing (runtime s)).
Qed.

Lemma socketless_start_connect s :
  socketless s -> socketless (start_connect account url_ok s).
Proof.
  unfold start_connect, start_failed. rewrite no_wsUrl, socketless_scheduleReconnect.
  by destruct (negb _).
Qed.

Lemma socketless_settle c o s :
  socketless s -> socketless (settle account url_ok c o s).
Proof.
  intros Hs. unfold settle.
  assert (Hr : forall d s0, socketless s0 -> socketless (report_ready d s0)).
  { intros d s0 H0. unfold report_ready. by destruct (nullish d). }
  destruct (awaiting s !! c) as [[| |]|]; [| | |exact Hs]; destruct o; try exact Hs;
    cbn [run_caller]; try (by apply Hr);
    apply socketless_start_connect; try (by apply Hr); exact Hs.
Qed.

Lemma socketless_request who endpoint body now s :
  socketless s -> socketless (request account url_ok who endpoint body now s).
Proof.
  intros Hs. pose proof Hs as (_ & _ & Hw & _). unfold request.
  destruct (Js.truthy (c_httpUrl (client s))); [exact Hs|].
  unfold ws_is_open. rewrite Hw. by apply socketless_settle.
Qed.

Lemma socketless_step s ne : socketless s -> socketless (step account url_ok s ne).
Proof.
  intros Hs. pose proof Hs as (Hk & Ht & Hw & Hr & He).
  destruct ne as [now [endpoint body | c r | k sev | h | | ]]; unfold step; cbn [fst snd].
  - by apply socketless_request.
  - unfold http_done. destruct (fetching s !! c); [|exact Hs].
    by apply socketless_settle.
  - unfold socket_event. by rewrite Hk, lookup_empty.
  - unfold fire_timer. by rewrite Ht, lookup_empty.
  - unfold start, getLoginInfo.
    destruct (Js.truthy (httpUrl account));
      [by apply socketless_request | by apply socketless_start_connect].
  - unfold stop. cbv zeta. cbn [runtime with_runtime r_ws set_isClosing]. by rewrite Hr.
Qed.

Lemma socketless_run es s : socketless s -> socketless (run account url_ok es s).
Proof.
  revert s. induction es as [|ne es IH]; intros s Hs; [assumption|].
  simpl. by apply IH, socketless_step.
Qed.

(** Without a [wsUrl] no socket is ever created and no timer is ever
    armed, whatever happens: in every state the session can reach there
    is no socket, no pending timer (so no reconnection is under way), no
    socket handed to the client and no pending socket request. *)
Theorem no_wsUrl_no_socket (es : list (N * Event)) :
  let s := run account url_ok es (init account) in
  sockets s = ∅ /\ timers s = ∅ /\ c_ws (client s) = None /\
  r_ws (runtime s) = None /\ responseEmitter (client s) = [].
Proof.
  cbv zeta.
  assert (H0 : socketless (init account)) by by repeat split.
  revert H0. generalize (init account).
  induction es as [|ne es IH]; intros s0 Hs0; [exact Hs0|].
  apply (IH (step account url_ok s0 ne)), socketless_step, Hs0.
Qed.

(** With neither [wsUrl] nor [httpUrl], starting the runtime reports the
    error once and arms no retry, and every call made afterwards, in any
    state the session can reach, is rejected at once with the
    no-transport error. *)
Theorem unconfigured_account_rejects (es : list (N * Event)) (now : N)
    (endpoint body : string) :
  Js.truthy (httpUrl account) = false ->
  let s := run account url_ok es (init account) in
  step account url_ok (init account) (now, Start) =
    emit_obs (OnError "Neither wsUrl nor httpUrl is configured") (init account) /\
  settlements (nextCall s) (step account url_ok s (now, Call endpoint body)) =
    [Rejected no_transport_error].
Proof.
  intros Hh s. split.
  - unfold step; cbn [fst snd]. unfold start, start_connect, start_failed.
    by rewrite Hh, no_wsUrl, socketless_scheduleReconnect.
  - assert (Hs : socketless s) by by apply socketless_run.
    destruct Hs as (_ & _ & Hw & _).
    assert (Hc : c_httpUrl (client s) = None).
    { unfold s. rewrite run_httpUrl. cbn [init client new_client c_httpUrl]. by rewrite Hh. }
    unfold step; cbn [fst snd]. unfold request, ws_is_open. rewrite Hc, Hw. cbn [Js.truthy].
    rewrite settle_settlements.
    assert (Hwf : wf s) by apply wf_run, wf_init.
    change (settlements (nextCall s) (bump_call _)) with (settlements (nextCall s) s).
    by rewrite (wf_settled _ Hwf (nextCall s)).
Qed.

End NoSocketUrl.

Lemma no_wsUrl_no_socket_witness :
  let s := Session.run http_only_account accept_url http_only_events
             (Session.init http_only_account) in
  Session.sockets s = ∅ /\ Session.timers s = ∅ /\
  Session.c_ws (Session.client s) = None /\
  Session.r_ws (Session.runtime s) = None /\
  Session.responseEmitter (Session.client s) = [].
Proof.
  apply (no_wsUrl_no_socket http_only_account accept_url). reflexivity.
Defined.

Lemma unconfigured_account_rejects_witness :
  let s := Session.run unconfigured_account accept_url http_only_events
             (Session.init unconfigured_account) in
  Session.step unconfigured_account accept_url (Session.init unconfigured_account)
      (7%N, Session.Start) =
    Session.emit_obs (Session.OnError "Neither wsUrl nor httpUrl is configured")
      (Session.init unconfigured_account) /\
  Session.settlements (Session.nextCall s)
      (Session.step unconfigured_account accept_url s (7%N, Session.Call "/send_msg" "{}")) =
    [Session.Rejected Session.no_transport_error].
Proof.
  apply (unconfigured_account_rejects unconfigured_account accept_url); reflexivity.
Defined.

Section StartUp.
Import Types Session.
Local Open Scope list_scope.

Variable account : NapCatAccount.
Variable url_ok : string -> bool.

(** With both endpoints configured, [start] first posts the login check
    and creates no socket while it waits; when the check completes the
    socket is created whether the check succeeded or failed, and
    [onReady] is called only when it succeeded with data other than
    [null] or [undefined]. *)
Theorem start_connects_after_login_check (u w : string) (now now' : N) (r : HttpResult) :
  httpUrl account = Some u -> Js.strip_trailing_slash u <> "" ->
  wsUrl account = Some w -> w <> "" -> url_ok w = true ->
  let s1 := step account url_ok (init account) (now, Start) in
  let s2 := step account url_ok s1 (now', HttpDone 0 r) in
  sockets s1 = ∅ /\
  trace s1 = [HttpPost 0 (Js.strip_trailing_slash u ++ "/get_login_info")%string
                (bearer (token account)) "{}"] /\
  trace s2 =
    trace s1 ++ [Settle 0 (outcome_of_http r)] ++
    match outcome_of_http r with
    | Resolved d => if nullish d then [] else [OnReady d]
    | Rejected _ => []
    end ++
    [NewWebSocket 0 w (bearer (token account))] /\
  sockets s2 !! 0 = Some {| readyState := CONNECTING; listening := true |} /\
  r_ws (runtime s2) = Some 0.
Proof.
  intros Hu Hs Hw Hwne Hok s1 s2.
  assert (Hune : u <> "") by (intros ->; by apply Hs).
  apply String.eqb_neq in Hune, Hs, Hwne.
  assert (Hc : c_httpUrl (new_client account) = Some (Js.strip_trailing_slash u)).
  { unfold new_client. cbn [c_httpUrl]. rewrite Hu. cbn [Js.truthy option_map].
    by rewrite Hune. }
  assert (Ha : Js.truthy (httpUrl account) = true).
  { rewrite Hu. cbn [Js.truthy]. by rewrite Hune. }
  assert (E1 : s1 = requestHttp 0 "/get_login_info" "{}"
                      (bump_call (with_awaiting (insert 0 StartLogin) (init account)))).
  { unfold s1, step; cbn [fst snd]. unfold start, getLoginInfo, request.
    cbn [init client nextCall].
    rewrite Ha, Hc. cbn [Js.truthy]. by rewrite Hs. }
  assert (Ht1 : trace s1 = [HttpPost 0 (Js.strip_trailing_slash u ++ "/get_login_info")%string
                              (bearer (token account)) "{}"]).
  { rewrite E1. unfold requestHttp.
    cbn [trace emit_obs with_fetching bump_call with_awaiting init client app].
    by rewrite Hc. }
  split; [by rewrite E1|]. split; [exact Ht1|].
  assert (E2 : s2 = run_caller account url_ok StartLogin (outcome_of_http r)
                      (with_awaiting (delete 0)
                         (emit_obs (Settle 0 (outcome_of_http r))
                            (with_fetching (delete 0) s1)))).
  { unfold s2, step; cbn [fst snd]. unfold http_done.
    assert (Hf : fetching s1 !! 0 = Some ()).
    { rewrite E1. cbn [fetching requestHttp emit_obs with_fetching].
      by rewrite lookup_insert_eq. }
    rewrite Hf. unfold settle.
    assert (Hw0 : awaiting (with_fetching (delete 0) s1) !! 0 = Some StartLogin).
    { rewrite E1.
      cbn [awaiting requestHttp emit_obs with_fetching bump_call with_awaiting init].
      by rewrite lookup_insert_eq. }
    by rewrite Hw0. }
  assert (Hh : nextHandle s1 = 0) by by rewrite E1.
  assert (Hw1 : Js.truthy (wsUrl account) = true).
  { rewrite Hw. cbn [Js.truthy]. by rewrite Hwne. }
  rewrite E2.
  destruct (outcome_of_http r) as [d|err]; cbn [run_caller];
    unfold report_ready; try destruct (nullish d);
    unfold start_connect; rewrite Hw1, Hw; change (default "" (Some w))%string with w; rewrite Hok;
    cbn [trace emit_obs bump_handle with_sockets with_runtime with_awaiting with_fetching
         sockets runtime r_ws set_r_ws nextHandle];
    rewrite Hh, lookup_insert_eq, <- ?app_assoc; repeat split.
Qed.

End StartUp.

Lemma start_connects_after_login_check_witness :
  let s1 := Session.step http_account accept_url (Session.init http_account)
              (0%N, Session.Start) in
  let s2 := Session.step http_account accept_url s1
              (1%N, Session.HttpDone 0 (Session.HttpJson null_response)) in
  Session.sockets s1 = ∅ /\
  Session.trace s1 =
    [Session.HttpPost 0 "http://127.0.0.1:3000/get_login_info" (Some "Bearer secret") "{}"] /\
  Session.trace s2 =
    (Session.trace s1 ++
     [Session.Settle 0 (Session.Resolved "null");
      Session.NewWebSocket 0 "ws://127.0.0.1:3001" (Some "Bearer secret")])%list /\
  Session.sockets s2 !! 0 =
    Some {| Session.readyState := Session.CONNECTING; Session.listening := true |} /\
  Session.r_ws (Session.runtime s2) = Some 0.
Proof.
  apply (start_connects_after_login_check http_account accept_url
           "http://127.0.0.1:3000/" "ws://127.0.0.1:3001" 0 1
           (Session.HttpJson null_response));
    try reflexivity; discriminate.
Defined.

(** ** Frames and the message handler *)

Section Demultiplexing.
Import Types Session.
Local Open Scope list_scope.

Variable account : NapCatAccount.
Variable url_ok : string -> bool.

Lemma msgs_emit o s :
  messages_of (trace (emit_obs o s)) =
  messages_of (trace s) ++ match o with OnMessage p => [p] | _ => [] end.
Proof.
  unfold messages_of. cbn [trace emit_obs]. rewrite omap_app.
  destruct o; by rewrite ?app_nil_r.
Qed.

Ltac msgs :=
  cbv zeta;
  repeat (progress
            (rewrite ?msgs_emit;
             cbn [trace bump_handle bump_call with_timers with_runtime with_sockets
                  with_client with_awaiting with_fetching]));
  rewrite ?app_nil_r.

Lemma msgs_scheduleReconnect s :
  messages_of (trace (scheduleReconnect account s)) = messages_of (trace s).
Proof.
  unfold scheduleReconnect.
  destruct (isClosing (runtime s)); [reflexivity|].
  destruct (negb _); [reflexivity|].
  destruct (_ <=? _)%N; by msgs.
Qed.

Lemma msgs_start_failed err s :
  messages_of (trace (start_failed account err s)) = messages_of (trace s).
Proof. unfold start_failed. rewrite msgs_scheduleReconnect. by msgs. Qed.

Lemma msgs_start_connect s :
  messages_of (trace (start_connect account url_ok s)) = messages_of (trace s).
Proof.
  unfold start_connect.
  destruct (Js.truthy (wsUrl account)).
  - destruct (url_ok _); [by msgs | apply msgs_start_failed].
  - destruct (negb _); [apply msgs_start_failed | reflexivity].
Qed.

Lemma msgs_run_caller who o s :
  messages_of (trace (run_caller account url_ok who o s)) = messages_of (trace s).
Proof.
  destruct who, o; cbn [run_caller]; rewrite ?msgs_start_connect;
    unfold report_ready; try destruct (nullish d); by msgs.
Qed.

Lemma msgs_settle c o s :
  messages_of (trace (settle account url_ok c o s)) = messages_of (trace s).
Proof.
  unfold settle. destruct (awaiting s !! c); [rewrite msgs_run_caller|]; by msgs.
Qed.

Lemma msgs_request who endpoint body now s :
  messages_of (trace (request account url_ok who endpoint body now s)) =
  messages_of (trace s).
Proof.
  unfold request.
  destruct (Js.truthy (c_httpUrl (client s))); [unfold requestHttp; by msgs|].
  destruct (ws_is_open s); [|rewrite msgs_settle; by msgs].
  unfold requestWs. cbn [client bump_call with_awaiting].
  destruct (c_ws (client s)); [by msgs | rewrite msgs_settle; by msgs].
Qed.

Lemma msgs_start now s :
  messages_of (trace (start account url_ok now s)) = messages_of (trace s).
Proof.
  unfold start, getLoginInfo.
  destruct (Js.truthy (httpUrl account)); [apply msgs_request | apply msgs_start_connect].
Qed.

Lemma msgs_fold_listeners r ls s :
  messages_of (trace (fold_left (run_listener account url_ok r) ls s)) =
  messages_of (trace s).
Proof.
  revert s. induction ls as [|l ls IH]; intros s; [reflexivity|].
  cbn [fold_left]. rewrite IH. unfold run_listener. rewrite msgs_settle. by msgs.
Qed.

(** A frame that carries an [echo] is consumed by the client and hands
    nothing to the message handler. *)
Lemma msgs_handleWsResponse p s :
  messages_of (trace (handleWsResponse account url_ok p s)) = messages_of (trace s).
Proof.
  unfold handleWsResponse. destruct (Js.truthy (p_echo p)); [|reflexivity].
  unfold emit. destruct (listeners_of _ _) as [|l ls] eqn:E.
  - destruct (String.eqb _ _); by msgs.
  - rewrite msgs_fold_listeners. by msgs.
Qed.

Lemma msgs_http_done c r s :
  messages_of (trace (http_done account url_ok c r s)) = messages_of (trace s).
Proof.
  unfold http_done. destruct (fetching s !! c); [|reflexivity].
  rewrite msgs_settle. by msgs.
Qed.

Lemma msgs_handlePayload p s :
  messages_of (trace (handlePayload account url_ok p s)) =
  messages_of (trace s) ++
  if negb (Js.truthy (p_echo p)) && String.eqb (p_post_type p) "message" then [p] else [].
Proof.
  unfold handlePayload. destruct (Js.truthy (p_echo p)); cbn [negb andb].
  - by rewrite msgs_handleWsResponse, app_nil_r.
  - destruct (String.eqb _ _); by msgs.
Qed.

Lemma msgs_socket_event now k sev s :
  messages_of (trace (socket_event account url_ok now k sev s)) =
  messages_of (trace s) ++ handed s (SocketEv k sev).
Proof.
  unfold socket_event, handed, delivers.
  destruct (sockets s !! k) as [sk|]; [|destruct sev as [|[p|]| |]; by rewrite ?app_nil_r].
  destruct sev as [|[p|]| |err]; rewrite ?app_nil_r.
  - destruct (readyState sk); try reflexivity.
    destruct (listening sk); [|by msgs].
    unfold on_open.
    destruct (negb _); [unfold getLoginInfo; rewrite msgs_request|]; by msgs.
  - destruct (readyState sk), (listening sk); cbn [andb on_message];
      rewrite ?app_nil_r; try reflexivity; apply msgs_handlePayload.
  - destruct (readyState sk), (listening sk); cbn [on_message]; by msgs.
  - destruct (readyState sk); try reflexivity;
      (destruct (listening sk); [|by msgs]);
      unfold on_close; cbn [runtime with_client with_sockets];
      (destruct (negb _); [rewrite msgs_scheduleReconnect|]; by msgs).
  - destruct (listening sk); [unfold on_error; by msgs | reflexivity].
Qed.

Lemma msgs_fire_timer now h s :
  messages_of (trace (fire_timer account url_ok now h s)) = messages_of (trace s).
Proof.
  unfold fire_timer. destruct (timers s !! h) as [[d [e c act|]]|]; [| |reflexivity].
  - unfold on_api_timeout. rewrite msgs_settle. by msgs.
  - unfold on_reconnect_timer. cbn [runtime with_timers].
    destruct (negb _); [|by msgs].
    unfold reconnect. rewrite msgs_start. cbv zeta.
    cbn [runtime emit_obs with_timers].
    destruct (r_ws (runtime s)); by msgs.
Qed.

Lemma msgs_stop s : messages_of (trace (stop s)) = messages_of (trace s).
Proof.
  unfold stop. cbv zeta. cbn [runtime with_runtime r_ws set_isClosing].
  destruct (r_ws (runtime s)); by msgs.
Qed.

Lemma handed_In s ev p :
  In p (handed s ev) ->
  Js.truthy (p_echo p) = false /\ p_post_type p = "message" /\
  exists k, ev = SocketEv k (SockMessage (Some p)).
Proof.
  destruct ev as [| |k [|[q|]| |]| | |]; try (intros []).
  cbn [handed]. destruct (delivers s k); [|intros []].
  destruct (Js.truthy (p_echo q)) eqn:He; [intros []|].
  destruct (String.eqb_spec (p_post_type q) "message"); [|intros []].
  intros [<-|[]]. eauto.
Qed.

Lemma msgs_step_In s now ev p :
  In p (messages_of (trace (step account url_ok s (now, ev)))) ->
  In p (messages_of (trace s)) \/ In p (handed s ev).
Proof.
  destruct ev as [endpoint body | c r | k sev | h | | ]; unfold step; cbn [fst snd];
    rewrite ?msgs_request, ?msgs_http_done, ?msgs_socket_event, ?msgs_fire_timer,
      ?msgs_start, ?msgs_stop; auto.
  apply in_app_or.
Qed.

(** What each transition hands to [config.onMessage]: a frame received
    on a socket that still delivers, carrying no [echo] and with
    [post_type] [message], is handed over as it is; nothing else ever
    is.  In particular a frame with an [echo] goes to the client only,
    whether or not a request is waiting for it. *)
Theorem frames_to_message_handler (s : State) (now : N) (ev : Event) :
  messages_of (trace (step account url_ok s (now, ev))) =
  messages_of (trace s) ++ handed s ev.
Proof.
  destruct ev as [endpoint body | c r | k sev | h | | ]; unfold step; cbn [fst snd].
  - rewrite msgs_request. cbn [handed]. by rewrite app_nil_r.
  - rewrite msgs_http_done. cbn [handed]. by rewrite app_nil_r.
  - apply msgs_socket_event.
  - rewrite msgs_fire_timer. cbn [handed]. by rewrite app_nil_r.
  - rewrite msgs_start. cbn [handed]. by rewrite app_nil_r.
  - rewrite msgs_stop. cbn [handed]. by rewrite app_nil_r.
Qed.

(** Along every run, whatever was handed to [config.onMessage] is the
    payload of a frame event of the run that carries no [echo] and whose
    [post_type] is [message]: the handler never sees a response to a
    request nor any other kind of event. *)
Theorem handler_sees_only_messages (es : list (N * Event)) (s : State) (p : Payload) :
  In p (messages_of (trace (run account url_ok es s))) ->
  In p (messages_of (trace s)) \/
  (Js.truthy (p_echo p) = false /\ p_post_type p = "message" /\
   exists now k, In (now, SocketEv k (SockMessage (Some p))) es).
Proof.
  revert s. induction es as [|[now ev] es IH]; intros s; [by left|].
  cbn [run fold_left]. intros [Hin | (He & Hp & now' & k & Hin)]%IH.
  - apply msgs_step_In in Hin as [Hin|Hin]; [by left|].
    right. apply handed_In in Hin as (He & Hp & k & ->).
    repeat split; try done. exists now, k. by left.
  - right. repeat split; try done. exists now', k. by right.
Qed.

End Demultiplexing.

Lemma handler_sees_only_messages_witness :
  In message_frame (messages_of (Session.trace (Session.init ws_only_account))) \/
  (Js.truthy (Session.p_echo message_frame) = false /\
   Session.p_post_type message_frame = "message" /\
   exists now k,
     In (now, Session.SocketEv k (Session.SockMessage (Some message_frame)))
        frames_received).
Proof.
  apply (handler_sees_only_messages ws_only_account accept_url frames_received
           (Session.init ws_only_account) message_frame).
  vm_compute. left. reflexivity.
Defined.


(** ** Every call is settled at most once *)

Section Settlement.
Import Types Session.
Local Open Scope list_scope.

Variable account : NapCatAccount.
Variable url_ok : string -> bool.

Lemma NoDup_map_filter {A B} (f : A -> B) (P : A -> bool) (l : list A) :
  NoDup (map f l) -> NoDup (map f (List.filter P l)).
Proof.
  induction l as [|x l IH]; [done|].
  cbn [map List.filter]. intros [Hx Hl]%NoDup_cons.
  destruct (P x); [|by apply IH].
  cbn [map]. apply NoDup_cons. split; [|by apply IH].
  rewrite list_elem_of_In, in_map_iff in *.
  intros (y & Hy & Hin). apply Hx. exists y. split; [assumption|].
  apply filter_In in Hin. tauto.
Qed.

Lemma api_timer_back (S D : nat -> Prop) s s' h d e c act :
  grow S D s s' ->
  timers s' !! h = Some (d, ApiTimeout e c act) ->
  timers s !! h = Some (d, ApiTimeout e c act).
Proof.
  intros Hg Hx.
  by destruct (g_new _ _ _ _ Hg _ _ Hx) as [Hold | (_ & _ & d' & [=])].
Qed.

Lemma api_timer_kept (S : nat -> Prop) s s' h d e c act :
  wf s -> grow S none s s' ->
  timers s !! h = Some (d, ApiTimeout e c act) ->
  timers s' !! h = Some (d, ApiTimeout e c act).
Proof.
  intros Hwf Hg Hx. apply (g_old _ _ _ _ Hg); [|unfold none; tauto|assumption].
  apply (wf_timer _ Hwf _ _ Hx).
Qed.

(** The invariant is kept by the effects that leave the pending requests
    alone, as long as whatever they settle was unsettled and had nothing
    left that could settle it. *)
Lemma tidy_grow (S : nat -> Prop) s s' :
  tidy s -> wf s -> grow S none s s' ->
  (forall c, settlements c s' = settlements c s \/
             (fetching s !! c = None /\
              (forall h d e act, timers s !! h <> Some (d, ApiTimeout e c act)) /\
              length (settlements c s') <= 1)) ->
  tidy s'.
Proof.
  intros Ht Hwf Hg HS.
  pose proof (g_emitter _ _ _ _ Hg) as Ee. pose proof (g_fetching _ _ _ _ Hg) as Ef.
  constructor.
  - rewrite Ee. intros e l Hin. destruct (td_armed _ Ht _ _ Hin) as [act Hx].
    exists act. by apply (api_timer_kept S s).
  - rewrite Ee. apply Ht.
  - intros h h' d d' e e' c act act' H1 H2.
    apply (api_timer_back _ _ _ _ _ _ _ _ _ Hg) in H1, H2.
    apply (td_timer _ Ht _ _ _ _ _ _ _ _ _ H1 H2).
  - rewrite Ef. intros c h d e act Hf Hx.
    apply (api_timer_back _ _ _ _ _ _ _ _ _ Hg) in Hx.
    by apply (td_fetch _ Ht _ _ _ _ _ Hf Hx).
  - intros c Hne. rewrite Ef. destruct (HS c) as [Hs | (Hf & Hn & _)].
    + rewrite Hs in Hne. destruct (td_settled _ Ht _ Hne) as [Hf Hn].
      split; [assumption|]. intros h d e act Hx.
      apply (api_timer_back _ _ _ _ _ _ _ _ _ Hg) in Hx. by apply (Hn h d e act).
    + split; [assumption|]. intros h d e act Hx.
      apply (api_timer_back _ _ _ _ _ _ _ _ _ Hg) in Hx. by apply (Hn h d e act).
  - intros c. destruct (HS c) as [-> | (_ & _ & Hl)]; [apply Ht | exact Hl].
Qed.

Lemma tidy_remove_listeners e s :
  tidy s ->
  tidy (with_client (fun cl => set_emitter (removeAllListeners e (responseEmitter cl)) cl) s).
Proof.
  intros [Ha Hc Ht Hf Hs Ho]. constructor; try assumption; cbn [client with_client
    responseEmitter set_emitter timers].
  - intros e' l [Hin _]%(In_removeAll url_ok). by apply Ha.
  - by apply NoDup_map_filter.
Qed.

Lemma tidy_delete_timer h s :
  tidy s ->
  (forall e l, In (e, l) (responseEmitter (client s)) -> l_timer l <> h) ->
  tidy (with_timers (delete h) s).
Proof.
  intros [Ha Hc Ht Hf Hs Ho] Hn. constructor; try assumption; cbn [client with_timers timers
    fetching].
  - intros e l Hin. destruct (Ha e l Hin) as [act Hx]. exists act.
    rewrite lookup_delete_ne; [assumption|]. intros Heq. by apply (Hn e l Hin).
  - intros h1 h2 d d' e e' c act act' [_ H1]%lookup_delete_Some [_ H2]%lookup_delete_Some.
    by apply (Ht _ _ _ _ _ _ _ _ _ H1 H2).
  - intros c h' d e act Hc' [_ Hx]%lookup_delete_Some. by apply (Hf c h' d e act).
  - intros c Hne. destruct (Hs c Hne) as [H1 H2]. split; [assumption|].
    intros h' d e act [_ Hx]%lookup_delete_Some. by apply (H2 h' d e act).
Qed.

Lemma tidy_delete_fetch c s : tidy s -> tidy (with_fetching (delete c) s).
Proof.
  intros [Ha Hc Ht Hf Hs Ho]. constructor; try assumption; cbn [with_fetching timers
    fetching].
  - intros c' h d e act [x [_ Hx]%lookup_delete_Some]. apply Hf. by exists x.
  - intros c' Hne. destruct (Hs c' Hne) as [H1 H2]. split; [|assumption].
    destruct (decide (c = c')) as [->|Hcc];
      [apply lookup_delete_eq | by rewrite lookup_delete_ne].
Qed.

(** A call whose timeout is still armed has not been settled and is not
    being fetched. *)
Lemma armed_unsettled s h d e c act :
  tidy s -> timers s !! h = Some (d, ApiTimeout e c act) ->
  settlements c s = [] /\ fetching s !! c = None.
Proof.
  intros Ht Hx. split.
  - destruct (settlements c s) eqn:E; [reflexivity|].
    assert (Hne : settlements c s <> []) by (rewrite E; discriminate).
    destruct (td_settled _ Ht _ Hne) as [_ Hn]. by destruct (Hn h d e act).
  - destruct (fetching s !! c) eqn:E; [|reflexivity].
    assert (Hf : is_Some (fetching s !! c)) by (rewrite E; eauto).
    by destruct (td_fetch _ Ht c h d e act Hf).
Qed.

(** Settling a call that nothing else can settle. *)
Lemma tidy_settle c o s :
  tidy s -> wf s -> c < nextCall s ->
  settlements c s = [] -> fetching s !! c = None ->
  (forall h d e act, timers s !! h <> Some (d, ApiTimeout e c act)) ->
  tidy (settle account url_ok c o s) /\ wf (settle account url_ok c o s).
Proof.
  intros Ht Hwf Hc Hs Hf Hn. split.
  - apply (tidy_grow (eq c) s); [assumption | assumption | apply grow_settle|].
    intros c'. destruct (decide (c = c')) as [<-|Hne].
    + right. repeat split; try assumption.
      rewrite settle_settlements, Hs. cbn. lia.
    + left. apply (grow_settlements (eq c) none); [apply grow_settle | assumption].
  - apply (wf_grow (eq c) none s); [assumption | apply grow_settle|].
    by intros c' <-.
Qed.

(** The timeout of a call is taken away and the call is settled: by the
    timeout itself, or by the listener that clears it. *)
Lemma tidy_expire h d e c act o s :
  tidy s -> wf s ->
  timers s !! h = Some (d, ApiTimeout e c act) ->
  (forall e' l', In (e', l') (responseEmitter (client s)) -> l_timer l' <> h) ->
  tidy (settle account url_ok c o (with_timers (delete h) s)) /\
  wf (settle account url_ok c o (with_timers (delete h) s)).
Proof.
  intros Ht Hwf Hx Hn.
  destruct (armed_unsettled _ _ _ _ _ _ Ht Hx) as [Hs Hf].
  apply tidy_settle.
  - by apply tidy_delete_timer.
  - apply (wf_shrink s); auto. cbn [timers with_timers].
    intros h' x [_ H]%lookup_delete_Some. exact H.
  - apply (wf_timer_call _ Hwf _ _ _ _ _ Hx).
  - exact Hs.
  - exact Hf.
  - cbn [timers with_timers]. intros h' d' e' act' [Hne H]%lookup_delete_Some.
    apply Hne. symmetry. apply (td_timer _ Ht _ _ _ _ _ _ _ _ _ H Hx).
Qed.

Lemma tidy_fold r ls s :
  tidy s -> wf s -> NoDup (map l_call ls) ->
  (forall l, In l ls ->
     exists d e act, timers s !! l_timer l = Some (d, ApiTimeout e (l_call l) act)) ->
  (forall l e' l', In l ls -> In (e', l') (responseEmitter (client s)) ->
                   l_timer l' <> l_timer l) ->
  tidy (fold_left (run_listener account url_ok r) ls s).
Proof.
  revert s. induction ls as [|l ls IH]; intros s Ht Hwf Hnd Hx Hn; [assumption|].
  cbn [fold_left map] in *. apply NoDup_cons in Hnd as [Hl Hnd].
  destruct (Hx l (or_introl eq_refl)) as (d & e & act & Hxl).
  unfold run_listener at 2.
  destruct (tidy_expire _ _ _ _ _ (outcome_of_response r) s Ht Hwf Hxl) as [Ht1 Hwf1].
  { intros e' l' Hin. by apply (Hn l e' l'); [left|]. }
  pose proof (grow_settle account url_ok none (l_call l) (outcome_of_response r)
                (with_timers (delete (l_timer l)) s)) as Hg.
  assert (Hwf0 : wf (with_timers (delete (l_timer l)) s)).
  { apply (wf_shrink s); auto. cbn [timers with_timers].
    intros h' x [_ H]%lookup_delete_Some. exact H. }
  apply IH; try assumption.
  - intros l2 Hin2. destruct (Hx l2 (or_intror Hin2)) as (d2 & e2 & act2 & Hx2).
    exists d2, e2, act2.
    apply (api_timer_kept _ _ _ _ _ _ _ _ Hwf0 Hg). cbn [timers with_timers].
    rewrite lookup_delete_ne; [assumption|]. intros Heq.
    rewrite Heq in Hxl. rewrite Hxl in Hx2. injection Hx2 as _ _ Hc _.
    apply Hl. rewrite list_elem_of_In, in_map_iff. by exists l2.
  - intros l2 e' l' Hin2. rewrite (g_emitter _ _ _ _ Hg). cbn [client with_timers].
    intros Hin'. apply (Hn l2 e' l'); [by right | assumption].
Qed.

Lemma tidy_requested who endpoint body now s s' :
  Requested account url_ok who endpoint body now s s' -> tidy s -> wf s -> tidy s'.
Proof.
  intros [Hh -> | k Hh Hw Hk -> | Hh Hw ->] Ht Hwf;
    pose proof Ht as [Ha Hc Htm Hf Hs Ho]; pose proof Hwf as [Wl Wt Wtc Wf Ws Wtt].
  - constructor; cbn [client emit_obs with_fetching bump_call with_awaiting timers fetching];
      try assumption.
    + intros c h d e act. rewrite lookup_insert. case_decide as Hc'.
      * subst c. intros _ Hx. apply Wtc in Hx. lia.
      * apply Hf.
    + intros c. rewrite settlements_app. cbn [settle_of from_option]. rewrite app_nil_r.
      change (settlements c (with_fetching _ _)) with (settlements c s).
      intros Hne. destruct (Hs c Hne) as [H1 H2]. split; [|assumption].
      rewrite lookup_insert_ne; [assumption|]. intros <-.
      apply Hne, Ws. lia.
    + intros c. rewrite settlements_app. cbn [settle_of from_option]. rewrite app_nil_r.
      apply Ho.
  - assert (Hset : forall c st,
               trace st = trace s ++
                 [SetTimeout (nextHandle s) 10000%Q
                    (ApiTimeout (make_echo now (wsSequence (client s))) (nextCall s)
                       (Js.strip_leading_slash endpoint));
                  WsSend k {| action := Js.strip_leading_slash endpoint; params := body;
                              echo := make_echo now (wsSequence (client s)) |}] ->
               settlements c st = settlements c s).
    { intros c st Hst. rewrite (settlements_trace c s st _ Hst). cbn. by rewrite app_nil_r. }
    match goal with |- tidy ?st => assert (Htr : forall c, settlements c st = settlements c s) end.
    { intros c. apply Hset. cbn. by rewrite <- app_assoc. }
    constructor; cbn [client emit_obs with_client with_timers bump_handle bump_call
                      with_awaiting timers fetching responseEmitter set_emitter
                      set_wsSequence].
    + intros e l [Hin | [[= <- <-]|[]]]%in_app_or.
      * destruct (Ha e l Hin) as [act Hx]. exists act.
        rewrite lookup_insert_ne; [assumption|]. destruct (Wl e l Hin). lia.
      * cbn [l_timer l_call]. eexists. by rewrite lookup_insert_eq.
    + rewrite map_app. cbn [map snd l_call]. apply NoDup_app. repeat split.
      * assumption.
      * intros c Hin ->%list_elem_of_singleton.
        rewrite list_elem_of_In, in_map_iff in Hin. destruct Hin as ([e l] & Hc' & Hin).
        destruct (Wl e l Hin). cbn [snd] in Hc'. lia.
      * apply NoDup_singleton.
    + intros h h' d d' e e' c act act'. rewrite !lookup_insert.
      repeat case_decide; subst.
      * done.
      * intros [= <- <- <- <-] Hx. apply Wtc in Hx. lia.
      * intros Hx [= <- <- <- <-]. apply Wtc in Hx. lia.
      * apply Htm.
    + intros c h d e act Hfc. rewrite lookup_insert. case_decide.
      * intros [= <- <- <- <-]. destruct Hfc as [x Hx]. apply Wf in Hx. lia.
      * by apply Hf.
    + intros c. rewrite Htr. intros Hne. destruct (Hs c Hne) as [H1 H2].
      split; [assumption|]. intros h d e act. rewrite lookup_insert. case_decide.
      * intros [= <- <- <- <-]. apply Hne, Ws. lia.
      * apply H2.
    + intros c. rewrite Htr. apply Ho.
  - set (s0 := bump_call _).
    assert (Ht0 : tidy s0) by (constructor; assumption).
    assert (Hwf0 : wf s0).
    { constructor; cbn [s0 client bump_call with_awaiting timers fetching nextCall nextHandle].
      - intros e l Hin. destruct (Wl e l Hin). lia.
      - exact Wt.
      - intros h d e c act Hx. apply Wtc in Hx. lia.
      - intros c x Hx. apply Wf in Hx. lia.
      - intros c Hc'. change (settlements c s0) with (settlements c s). apply Ws. lia.
      - exact Wtt. }
    apply tidy_settle; try assumption.
    + cbn. lia.
    + change (settlements (nextCall s) s0) with (settlements (nextCall s) s). by apply Ws.
    + cbn [s0 fetching bump_call with_awaiting].
      destruct (fetching s !! nextCall s) eqn:E; [|reflexivity]. apply Wf in E. lia.
    + cbn [s0 timers bump_call with_awaiting]. intros h d e act Hx. apply Wtc in Hx. lia.
Qed.

Lemma tidy_step s ne : tidy s -> wf s -> tidy (step account url_ok s ne).
Proof.
  intros Ht Hwf. destruct ne as [now ev].
  destruct (step_kinds account url_ok now ev s) as
    [Hg | s0 who ep body Hg -> | k p e _ _ _ -> | h d e c act _ Hh -> | c r _ Hc ->].
  - apply (tidy_grow none s); try assumption.
    intros c. left. apply (grow_settlements none none); [assumption | unfold none; tauto].
  - apply (tidy_requested _ _ _ _ _ _ (request_cases account url_ok who ep body now s0)).
    + apply (tidy_grow none s); try assumption.
      intros c. left. apply (grow_settlements none none); [assumption | unfold none; tauto].
    + apply (wf_grow none none s); [assumption | assumption | unfold none; tauto].
  - apply tidy_fold.
    + by apply tidy_remove_listeners.
    + apply (wf_shrink s); auto. cbn. intros e' l Hin. by apply (In_removeAll url_ok) in Hin as [? _].
    + unfold listeners_of. rewrite map_map. apply NoDup_map_filter, Ht.
    + intros l Hin%In_listeners_of. destruct (td_armed _ Ht _ _ Hin) as [act Hx]. eauto.
    + intros l e' l' Hin%In_listeners_of. cbn [client with_client responseEmitter set_emitter].
      intros [Hin' Hne]%(In_removeAll url_ok) Heq.
      destruct (td_armed _ Ht _ _ Hin) as [act Hx].
      destruct (td_armed _ Ht _ _ Hin') as [act' Hx'].
      rewrite Heq, Hx in Hx'. by injection Hx' as ->.
  - change (with_client ?f (with_timers ?g s)) with (with_timers g (with_client f s)).
    apply (tidy_expire h d e c act).
    + by apply tidy_remove_listeners.
    + apply (wf_shrink s); auto. cbn. intros e' l Hin. by apply (In_removeAll url_ok) in Hin as [? _].
    + exact Hh.
    + cbn [client with_client responseEmitter set_emitter].
      intros e' l' [Hin' Hne]%(In_removeAll url_ok) Heq.
      destruct (td_armed _ Ht _ _ Hin') as [act' Hx'].
      rewrite Heq, Hh in Hx'. by injection Hx' as _ -> _ _.
  - destruct Hc as [x Hx].
    assert (Hs : settlements c s = []).
    { destruct (settlements c s) eqn:E; [reflexivity|].
      assert (Hne : settlements c s <> []) by (rewrite E; discriminate).
      destruct (td_settled _ Ht _ Hne) as [Hf _]. congruence. }
    apply tidy_settle.
    + by apply tidy_delete_fetch.
    + apply (wf_shrink s); auto. cbn.
      intros c' y [_ H]%lookup_delete_Some. exact H.
    + apply (wf_fetch _ Hwf _ _ Hx).
    + exact Hs.
    + cbn [fetching with_fetching]. apply lookup_delete_eq.
    + cbn [timers with_fetching]. intros h d e act. apply (td_fetch _ Ht). by exists x.
Qed.

Lemma tidy_run es s :
  tidy s -> wf s -> tidy (run account url_ok es s) /\ wf (run account url_ok es s).
Proof.
  revert s. induction es as [|ne es IH]; intros s Ht Hwf; [by split|].
  cbn [run fold_left]. apply IH; [by apply tidy_step | by apply wf_step].
Qed.

Lemma tidy_init : tidy (init account).
Proof.
  constructor; cbn; try done; try apply NoDup_nil_2; intros *; rewrite ?lookup_empty;
    try done; lia.
Qed.

Lemma trace_grows es s :
  exists obs, trace (run account url_ok es s) = trace s ++ obs.
Proof.
  revert s. induction es as [|ne es IH]; intros s.
  - exists []. by rewrite app_nil_r.
  - destruct (step_reconnect_trace account url_ok s ne) as (_ & obs1 & Ht1 & _).
    destruct (IH (step account url_ok s ne)) as (obs2 & Ht2).
    exists (obs1 ++ obs2).
    change (run account url_ok (ne :: es) s)
      with (run account url_ok es (step account url_ok s ne)).
    by rewrite Ht2, Ht1, app_assoc.
Qed.

Lemma run_app es1 es2 s :
  run account url_ok (es1 ++ es2) s = run account url_ok es2 (run account url_ok es1 s).
Proof. unfold run. apply fold_left_app. Qed.

(** While its fetch is in flight, nothing but the completion of that
    fetch touches a call made over HTTP. *)
Lemma fetch_pending_step c s now ev :
  tidy s -> wf s -> fetching s !! c = Some () ->
  (forall r, ev <> HttpDone c r) ->
  fetching (step account url_ok s (now, ev)) !! c = Some () /\
  settlements c (step account url_ok s (now, ev)) = settlements c s.
Proof.
  intros Ht Hwf Hf Hev.
  assert (Hnt : forall h d e act, timers s !! h <> Some (d, ApiTimeout e c act)).
  { intros h d e act. apply (td_fetch _ Ht). by rewrite Hf. }
  destruct (step_kinds account url_ok now ev s) as
    [Hg | s0 who ep body Hg -> | k p e _ _ _ -> | h d e c' act _ Hh -> | c' r -> Hc ->].
  - split; [by rewrite (g_fetching _ _ _ _ Hg)|].
    apply (grow_settlements none none); [assumption | unfold none; tauto].
  - assert (Hf0 : fetching s0 !! c = Some ()) by by rewrite (g_fetching _ _ _ _ Hg).
    assert (Hs0 : settlements c s0 = settlements c s).
    { apply (grow_settlements none none); [assumption | unfold none; tauto]. }
    assert (Hwf0 : wf s0).
    { apply (wf_grow none none s); [assumption | assumption | unfold none; tauto]. }
    assert (Hc0 : c < nextCall s0) by apply (wf_fetch _ Hwf0 _ _ Hf0).
    rewrite <- Hs0.
    destruct (request_cases account url_ok who ep body now s0) as [Hh -> | k Hh Hw Hk -> | Hh Hw ->].
    + split.
      * cbn [fetching emit_obs with_fetching bump_call with_awaiting].
        rewrite lookup_insert_ne; [assumption | lia].
      * rewrite settlements_app. cbn [settle_of from_option]. by rewrite app_nil_r.
    + split; [exact Hf0|].
      rewrite (settlements_trace c s0 _
                 [SetTimeout (nextHandle s0) 10000%Q
                    (ApiTimeout (make_echo now (wsSequence (client s0))) (nextCall s0)
                       (Js.strip_leading_slash ep));
                  WsSend k {| action := Js.strip_leading_slash ep; params := body;
                              echo := make_echo now (wsSequence (client s0)) |}]).
      * cbn. by rewrite app_nil_r.
      * cbn. by rewrite <- app_assoc.
    + set (s1 := bump_call _).
      pose proof (grow_settle account url_ok none (nextCall s0)
                    (Rejected no_transport_error) s1) as Hg1.
      split; [by rewrite (g_fetching _ _ _ _ Hg1)|].
      rewrite (grow_settlements _ _ _ _ c Hg1); [reflexivity | lia].
  - set (s0 := with_client _ s).
    pose proof (grow_fold_listeners account url_ok (p_response p)
                  (listeners_of e (responseEmitter (client s))) s0) as Hg.
    split; [by rewrite (g_fetching _ _ _ _ Hg)|].
    rewrite (grow_settlements _ _ _ _ c Hg); [reflexivity|].
    rewrite list_elem_of_In, in_map_iff. intros (l & Hl & Hin%In_listeners_of).
    destruct (td_armed _ Ht _ _ Hin) as [act Hx]. rewrite Hl in Hx.
    by apply (Hnt _ _ _ _ Hx).
  - set (s0 := with_client _ _).
    pose proof (grow_settle account url_ok none c' (Rejected (timeout_error act)) s0) as Hg.
    split; [by rewrite (g_fetching _ _ _ _ Hg)|].
    rewrite (grow_settlements _ _ _ _ c Hg); [reflexivity|].
    intros ->. by apply (Hnt _ _ _ _ Hh).
  - assert (Hne : c' <> c) by (intros ->; by apply (Hev r)).
    set (s0 := with_fetching _ s).
    pose proof (grow_settle account url_ok none c' (outcome_of_http r) s0) as Hg.
    split.
    + rewrite (g_fetching _ _ _ _ Hg). cbn [s0 fetching with_fetching].
      by rewrite lookup_delete_ne.
    + by rewrite (grow_settlements _ _ _ _ c Hg).
Qed.

Lemma fetch_pending_run c es s :
  tidy s -> wf s -> fetching s !! c = Some () ->
  (forall ne r, In ne es -> snd ne <> HttpDone c r) ->
  fetching (run account url_ok es s) !! c = Some () /\
  settlements c (run account url_ok es s) = settlements c s.
Proof.
  revert s. induction es as [|[now ev] es IH]; intros s Ht Hwf Hf Hev; [by split|].
  destruct (fetch_pending_step c s now ev Ht Hwf Hf) as [Hf1 Hs1].
  { intros r. apply (Hev (now, ev) r). by left. }
  destruct (IH (step account url_ok s (now, ev))) as [Hf2 Hs2].
  - by apply tidy_step.
  - by apply wf_step.
  - exact Hf1.
  - intros ne r Hin. apply Hev. by right.
  - change (run account url_ok ((now, ev) :: es) s)
      with (run account url_ok es (step account url_ok s (now, ev))).
    split; [exact Hf2 | congruence].
Qed.

(** In every state the session can reach, every pending socket request
    has its own timeout armed for 10000 ms, under the handle its listener
    will clear, with its token and its call, and has not been settled. *)
Theorem pending_request_has_timeout (es : list (N * Event)) (e : string) (l : Listener) :
  let s := run account url_ok es (init account) in
  In (e, l) (responseEmitter (client s)) ->
  (exists act, timers s !! l_timer l = Some (10000%Q, ApiTimeout e (l_call l) act)) /\
  settlements (l_call l) s = [].
Proof.
  intros s Hin.
  destruct (tidy_run es (init account) tidy_init (wf_init account)) as [Ht _].
  destruct (td_armed _ Ht _ _ Hin) as [act Hx].
  split; [by exists act|].
  apply (armed_unsettled _ _ _ _ _ _ Ht Hx).
Qed.

(** No promise is ever settled twice: in every state the session can
    reach, whatever the events and however often tokens, frames,
    timeouts and completions repeat, the resolve / reject pair of each
    call has been invoked at most once. *)
Theorem settled_at_most_once (es : list (N * Event)) (c : nat) :
  length (settlements c (run account url_ok es (init account))) <= 1.
Proof.
  destruct (tidy_run es (init account) tidy_init (wf_init account)) as [Ht _].
  apply (td_once _ Ht).
Qed.

(** A call made over HTTP is settled exactly once, by the completion of
    its own fetch: it is unsettled as long as that completion has not
    arrived, whatever else happens; the completion settles it with the
    outcome of the response; and nothing that happens afterwards, a
    second completion included, settles it again. *)
Theorem http_call_settled_by_its_fetch (es0 es1 es2 : list (N * Event)) (c : nat)
    (now : N) (r : HttpResult) :
  let s := run account url_ok es0 (init account) in
  fetching s !! c = Some () ->
  (forall ne r', In ne es1 -> snd ne <> HttpDone c r') ->
  settlements c (run account url_ok es1 s) = [] /\
  settlements c (run account url_ok es2
                   (step account url_ok (run account url_ok es1 s) (now, HttpDone c r))) =
    [outcome_of_http r].
Proof.
  intros s Hf Hev.
  destruct (tidy_run es0 (init account) tidy_init (wf_init account)) as [Ht Hwf].
  fold s in Ht, Hwf.
  destruct (fetch_pending_run c es1 s Ht Hwf Hf Hev) as [Hf1 Hs1].
  assert (Hs : settlements c s = []).
  { destruct (settlements c s) eqn:E; [reflexivity|].
    assert (Hne : settlements c s <> []) by (rewrite E; discriminate).
    destruct (td_settled _ Ht _ Hne) as [Hn _]. congruence. }
  rewrite Hs in Hs1. split; [exact Hs1|].
  set (s1 := run account url_ok es1 s) in *.
  set (s2 := step account url_ok s1 (now, HttpDone c r)).
  assert (H2 : settlements c s2 = [outcome_of_http r]).
  { unfold s2, step; cbn [fst snd]. unfold http_done. rewrite Hf1.
    rewrite settle_settlements.
    change (settlements c (with_fetching _ s1)) with (settlements c s1).
    by rewrite Hs1. }
  destruct (trace_grows es2 s2) as [obs Hobs].
  pose proof (settlements_trace c _ _ _ Hobs) as H3. rewrite H2 in H3.
  assert (Hlen : length (settlements c (run account url_ok es2 s2)) <= 1).
  { unfold s2, s1, s. rewrite <- !run_app.
    change (step account url_ok ?x ?ne) with (run account url_ok [ne] x).
    rewrite <- !run_app.
    match goal with |- context [run account url_ok ?es (init account)] =>
      destruct (tidy_run es (init account) tidy_init (wf_init account)) as [Ht' _]
    end.
    apply (td_once _ Ht'). }
  rewrite H3 in Hlen |- *. cbn [app length] in Hlen.
  destruct (omap (settle_of c) obs); [reflexivity | cbn in Hlen; lia].
Qed.

End Settlement.

Lemma pending_request_has_timeout_witness :
  (exists act,
     Session.timers state_one_call_pending !! 2 =
       Some (10000%Q, Session.ApiTimeout "api_102_1" 1 act)) /\
  Session.settlements 1 state_one_call_pending = [].
Proof.
  apply (pending_request_has_timeout ws_only_account accept_url one_call_pending
           "api_102_1" {| Session.l_call := 1; Session.l_timer := 2 |}).
  vm_compute. right. left. reflexivity.
Defined.

Lemma http_call_settled_by_its_fetch_witness :
  Session.settlements 0
    (Session.run http_account accept_url [(1%N, Session.Call "/send_msg" "{}")]
       (Session.run http_account accept_url [(0%N, Session.Start)]
          (Session.init http_account))) = [] /\
  Session.settlements 0
    (Session.run http_account accept_url
       [(3%N, Session.HttpDone 0 (Session.HttpJson (Session.p_response (ok_response "" "{}"))))]
       (Session.step http_account accept_url
          (Session.run http_account accept_url [(1%N, Session.Call "/send_msg" "{}")]
             (Session.run http_account accept_url [(0%N, Session.Start)]
                (Session.init http_account)))
          (2%N, Session.HttpDone 0 (Session.NetworkError "ECONNRESET")))) =
    [Session.outcome_of_http (Session.NetworkError "ECONNRESET")].
Proof.
  apply (http_call_settled_by_its_fetch http_account accept_url
           [(0%N, Session.Start)] [(1%N, Session.Call "/send_msg" "{}")]
           [(3%N, Session.HttpDone 0
                    (Session.HttpJson (Session.p_response (ok_response "" "{}"))))]
           0 2 (Session.NetworkError "ECONNRESET")).
  - reflexivity.
  - intros ne r' [<-|[]]. discriminate.
Defined.

(** ** Which media of a payload are sent *)

Section PayloadMedia.
Import Types Channel.

Variable fs : FileSystem.


End PayloadMedia.


(** ** The socket that a reconnect replaces *)

Section Replacement.
Import Types Session.
Local Open Scope list_scope.

Variable account : NapCatAccount.
Variable url_ok : string -> bool.

Lemma keeps_sockets_refl s : keeps_sockets s s.
Proof. by split. Qed.

Lemma keeps_sockets_trans s1 s2 s3 :
  keeps_sockets s1 s2 -> keeps_sockets s2 s3 -> keeps_sockets s1 s3.
Proof.
  intros [H1 K1] [H2 K2]. split; [lia|].
  intros k Hk. rewrite K2 by lia. by apply K1.
Qed.

Lemma keeps_sockets_emit o s : keeps_sockets s (emit_obs o s).
Proof. by split. Qed.

Lemma keeps_sockets_scheduleReconnect s : keeps_sockets s (scheduleReconnect account s).
Proof.
  unfold scheduleReconnect.
  destruct (isClosing (runtime s)); [apply keeps_sockets_refl|].
  destruct (negb _); [apply keeps_sockets_refl|].
  destruct (_ <=? _)%N; split; cbn; auto.
Qed.

Lemma keeps_sockets_start_failed err s : keeps_sockets s (start_failed account err s).
Proof.
  unfold start_failed.
  eapply keeps_sockets_trans; [apply (keeps_sockets_emit (OnError err))|].
  apply keeps_sockets_scheduleReconnect.
Qed.

Lemma keeps_sockets_start_connect s : keeps_sockets s (start_connect account url_ok s).
Proof.
  unfold start_connect.
  destruct (Js.truthy (wsUrl account)).
  - destruct (url_ok _); [|apply keeps_sockets_start_failed].
    split; cbn; [lia|]. intros k Hk. by rewrite lookup_insert_ne by lia.
  - destruct (negb _); [apply keeps_sockets_start_failed | apply keeps_sockets_refl].
Qed.

Lemma keeps_sockets_run_caller who o s :
  keeps_sockets s (run_caller account url_ok who o s).
Proof.
  assert (Hr : forall d s0, keeps_sockets s0 (report_ready d s0)).
  { intros d s0. unfold report_ready.
    destruct (nullish d); [apply keeps_sockets_refl | apply keeps_sockets_emit]. }
  destruct who, o; cbn [run_caller]; try apply keeps_sockets_refl;
    try apply keeps_sockets_start_connect; try apply Hr.
  eapply keeps_sockets_trans; [apply Hr | apply keeps_sockets_start_connect].
Qed.

Lemma keeps_sockets_settle c o s : keeps_sockets s (settle account url_ok c o s).
Proof.
  unfold settle. destruct (awaiting s !! c); [|apply keeps_sockets_emit].
  eapply keeps_sockets_trans; [|apply keeps_sockets_run_caller]. by split.
Qed.

Lemma keeps_sockets_request who endpoint body now s :
  keeps_sockets s (request account url_ok who endpoint body now s).
Proof.
  unfold request.
  destruct (Js.truthy (c_httpUrl (client s))); [by split|].
  destruct (ws_is_open s).
  - unfold requestWs. cbn [client bump_call with_awaiting].
    destruct (c_ws (client s)); [split; cbn; auto|].
    eapply keeps_sockets_trans; [|apply keeps_sockets_settle]. by split.
  - eapply keeps_sockets_trans; [|apply keeps_sockets_settle]. by split.
Qed.

Lemma keeps_sockets_start now s : keeps_sockets s (start account url_ok now s).
Proof.
  unfold start, getLoginInfo.
  destruct (Js.truthy (httpUrl account));
    [apply keeps_sockets_request | apply keeps_sockets_start_connect].
Qed.

(** An event of a socket whose handlers have been removed changes
    nothing but the state of that socket. *)
Lemma detached_socket_event now k sk ev s :
  sockets s !! k = Some sk -> listening sk = false ->
  let s' := step account url_ok s (now, SocketEv k ev) in
  client s' = client s /\ runtime s' = runtime s /\ timers s' = timers s /\
  awaiting s' = awaiting s /\ fetching s' = fetching s /\ trace s' = trace s.
Proof.
  intros Hk Hl. cbv zeta. unfold step; cbn [fst snd]. unfold socket_event.
  rewrite Hk, Hl. destruct ev, (readyState sk); by repeat split.
Qed.

(** When the reconnect timer fires, the socket that the runtime holds is
    stripped of its handlers before anything else: whatever that socket
    does afterwards (a late [open], frames, [close], errors) reaches
    neither the runtime nor the client, not even when the new connection
    is still waiting for the login check. *)
Theorem replaced_socket_is_inert (s : State) (h k : nat) (d : Q) (sk : Socket)
    (now now' : N) (ev : SocketEvent) :
  timers s !! h = Some (d, ReconnectTimer) -> isClosing (runtime s) = false ->
  r_ws (runtime s) = Some k -> sockets s !! k = Some sk -> k < nextHandle s ->
  let s1 := step account url_ok s (now, TimerFires h) in
  let s2 := step account url_ok s1 (now', SocketEv k ev) in
  sockets s1 !! k = Some (terminate_socket sk) /\
  client s2 = client s1 /\ runtime s2 = runtime s1 /\ timers s2 = timers s1 /\
  awaiting s2 = awaiting s1 /\ fetching s2 = fetching s1 /\ trace s2 = trace s1.
Proof.
  intros Hh Hc Hr Hk Hlt s1 s2.
  assert (H1 : sockets s1 !! k = Some (terminate_socket sk)).
  { unfold s1, step; cbn [fst snd]. unfold fire_timer. rewrite Hh.
    unfold on_reconnect_timer. cbn [runtime with_timers]. rewrite Hc. cbn [negb].
    unfold reconnect. cbv zeta. cbn [runtime emit_obs with_timers]. rewrite Hr.
    match goal with |- sockets (start _ _ _ ?x) !! _ = _ =>
      destruct (keeps_sockets_start now x) as [_ Hkeep]
    end.
    rewrite Hkeep by (cbn; lia). cbn [sockets with_runtime emit_obs with_sockets with_timers].
    by rewrite lookup_alter_eq, Hk. }
  split; [exact H1|].
  by apply (detached_socket_event now' k (terminate_socket sk)).
Qed.

End Replacement.

Lemma replaced_socket_is_inert_witness :
  let s := Session.run ws_only_account accept_url five_failed_connections
             (Session.init ws_only_account) in
  let s1 := Session.step ws_only_account accept_url s (10%N, Session.TimerFires 9) in
  let s2 := Session.step ws_only_account accept_url s1
              (11%N, Session.SocketEv 8 (Session.SockError "late")) in
  Session.sockets s1 !! 8 =
    Some (Session.terminate_socket
            {| Session.readyState := Session.CLOSED; Session.listening := true |}) /\
  Session.client s2 = Session.client s1 /\ Session.runtime s2 = Session.runtime s1 /\
  Session.timers s2 = Session.timers s1 /\ Session.awaiting s2 = Session.awaiting s1 /\
  Session.fetching s2 = Session.fetching s1 /\ Session.trace s2 = Session.trace s1.
Proof.
  intros s.
  apply (replaced_socket_is_inert ws_only_account accept_url s 9 8
           (Session.reconnectDelay 5)
           {| Session.readyState := Session.CLOSED; Session.listening := true |}
           10 11 (Session.SockError "late"));
    vm_compute; try reflexivity; lia.
Defined.
